(** * Resistor colour-code reader: the decoding core of [server/main.py]

    A shallow embedding of the deterministic part of the service: the colour
    table, the alias normaliser [norm_color], the band decoder
    [compute_value_from_colors], the E24 snapper [snap_e24], the display
    formatter [human] and the orientation step of [analyze]; further the
    image helpers [resize_max] and [pil_to_part] over an image library
    that is a parameter, the reading of the model's answer in
    [gemini_read_bands] and the response of [analyze], over Python
    objects as [json.loads] returns them.

    Numbers.  Python's [float] and numpy's [float64] are IEEE-754 binary64.
    They are modelled by [spec_float] at precision 53 and maximal exponent
    1024, with the operations of the standard library's executable
    specification ([SFmul], [SFdiv], ... : round to nearest, ties to even).
    Python's [int] is [Z].

    The two transcendental library calls of [snap_e24], [np.log10] and the
    power [10 ** x], are not fixed by IEEE-754; they are parameters of the
    snapper.

    Strings are [string]: a Python string of ASCII characters is the
    string of its characters, and the unit sign of the display is held
    in UTF-8.  [str.strip] and [str.lower] are modelled on strings of ASCII
    characters, and the statements on them are made for such strings. *)

From Stdlib Require Import ZArith String Ascii List Bool Lia.
From Stdlib Require Import DecimalString.
From Stdlib Require Import Floats.SpecFloat.
From stdpp Require Import gmap strings list fin_maps.
From stdpp Require Import sorting.

Open Scope string_scope.
Open Scope Z_scope.

(* ===================================================================== *)
(** * Binary64 arithmetic *)
(* ===================================================================== *)

Abbreviation float := spec_float.

Definition prec : Z := 53.
Definition emax : Z := 1024.

Definition fmul : float -> float -> float := SFmul prec emax.
Definition fdiv : float -> float -> float := SFdiv prec emax.
Definition fsub : float -> float -> float := SFsub prec emax.
Definition fabs : float -> float := SFabs.

(** [x <= y], [x >= y] and [x == y] of Python; all three are false as soon
    as one side is NaN. *)
Definition fle (x y : float) : bool := SFleb x y.
Definition fge (x y : float) : bool := SFleb y x.
Definition flt (x y : float) : bool := SFltb x y.
Definition feq (x y : float) : bool := SFeqb x y.

Definition is_nan (x : float) : bool :=
  match x with S754_nan => true | _ => false end.

Definition is_finite (x : float) : bool :=
  match x with S754_zero _ | S754_finite _ _ _ => true | _ => false end.

(** [float(z)] for a Python int: the nearest binary64, exact below 2^53. *)
Definition of_int (z : Z) : float := binary_normalize prec emax z 0 false.

(** A decimal literal [n/d] with [n] and [d] exactly representable, such as
    [1e-1] or [0.05]: the binary64 nearest to the quotient. *)
Definition lit (n d : Z) : float := fdiv (of_int n) (of_int d).

(** [np.floor]: exact on every binary64. *)
Definition np_floor (x : float) : float :=
  match x with
  | S754_finite s m e =>
      if 0 <=? e then x
      else binary_normalize prec emax (cond_Zopp s (Z.pos m) / 2 ^ (- e)) 0 s
  | _ => x
  end.

(* ===================================================================== *)
(** * Colour code tables *)
(* ===================================================================== *)

(** One value of [COLOR_CODE]: a dict with an optional ["digit"], a
    ["multiplier"] and an optional ["tolerance"]. *)
Record ColorEntry := mkEntry {
  digit : option Z;
  multiplier : float;
  tolerance : option float
}.

Definition COLOR_CODE : gmap string ColorEntry :=
  list_to_map [
    ("black",  mkEntry (Some 0) (of_int 1)          None);
    ("brown",  mkEntry (Some 1) (of_int 10)         (Some (of_int 1)));
    ("red",    mkEntry (Some 2) (of_int 100)        (Some (of_int 2)));
    ("orange", mkEntry (Some 3) (of_int 1000)       None);
    ("yellow", mkEntry (Some 4) (of_int 10000)      None);
    ("green",  mkEntry (Some 5) (of_int 100000)     (Some (lit 5 10)));
    ("blue",   mkEntry (Some 6) (of_int 1000000)    (Some (lit 25 100)));
    ("violet", mkEntry (Some 7) (of_int 10000000)   (Some (lit 1 10)));
    ("grey",   mkEntry (Some 8) (of_int 100000000)  (Some (lit 5 100)));
    ("white",  mkEntry (Some 9) (of_int 1000000000) None);
    ("gold",   mkEntry None     (lit 1 10)          (Some (of_int 5)));
    ("silver", mkEntry None     (lit 1 100)         (Some (of_int 10)))
  ].

Definition TOL_COLORS : gset string :=
  {[ "brown"; "red"; "green"; "blue"; "violet"; "grey"; "gold"; "silver" ]}.

(** [COLOR_CODE.get(c, {}).get("digit")] and its two siblings. *)
Definition get_digit (c : string) : option Z :=
  COLOR_CODE !! c ≫= digit.
Definition get_multiplier (c : string) : option float :=
  multiplier <$> COLOR_CODE !! c.
Definition get_tolerance (c : string) : option float :=
  COLOR_CODE !! c ≫= tolerance.

(* ===================================================================== *)
(** * Alias normaliser *)
(* ===================================================================== *)

Definition ALIASES : gmap string string :=
  list_to_map [
    ("gray", "grey"); ("purple", "violet"); ("golden", "gold");
    ("silver color", "silver"); ("orange-brown", "orange");
    ("reddish", "red"); ("brownish", "brown")
  ].

(** The whitespace that [str.strip] removes, among the ASCII characters:
    TAB..CR, FS..US and the space. *)
Definition is_space (a : ascii) : bool :=
  let n := nat_of_ascii a in
  ((9 <=? n) && (n <=? 13) || (28 <=? n) && (n <=? 32))%nat.

(** [str.lower] on one ASCII character: [A..Z] go to [a..z]. *)
Definition lower_char (a : ascii) : ascii :=
  let n := nat_of_ascii a in
  if ((65 <=? n) && (n <=? 90))%nat then ascii_of_nat (n + 32) else a.

Fixpoint lstrip (s : string) : string :=
  match s with
  | String a s' => if is_space a then lstrip s' else s
  | EmptyString => EmptyString
  end.

Fixpoint rstrip (s : string) : string :=
  match s with
  | String a s' =>
      match rstrip s' with
      | EmptyString => if is_space a then EmptyString else String a EmptyString
      | t => String a t
      end
  | EmptyString => EmptyString
  end.

Definition strip (s : string) : string := rstrip (lstrip s).

Fixpoint lower (s : string) : string :=
  match s with
  | String a s' => String (lower_char a) (lower s')
  | EmptyString => EmptyString
  end.

(** [name] is [None] or a string; [name or ""] turns [None] into [""]. *)
Definition norm_color (name : option string) : string :=
  let c := lower (strip (default "" name)) in
  default c (ALIASES !! c).

(* ===================================================================== *)
(** * Band decoder *)
(* ===================================================================== *)

(** [(d1*10 + d2)*mult] and [(d1*100 + d2*10 + d3)*mult]: the digits are
    ints, the multiplier a float, so the sum is taken in [Z] and the
    product in binary64.  The value is [None] unless every lookup
    succeeded. *)
Definition value2 (d1 d2 : option Z) (mult : option float) : option float :=
  match d1, d2, mult with
  | Some d1, Some d2, Some mult => Some (fmul (of_int (d1 * 10 + d2)) mult)
  | _, _, _ => None
  end.

Definition value3 (d1 d2 d3 : option Z) (mult : option float) : option float :=
  match d1, d2, d3, mult with
  | Some d1, Some d2, Some d3, Some mult =>
      Some (fmul (of_int (d1 * 100 + d2 * 10 + d3)) mult)
  | _, _, _, _ => None
  end.

(** The branches follow the tests on [n = len(colors)] in their order:
    [n == 4], [n == 5], [n == 3], [n >= 6]; any other length leaves both
    results [None]. *)
Definition compute_value_from_colors (colors : list string)
  : option float * option float :=
  match colors with
  | [c0; c1; c2; c3] =>
      (value2 (get_digit c0) (get_digit c1) (get_multiplier c2),
       get_tolerance c3)
  | [c0; c1; c2; c3; c4] =>
      (value3 (get_digit c0) (get_digit c1) (get_digit c2) (get_multiplier c3),
       get_tolerance c4)
  | [c0; c1; c2] =>
      (value2 (get_digit c0) (get_digit c1) (get_multiplier c2), None)
  | c0 :: c1 :: c2 :: c3 :: c4 :: _ :: _ =>
      (value3 (get_digit c0) (get_digit c1) (get_digit c2) (get_multiplier c3),
       get_tolerance c4)
  | _ => (None, None)
  end.

(* ===================================================================== *)
(** * Orientation step of [analyze] *)
(* ===================================================================== *)

Definition in_tol_colors (c : string) : bool := bool_decide (c ∈ TOL_COLORS).

(** Lines 286-290: [colors[0]] and [colors[-1]] of a non-empty list. *)
Definition orient (colors : list string) : list string :=
  match head colors, last colors with
  | Some first, Some final =>
      let left_is_tol := in_tol_colors first in
      let right_is_tol := in_tol_colors final in
      if left_is_tol && negb right_is_tol then reverse colors else colors
  | _, _ => colors
  end.

(** Line 292: the decoder runs on the re-oriented list. *)
Definition decode_oriented (colors : list string)
  : option float * option float :=
  compute_value_from_colors (orient colors).

(* ===================================================================== *)
(** * Display formatter *)
(* ===================================================================== *)

(** Decimal digits of a natural number, ["0"] for zero. *)
Definition decimal (z : Z) : string :=
  NilZero.string_of_uint (N.to_uint (Z.to_N z)).

(** The integer nearest to [n/d], ties to the even one ([0 <= n], [0 < d]). *)
Definition round_half_even (n d : Z) : Z :=
  let q := n / d in
  match 2 * (n mod d) ?= d with
  | Lt => q
  | Eq => if Z.even q then q else q + 1
  | Gt => q + 1
  end.

(** [m * 2^e] in hundredths, correctly rounded. *)
Definition hundredths (m : positive) (e : Z) : Z :=
  if 0 <=? e then Z.pos m * 2 ^ e * 100
  else round_half_even (Z.pos m * 100) (2 ^ (- e)).

Definition two_digits (z : Z) : string :=
  if z <? 10 then "0" ++ decimal z else decimal z.

Definition sign_str (s : bool) : string := if s then "-" else "".

(** The format specification [:.2f]: the exact binary value is rounded to
    two places, ties to even; the sign bit is printed even when the digits
    are all zero. *)
Definition format_2f (x : float) : string :=
  match x with
  | S754_nan => "nan"
  | S754_infinity s => sign_str s ++ "inf"
  | S754_zero s => sign_str s ++ "0.00"
  | S754_finite s m e =>
      let h := hundredths m e in
      sign_str s ++ decimal (h / 100) ++ "." ++ two_digits (h mod 100)
  end.

Definition UNITS : list (string * float) :=
  [ ("GΩ", of_int 1000000000); ("MΩ", of_int 1000000);
    ("kΩ", of_int 1000); ("Ω", of_int 1) ].

(** The [for] loop of [human] over the remaining units, and the line after
    the loop. *)
Fixpoint human_units (v : float) (units : list (string * float)) : string :=
  match units with
  | (name, scale) :: rest =>
      if fge v scale then format_2f (fdiv v scale) ++ " " ++ name
      else human_units v rest
  | [] => format_2f v ++ " Ω"
  end.

Definition human (v : option float) : option string :=
  match v with
  | None => None
  | Some v => Some (human_units v UNITS)
  end.

(* ===================================================================== *)
(** * E24 snapper *)
(* ===================================================================== *)

Definition E24 : list float :=
  of_int <$> [10; 11; 12; 13; 15; 16; 18; 20; 22; 24; 27; 30;
              33; 36; 39; 43; 47; 51; 56; 62; 68; 75; 82; 91].

(** [np.argmin] on a float64 vector: scan from the left keeping the
    current minimum [mp] and its index; an element replaces the minimum
    when [not (x >= mp)]; the scan stops at the first NaN, which counts as
    minimal. *)
Fixpoint argmin_scan (mp : float) (min_ind i : nat) (xs : list float) : nat :=
  match xs with
  | x :: rest =>
      if negb (fge x mp)
      then (if is_nan x then i else argmin_scan x i (S i) rest)
      else argmin_scan mp min_ind (S i) rest
  | [] => min_ind
  end.

(** On an empty vector numpy raises; the vector of the snapper has 24
    elements. *)
Definition np_argmin (xs : list float) : nat :=
  match xs with
  | x :: rest => if is_nan x then O else argmin_scan x O 1%nat rest
  | [] => O
  end.

(** [np.abs(E24 - norm)] *)
Definition distances (norm : float) : list float :=
  (fun e => fabs (fsub e norm)) <$> E24.

Section Snapper.

(** The library functions [np.log10] and [np.power] (the [**] of a
    float64), which IEEE-754 does not fix. *)
Variable np_log10 : float -> float.
Variable np_power : float -> float -> float.

(** [10 ** np.floor(np.log10(v))] *)
Definition decade_of (v : float) : float :=
  np_power (of_int 10) (np_floor (np_log10 v)).

Definition snap_e24 (v : option float) : option float :=
  match v with
  | None => None
  | Some v =>
      if fle v (of_int 0) then Some v
      else
        let decade := decade_of v in
        let norm := fmul (fdiv v decade) (of_int 10) in
        let idx := np_argmin (distances norm) in
        Some (fmul (fdiv (nth idx E24 S754_nan) (of_int 10)) decade)
  end.

End Snapper.

(* ===================================================================== *)
(** * Python objects read from JSON *)
(* ===================================================================== *)

(** What [json.loads] returns: [None], a bool, an int, a float, a str, a
    list or a dict.  A dict is given by its items in insertion order, the
    keys being distinct. *)
#[local] Unset Elimination Schemes.

Inductive json : Type :=
  | JNull
  | JBool (b : bool)
  | JInt (z : Z)
  | JFloat (x : float)
  | JStr (s : string)
  | JArr (elems : list json)
  | JObj (items : list (string * json)).

#[local] Set Elimination Schemes.

(** The exceptions raised by the built-in operations used below, and
    [OSError] for an upload that is no image. *)
Inductive exn : Type :=
  | AttributeError | TypeError | ValueError | OverflowError
  | ZeroDivisionError | OSError.

(** A computation that returns a value or raises. *)
Inductive result (A : Type) : Type :=
  | Ok (a : A)
  | Raise (e : exn).

Arguments Ok {A} a.
Arguments Raise {A} e.

#[global] Instance result_ret : MRet result := @Ok.

#[global] Instance result_bind : MBind result :=
  λ A B f x, match x with Ok a => f a | Raise e => Raise e end.

(** [d[k]] for a key that may be missing. *)
Fixpoint assoc (k : string) (items : list (string * json)) : option json :=
  match items with
  | (k', v) :: rest => if String.eqb k' k then Some v else assoc k rest
  | [] => None
  end.

(** [obj.get(k, dflt)]: only a dict has the method. *)
Definition dict_get (k : string) (dflt : json) (obj : json) : result json :=
  match obj with
  | JObj items => Ok (default dflt (assoc k items))
  | _ => Raise AttributeError
  end.

(** The truth value of an object: [None], [False], zero, the empty string
    and the empty containers are false; a NaN is true. *)
Definition py_bool (obj : json) : bool :=
  match obj with
  | JNull => false
  | JBool b => b
  | JInt z => negb (z =? 0)
  | JFloat x => negb (feq x (of_int 0))
  | JStr s => negb (String.eqb s "")
  | JArr elems => match elems with [] => false | _ => true end
  | JObj items => match items with [] => false | _ => true end
  end.

(** The characters of a string, each as a string of length one. *)
Fixpoint chars (s : string) : list json :=
  match s with
  | String a s' => JStr (String a EmptyString) :: chars s'
  | EmptyString => []
  end.

(** [for b in obj]: the elements of a list, the characters of a string,
    the keys of a dict; nothing else can be iterated. *)
Definition py_iter (obj : json) : result (list json) :=
  match obj with
  | JArr elems => Ok elems
  | JStr s => Ok (chars s)
  | JObj items => Ok (JStr <$> items.*1)
  | _ => Raise TypeError
  end.

(** [int(x)] on a float: truncation towards zero. *)
Definition float_to_int (x : float) : result Z :=
  match x with
  | S754_zero _ => Ok 0
  | S754_finite s m e =>
      Ok (cond_Zopp s (if 0 <=? e then Z.pos m * 2 ^ e
                       else Z.pos m / 2 ^ (- e)))
  | S754_infinity _ => Raise OverflowError
  | S754_nan => Raise ValueError
  end.

(** [int(obj)]; the reading of a string as an integer literal,
    [int_of_str], is left to the caller. *)
Definition py_int (int_of_str : string → result Z) (obj : json) : result Z :=
  match obj with
  | JInt z => Ok z
  | JBool b => Ok (if b then 1 else 0)
  | JFloat x => float_to_int x
  | JStr s => int_of_str s
  | JNull | JArr _ | JObj _ => Raise TypeError
  end.

(** [norm_color] on an arbitrary object: [name or ""] replaces every false
    object by the empty string, and [.strip()] exists on strings only. *)
Definition norm_color_obj (name : json) : result string :=
  if py_bool name then
    match name with
    | JStr s => Ok (norm_color (Some s))
    | _ => Raise AttributeError
    end
  else Ok (norm_color None).

(** [float(z)] for an int, also where an int meets a float in [/] and
    [*]: the nearest binary64, and an error when there is none. *)
Definition py_float (z : Z) : result float :=
  let x := of_int z in if is_finite x then Ok x else Raise OverflowError.

(** [x / y] on floats. *)
Definition py_div (x y : float) : result float :=
  if feq y (of_int 0) then Raise ZeroDivisionError else Ok (fdiv x y).

(* ===================================================================== *)
(** * Image helpers *)
(* ===================================================================== *)

(** One element of the list [parts] that is sent to the model: a text,
    or the dict that [pil_to_part] makes of an image. *)
Inductive part (Bytes : Type) : Type :=
  | Text (s : string)
  | Blob (mime_type : string) (data : Bytes).

Arguments Text {Bytes} s.
Arguments Blob {Bytes} mime_type data.

Section Images.

(** An image of Pillow: its attribute [size], its method [resize] with
    the LANCZOS filter, which returns a new image or raises, and its
    encoding by [save] as a JPEG of quality 92, read back from the
    buffer, which can raise as well. *)
Variables Bytes Image : Type.
Variable img_size : Image → Z * Z.
Variable img_resize : Image → Z * Z → result Image.
Variable save_jpeg : Image → result Bytes.

(** Lines 93-97. *)
Definition pil_to_part (img : Image) : result (part Bytes) :=
  data ← save_jpeg img;
  mret (Blob "image/jpeg" data).

(** Lines 99-103. *)
Definition resize_max (img : Image) (max_side : Z) : result Image :=
  let '(w, h) := img_size img in
  let s := Z.max w h in
  if s <=? max_side then Ok img
  else
    fs ← py_float s;
    fm ← py_float max_side;
    r ← py_div fm fs;
    fw ← py_float w;
    nw ← float_to_int (fmul fw r);
    fh ← py_float h;
    nh ← float_to_int (fmul fh r);
    img_resize img (nw, nh).

End Images.

Arguments pil_to_part {Bytes Image} _ _.
Arguments resize_max {Image} _ _ _ _.

(* ===================================================================== *)
(** * Reading the bands from the model's answer *)
(* ===================================================================== *)

(** [s.find(c)] and [s.rfind(c)] for a single character: the first and the
    last index of [c], or -1. *)
Fixpoint str_find (c : ascii) (s : string) : Z :=
  match s with
  | String a s' =>
      if Ascii.eqb a c then 0
      else let i := str_find c s' in if i =? -1 then -1 else i + 1
  | EmptyString => -1
  end.

Fixpoint str_rfind (c : ascii) (s : string) : Z :=
  match s with
  | String a s' =>
      let i := str_rfind c s' in
      if i =? -1 then (if Ascii.eqb a c then 0 else -1) else i + 1
  | EmptyString => -1
  end.

(** [s[i:j]] for [0 <= i] and [0 <= j]. *)
Definition str_slice (s : string) (i j : Z) : string :=
  substring (Z.to_nat i) (Z.to_nat (j - i)) s.

(** Lines 248-249: the text between the first opening and the last closing
    brace, or the whole text when one of them is missing. *)
Definition extract_payload (txt : string) : string :=
  let start := str_find "{" txt in
  let end_ := str_rfind "}" txt in
  if negb (start =? -1) && negb (end_ =? -1)
  then str_slice txt start (end_ + 1) else txt.

Definition ROLES : list string := ["digit"; "multiplier"; "tolerance"].

(** [role in ("digit", "multiplier", "tolerance")] *)
Definition role_kept (role : json) : bool :=
  match role with
  | JStr s => bool_decide (s ∈ ROLES)
  | _ => false
  end.

(** Line 254: the list comprehension that keeps the bands with one of the
    three roles. *)
Fixpoint keep_roles (bands : list json) : result (list json) :=
  match bands with
  | b :: rest =>
      role ← dict_get "role" JNull b;
      kept ← keep_roles rest;
      mret (if role_kept role then b :: kept else kept)
  | [] => mret []
  end.

(** [list.sort(key=...)] is a stable sort on the keys, which are computed
    once per element: an element is placed before the first element
    that follows it in the list and has a key at least as large. *)
Fixpoint insert_by_key {A} (k : Z) (x : A) (l : list (Z * A))
  : list (Z * A) :=
  match l with
  | (k', y) :: rest =>
      if k <=? k' then (k, x) :: l else (k', y) :: insert_by_key k x rest
  | [] => [(k, x)]
  end.

Definition sort_by_key {A} (l : list (Z * A)) : list (Z * A) :=
  foldr (λ kx acc, insert_by_key kx.1 kx.2 acc) [] l.

(** Lines 254-256: from the parsed answer to the list of colour names. *)
Definition read_colors (int_of_str : string → result Z) (js : json)
  : result (list string) :=
  bands ← dict_get "bands" (JArr []) js;
  items ← py_iter bands;
  triples ← keep_roles items;
  keys ← mapM (λ b, dict_get "index" (JInt 0) b ≫= py_int int_of_str)
            triples;
  let sorted := (sort_by_key (zip keys triples)).*2 in
  mapM (λ b, dict_get "color_name" (JStr "") b ≫= norm_color_obj) sorted.

(** [not txt] for an optional string. *)
Definition no_text (txt : option string) : bool :=
  match txt with
  | Some s => String.eqb s ""
  | None => true
  end.

(** [x or dflt] for an optional string. *)
Definition or_else (x : option string) (dflt : string) : string :=
  if no_text x then dflt else default dflt x.

(** The response model; every field but [ok] defaults to [None]. *)
Module AnalyzeResponse.

Record t : Type := mk {
  ok : bool;
  message : option string;
  colors : option (list string);
  value_ohms : option float;
  value_display : option string;
  tolerance_pct : option float;
  snapped_ohms : option float;
  snapped_display : option string;
  used : option string;
  gemini : option json
}.

Definition failure (msg : string) : t :=
  mk false (Some msg) None None None None None None None None.

End AnalyzeResponse.

(** The two texts that go with the image. *)
Definition sys : string :=
  "You read resistor color bands from images. "
  ++ "Return strict JSON matching the schema. "
  ++ "Use standard color names: black, brown, red, orange, yellow, "
  ++ "green, blue, violet, grey, white, gold, silver. "
  ++ "Read bands left-to-right; if a tolerance band exists, "
  ++ "it is typically on the right.".

Definition user : string :=
  "Identify bands, roles, and confidence. JSON only.".

Section Service.

(** The surroundings of one request: the decoding of the upload
    ([Image.open(...).convert("RGB")]), the image library as above, the
    answers of the two back ends [_sdk_generate] and [_rest_generate] on
    the parts (each returns a text or [None]), the JSON parser, the
    reading of a string by [int], and the two library functions of the
    snapper. *)
Variables Bytes Image : Type.
Variable image_open : Bytes → result Image.
Variable img_size : Image → Z * Z.
Variable img_resize : Image → Z * Z → result Image.
Variable save_jpeg : Image → result Bytes.
Variable sdk_generate : list (part Bytes) → option string.
Variable rest_generate : list (part Bytes) → option string.
Variable json_loads : string → result json.
Variable int_of_str : string → result Z.
Variable np_log10 : float → float.
Variable np_power : float → float → float.

(** Lines 224-257.  The exceptions of the [try] block are caught; those
    of the resizing, of the encoding and of the last three lines are
    not. *)
Definition gemini_read_bands (img : Image)
  : result (option (list string) * option json * option string) :=
  img ← resize_max img_size img_resize img 1024;
  image_part ← pil_to_part save_jpeg img;
  let parts := [Text sys; Text user; image_part] in
  let txt := sdk_generate parts in
  let '(txt, used) :=
    if no_text txt then (rest_generate parts, "rest") else (txt, "sdk") in
  match txt with
  | Some txt =>
      if String.eqb txt "" then Ok (None, None, None)
      else
        match json_loads (extract_payload txt) with
        | Ok js =>
            colors ← read_colors int_of_str js;
            mret (Some colors, Some js, Some used)
        | Raise _ => Ok (None, None, Some used)
        end
  | None => Ok (None, None, None)
  end.

(** Lines 275-305. *)
Definition analyze (data : Bytes) : result AnalyzeResponse.t :=
  match image_open data with
  | Raise _ => Ok (AnalyzeResponse.failure "Invalid image")
  | Ok img =>
      '(colors, raw, used_backend) ← gemini_read_bands img;
      match colors with
      | None | Some [] =>
          Ok (AnalyzeResponse.failure
                "Gemini could not read bands (model/key access issue?)")
      | Some colors =>
          let colors := orient colors in
          let '(value, tol) := compute_value_from_colors colors in
          let snapped :=
            match value with
            | Some _ => snap_e24 np_log10 np_power value
            | None => None
            end in
          Ok (AnalyzeResponse.mk true None (Some colors) value (human value)
                tol snapped (human snapped)
                (Some ("gemini_only/" ++ or_else used_backend "unknown"))
                raw)
      end
  end.

End Service.

Arguments gemini_read_bands {Bytes Image} _ _ _ _ _ _ _ _.
Arguments analyze {Bytes Image} _ _ _ _ _ _ _ _ _ _ _.

(* ===================================================================== *)
(** * Auxiliary definitions for the statements and proofs *)
(* ===================================================================== *)

(** A colour that cannot serve where the decoder asks for what the table
    may lack: gold and silver, and every string that is not a key. *)
Definition unusable (c : string) : Prop :=
  c = "gold" ∨ c = "silver" ∨ COLOR_CODE !! c = None.

(** A string of whitespace only. *)
Fixpoint blank (s : string) : bool :=
  match s with
  | String a s' => is_space a && blank s'
  | EmptyString => true
  end.

(** The strings on which [strip] and [lower] are the methods [str.strip]
    and [str.lower] of Python: those of ASCII characters, each held in
    one [ascii] below 128.  Beyond them Python knows further whitespace
    and further capitals, which the model does not; the statements on
    what the normaliser does with whitespace and letter case are made
    for these strings. *)
Fixpoint ascii_only (s : string) : bool :=
  match s with
  | String a s' => (nat_of_ascii a <? 128)%nat && ascii_only s'
  | EmptyString => true
  end.

(** The normaliser described without [strip] and [lower].  The ASCII
    whitespace: TAB, LF, VT, FF, CR, FS, GS, RS, US and the space. *)
Definition WHITESPACE : list ascii :=
  ["009"; "010"; "011"; "012"; "013"; "028"; "029"; "030"; "031"; " "]%char.

Definition CAPITALS : list ascii :=
  list_ascii_of_string "ABCDEFGHIJKLMNOPQRSTUVWXYZ".




Definition whitespace_only (s : string) : Prop :=
  Forall (.∈ WHITESPACE) (list_ascii_of_string s).

(** Neither the first nor the last character is whitespace. *)
Definition not_padded (s : string) : Prop :=
  (∀ a t, s = String a t → a ∉ WHITESPACE)
  ∧ (∀ t a, s = t ++ String a "" → a ∉ WHITESPACE).

(** No character is a capital. *)
Definition no_capital (s : string) : Prop :=
  Forall (.∉ CAPITALS) (list_ascii_of_string s).

(** The place of a binary64 that is not NaN in the order of the extended
    reals: the sign class first, then exponent and mantissa. *)
Definition fkey (x : float) : Z * Z * Z :=
  match x with
  | S754_infinity true => (-2, 0, 0)
  | S754_finite true m e => (-1, - e, Z.neg m)
  | S754_zero _ | S754_nan => (0, 0, 0)
  | S754_finite false m e => (1, e, Z.pos m)
  | S754_infinity false => (2, 0, 0)
  end.

Definition lex3 (a b : Z * Z * Z) : comparison :=
  match a.1.1 ?= b.1.1 with
  | Eq => match a.1.2 ?= b.1.2 with
          | Eq => a.2 ?= b.2
          | c => c
          end
  | c => c
  end.

(** Decimal digit characters. *)
Definition is_digit (a : ascii) : bool :=
  let n := nat_of_ascii a in ((48 <=? n) && (n <=? 57))%nat.

Fixpoint all_digits (s : string) : bool :=
  match s with
  | String a s' => is_digit a && all_digits s'
  | EmptyString => true
  end.

Definition two_digit_string (s : string) : bool :=
  match s with
  | String d1 (String d2 EmptyString) => is_digit d1 && is_digit d2
  | _ => false
  end.

(** [m * 2^e] rounded to binary64 (exact when [m] has at most 53 bits and
    the exponent is in range). *)
Definition dyadic (m e : Z) : float := binary_normalize prec emax m e false.

(** The binary64 nearest to [10^k].  For [k < 0] the power is not dyadic:
    its first 1200 binary places are taken and a sticky bit is appended
    before rounding; this leaves at least 130 significant bits down to
    [k = -322], and below [k = -324] the result is zero. *)
Definition pow10 (k : Z) : float :=
  if 0 <=? k then of_int (10 ^ k)
  else dyadic (2 * (2 ^ 1200 / 10 ^ (- k)) + 1) (- 1201).

(** Structural equality of two binary64 values. *)
Definition float_same (x y : float) : bool :=
  match x, y with
  | S754_zero s, S754_zero s' => eqb s s'
  | S754_infinity s, S754_infinity s' => eqb s s'
  | S754_nan, S754_nan => true
  | S754_finite s m e, S754_finite s' m' e' =>
      eqb s s' && (m =? m')%positive && (e =? e')
  | _, _ => false
  end.

(** The binary64 values at most two units in the last place away from
    [x]. *)
Definition within_two_ulps (x : float) : list float :=
  [ SFpred prec emax (SFpred prec emax x); SFpred prec emax x; x;
    SFsucc prec emax x; SFsucc prec emax (SFsucc prec emax x) ].

(** One row per index of the table: the entry [E24[i]], the factor
    [E24[i] / 10.0] of the last line of the snapper, and the binary64
    values around the entry. *)
Definition snap_rows : list (nat * float * float * list float) :=
  (fun i => let e := nth i E24 S754_nan in
            (i, e, fdiv e (of_int 10), within_two_ulps e)) <$> seq 0 24.

Definition SNAP_ROWS : list (nat * float * float * list float) :=
  Eval vm_compute in snap_rows.

(** What the second run of the snapper does on the value [E24[i]/10 * D]
    when it meets the decade [D] again: the value is positive, and the
    normalised value either lies within two units in the last place of the
    entry or selects index [i] in the scan. *)
Definition resnap_row (D : float) (row : nat * float * float * list float)
  : bool :=
  let '(i, e, tenth, near) := row in
  let r := fmul tenth D in
  let norm := fmul (fdiv r D) (of_int 10) in
  flt (of_int 0) r
  && (existsb (float_same norm) near
      || (np_argmin (distances norm) =? i)%nat).

Definition stable_decade (D : float) : bool :=
  forallb (resnap_row D) SNAP_ROWS.

(** [x] is a positive binary64 [m * 2^e] within half a unit in the last
    place of the integer [p]: [(2m - 1) * 2^e <= 2p <= (2m + 1) * 2^e],
    a negative [e] being moved to the other side. *)
Definition nearest_int (p : Z) (x : float) : bool :=
  match x with
  | S754_finite false m e =>
      bounded prec emax m e
      && ((2 * Z.pos m - 1) * 2 ^ Z.max e 0 <=? 2 * 2 ^ Z.max (- e) 0 * p)
      && (2 * 2 ^ Z.max (- e) 0 * p <=? (2 * Z.pos m + 1) * 2 ^ Z.max e 0)
  | _ => false
  end.

(** [x] is a positive binary64 [m * 2^e] below 1 within half a unit in the
    last place of a number that is not dyadic and whose first 1200 binary
    places are [x1200]. *)
Definition nearest_frac (x1200 : Z) (x : float) : bool :=
  match x with
  | S754_finite false m e =>
      bounded prec emax m e && (e <? 0) && (-1199 <=? e)
      && ((2 * Z.pos m - 1) * 2 ^ (e + 1199) <=? x1200)
      && (x1200 + 1 <=? (2 * Z.pos m + 1) * 2 ^ (e + 1199))
  | _ => false
  end.

(** What is checked of the decade [10^k], [k >= 0], given as the integer
    [p], and of the decade [10^k], [k < 0], given by its first 1200 binary
    places [x]. *)
Definition decade_up (p : Z) : bool :=
  let D := of_int p in stable_decade D && nearest_int p D.

Definition decade_down (x : Z) : bool :=
  let D := dyadic (2 * x + 1) (- 1201) in
  stable_decade D && nearest_frac x D.

(** A check on [n] consecutive decades, upwards from the integer [p] and
    downwards from the binary places [x]. *)
Fixpoint walk_up (check : Z -> bool) (n : nat) (p : Z) : bool :=
  match n with
  | O => true
  | S n' => check p && walk_up check n' (10 * p)
  end.

Fixpoint walk_down (check : Z -> bool) (n : nat) (x : Z) : bool :=
  match n with
  | O => true
  | S n' => check x && walk_down check n' (x / 10)
  end.

(** Python's [==] on two optional floats. *)
Definition py_eq (x y : option float) : bool :=
  match x, y with
  | Some x, Some y => feq x y
  | None, None => true
  | _, _ => false
  end.

(** A sample of the C library, used to run the snapper on concrete
    numbers: the binary64 values of [log10] at 470 (2.672...), at 460
    (2.662...) and at the subnormal numbers 203 * 2^-1074 (-320.998...)
    and 202 * 2^-1074 (-321.0008...), and the powers of ten 10^2,
    10^-321 and 10^-322, which as binary64 are 100, 202 * 2^-1074 and
    20 * 2^-1074.  Elsewhere the sample is NaN. *)
Definition LOG10_SAMPLE : list (float * float) :=
  [ (of_int 470, dyadic 6017029458648399 (-51));
    (of_int 460, dyadic 5855466395771 (-41));
    (dyadic 203 (-1074), dyadic (-2823534595018197) (-43));
    (dyadic 202 (-1074), dyadic (-2823553459721531) (-43)) ].

Definition POW10_SAMPLE : list (float * float) :=
  [ (of_int 2, of_int 100);
    (of_int (-321), dyadic 202 (-1074));
    (of_int (-322), dyadic 20 (-1074)) ].

Fixpoint sample_at (table : list (float * float)) (x : float) : float :=
  match table with
  | (a, y) :: rest => if feq a x then y else sample_at rest x
  | [] => S754_nan
  end.

Definition sample_log10 (x : float) : float := sample_at LOG10_SAMPLE x.

Definition sample_power (b x : float) : float :=
  if feq b (of_int 10) then sample_at POW10_SAMPLE x else S754_nan.

(* ===================================================================== *)
(** * Auxiliary definitions for the reading of the answer and the response *)
(* ===================================================================== *)

(** The colours that stand for a digit, and the keys of the table. *)
Definition DIGIT_COLORS : list string :=
  ["black"; "brown"; "red"; "orange"; "yellow"; "green"; "blue"; "violet";
   "grey"; "white"].

Definition KEY_COLORS : list string := DIGIT_COLORS ++ ["gold"; "silver"].

(** The multipliers of the table. *)
Definition MULTIPLIERS : list float :=
  [ of_int 1; of_int 10; of_int 100; of_int 1000; of_int 10000;
    of_int 100000; of_int 1000000; of_int 10000000; of_int 100000000;
    of_int 1000000000; lit 1 10; lit 1 100 ].

(** What holds of every decoded value: a binary64 in canonical form,
    finite, and between 0 and 999e9. *)
Definition in_decoder_range (v : float) : bool :=
  valid_binary prec emax v && is_finite v
  && fle (of_int 0) v && fle v (of_int 999000000000).

(** The order of the sort keys. *)
Definition key_le {A} : relation (Z * A) := λ p q, p.1 ≤ q.1.

(** Views of one band of the answer: its fields when it is a dict, the
    index used as sort key (0 when missing), the normalised colour name
    (of the empty string when missing or null) and whether its role is
    one of the three that are kept. *)
Definition is_dict (b : json) : bool :=
  match b with JObj _ => true | _ => false end.

Definition band_fields (b : json) : list (string * json) :=
  match b with JObj fields => fields | _ => [] end.

Definition band_index (b : json) : Z :=
  match assoc "index" (band_fields b) with Some (JInt z) => z | _ => 0 end.

Definition band_color (b : json) : string :=
  norm_color (match assoc "color_name" (band_fields b) with
              | Some (JStr s) => Some s
              | _ => None
              end).

(** The colour name of a band as the answer has it, before it is
    normalised. *)
Definition band_name (b : json) : string :=
  match assoc "color_name" (band_fields b) with
  | Some (JStr s) => s
  | _ => ""
  end.

Definition band_kept (b : json) : bool :=
  role_kept (default JNull (assoc "role" (band_fields b))).

(** A band as the schema describes it: a dict whose ["index"], when
    present, is an integer and whose ["color_name"], when present, is a
    string or null. *)
Definition well_typed_band (b : json) : bool :=
  is_dict b
  && match assoc "index" (band_fields b) with
     | None | Some (JInt _) => true
     | _ => false
     end
  && match assoc "color_name" (band_fields b) with
     | None | Some (JStr _) | Some JNull => true
     | _ => false
     end.

Definition index_le : relation json := λ a b, band_index a ≤ band_index b.

(** The band with its sort key. *)
Definition keyed (b : json) : Z * json := (band_index b, b).

(** A stand-in for the reading of a string by [int], for answers in which
    no index is a string: there it is never called. *)
Definition unused_int_of_str (s : string) : result Z := Raise ValueError.

(** A sample answer: the bands of a 470 Ω, 5 % resistor with a fifth band
    marked as tempco, out of order and in the model's own wording. *)
Definition sample_band (i : Z) (name role : string) : json :=
  JObj [ ("index", JInt i); ("color_name", JStr name); ("role", JStr role);
         ("confidence", JFloat (lit 9 10)) ].

Definition SAMPLE_BANDS : list json :=
  [ sample_band 2 "Brownish" "multiplier";
    sample_band 0 " yellow" "digit";
    sample_band 3 "Golden" "tolerance";
    sample_band 1 "purple" "digit";
    sample_band 4 "red" "tempco" ].

Definition SAMPLE_ANSWER : list (string * json) :=
  [ ("bands", JArr SAMPLE_BANDS); ("band_scheme", JStr "4-band") ].

(** The same answer as the text the model sends, with a sentence before
    and after the object. *)
Definition quoted (s : string) : string :=
  String (ascii_of_nat 34) s ++ String (ascii_of_nat 34) "".

Definition sample_band_text (i name role : string) : string :=
  "{" ++ quoted "index" ++ ": " ++ i ++ ", "
  ++ quoted "color_name" ++ ": " ++ quoted name ++ ", "
  ++ quoted "role" ++ ": " ++ quoted role ++ ", "
  ++ quoted "confidence" ++ ": 0.9}".

Definition SAMPLE_PAYLOAD : string :=
  "{" ++ quoted "bands" ++ ": ["
  ++ sample_band_text "2" "Brownish" "multiplier" ++ ", "
  ++ sample_band_text "0" " yellow" "digit" ++ ", "
  ++ sample_band_text "3" "Golden" "tolerance" ++ ", "
  ++ sample_band_text "1" "purple" "digit" ++ ", "
  ++ sample_band_text "4" "red" "tempco" ++ "], "
  ++ quoted "band_scheme" ++ ": " ++ quoted "4-band" ++ "}".

Definition SAMPLE_TEXT : string :=
  "Here is the reading: " ++ SAMPLE_PAYLOAD ++ " Done.".

(** What Pillow's [resize] does with a size of less than one pixel. *)
Definition rejects_empty_size {Image}
    (img_resize : Image → Z * Z → result Image) : Prop :=
  ∀ img w h, w < 1 ∨ h < 1 → img_resize img (w, h) = Raise ValueError.

(** The parts that [gemini_read_bands] sends to the back ends, when the
    resizing and the encoding of the image do not raise. *)
Definition request_parts {Bytes Image} (img_size : Image → Z * Z)
    (img_resize : Image → Z * Z → result Image)
    (save_jpeg : Image → result Bytes) (img : Image)
  : result (list (part Bytes)) :=
  img ← resize_max img_size img_resize img 1024;
  image_part ← pil_to_part save_jpeg img;
  mret [Text sys; Text user; image_part].

(** The text that is read: that of the SDK, or that of the REST back end
    when the SDK gave none. *)
Definition answer_text {Bytes}
    (sdk_generate rest_generate : list (part Bytes) → option string)
    (parts : list (part Bytes)) : option string :=
  if no_text (sdk_generate parts) then rest_generate parts
  else sdk_generate parts.

(** A sample of the surroundings, used to run the service: a parser that
    knows the sample payload and the empty object; an upload that is a
    photograph of 4032 by 3024 pixels, a strip of 1 by 2000 pixels when
    it reads "strip", and no image when it is empty; images that are
    their sizes, with a [resize] that refuses a side below 1 and an
    encoder that always succeeds; no SDK (so that [_sdk_generate]
    returns [None]) and a REST back end that sends the sample text. *)
Definition sample_json_loads (s : string) : result json :=
  if String.eqb s SAMPLE_PAYLOAD then Ok (JObj SAMPLE_ANSWER)
  else if String.eqb s "{}" then Ok (JObj [])
  else Raise ValueError.

Definition sample_image_open (data : string) : result (Z * Z) :=
  if String.eqb data "" then Raise OSError
  else if String.eqb data "strip" then Ok (1, 2000)
  else Ok (4032, 3024).

Definition sample_size (img : Z * Z) : Z * Z := img.

Definition sample_resize (img size : Z * Z) : result (Z * Z) :=
  if (size.1 <? 1) || (size.2 <? 1) then Raise ValueError else Ok size.

Definition sample_save (img : Z * Z) : result string := Ok "JFIF".

Definition sample_sdk (parts : list (part string)) : option string := None.

Definition sample_rest (parts : list (part string)) : option string :=
  Some SAMPLE_TEXT.

Definition sample_analyze (data : string) : result AnalyzeResponse.t :=
  analyze sample_image_open sample_size sample_resize sample_save
    sample_sdk sample_rest sample_json_loads unused_int_of_str
    sample_log10 sample_power data.

Definition SAMPLE_RESPONSE : AnalyzeResponse.t :=
  AnalyzeResponse.mk true None
    (Some ["yellow"; "violet"; "brown"; "gold"])
    (Some (of_int 470)) (Some "470.00 Ω") (Some (of_int 5))
    (Some (of_int 470)) (Some "470.00 Ω")
    (Some "gemini_only/rest") (Some (JObj SAMPLE_ANSWER)).

(** Back ends that give no text, and one that gives the empty object. *)
Definition silent (parts : list (part string)) : option string := None.

Definition empty_object (parts : list (part string)) : option string :=
  Some "{}".
(** What can be iterated. *)
Definition iterable (obj : json) : bool :=
  match obj with JArr _ | JStr _ | JObj _ => true | _ => false end.

(** [c in s] for a character. *)
Fixpoint has_char (c : ascii) (s : string) : bool :=
  match s with
  | String a s' => Ascii.eqb a c || has_char c s'
  | EmptyString => false
  end.

(** The table of the snapper as integers, and the multipliers of the
    colour table with their powers of ten. *)
Definition E24_INTS : list Z :=
  [10; 11; 12; 13; 15; 16; 18; 20; 22; 24; 27; 30;
   33; 36; 39; 43; 47; 51; 56; 62; 68; 75; 82; 91].

Definition DECADES : list (float * Z) :=
  [ (of_int 1, 0); (of_int 10, 1); (of_int 100, 2); (of_int 1000, 3);
    (of_int 10000, 4); (of_int 100000, 5); (of_int 1000000, 6);
    (of_int 10000000, 7); (of_int 100000000, 8); (of_int 1000000000, 9);
    (lit 1 10, -1); (lit 1 100, -2) ].

(** What the snapper returns for a positive [v] once the decade is
    known. *)
Definition snap_at (D v : float) : float :=
  let norm := fmul (fdiv v D) (of_int 10) in
  fmul (fdiv (nth (np_argmin (distances norm)) E24 S754_nan) (of_int 10)) D.

(** The binary64 values next to [v], and [v]. *)
Definition neighbours (v : float) : list float :=
  [SFpred prec emax v; v; SFsucc prec emax v].

(** The snapped value of the product [n * m] in the decade [10^j]: it is
    positive, next to the product and displayed like it. *)
Definition snaps_close (n : Z) (m : float) (j : Z) : bool :=
  let v := fmul (of_int n) m in
  let r := snap_at (pow10 j) v in
  negb (fle v (of_int 0))
  && existsb (float_same r) (neighbours v)
  && String.eqb (human_units r UNITS) (human_units v UNITS).

(* ===================================================================== *)
(** * Order of binary64 values *)
(* ===================================================================== *)

Lemma SFcompare_key x y :
  is_nan x = false → is_nan y = false →
  SFcompare x y = Some (lex3 (fkey x) (fkey y)).
Proof.
  destruct x as [[]|[]| |[] m1 e1], y as [[]|[]| |[] m2 e2];
    intros Hx Hy; try discriminate; try reflexivity;
    unfold lex3; simpl.
  rewrite Z.compare_opp, (Z.compare_antisym e1 e2).
  by destruct (e1 ?= e2).
Qed.

Lemma lex3_lt_trans a b c : lex3 a b = Lt → lex3 b c = Lt → lex3 a c = Lt.
Proof.
  destruct a as [[a1 a2] a3], b as [[b1 b2] b3], c as [[c1 c2] c3].
  unfold lex3; simpl.
  destruct (Z.compare_spec a1 b1), (Z.compare_spec b1 c1),
    (Z.compare_spec a1 c1); try (done || lia);
  destruct (Z.compare_spec a2 b2), (Z.compare_spec b2 c2),
    (Z.compare_spec a2 c2); try (done || lia);
  rewrite ?Z.compare_lt_iff; lia.
Qed.

Lemma lex3_eq a b : lex3 a b = Eq → a = b.
Proof.
  destruct a as [[a1 a2] a3], b as [[b1 b2] b3]. unfold lex3; simpl.
  destruct (Z.compare_spec a1 b1); try done.
  destruct (Z.compare_spec a2 b2); try done.
  intros ->%Z.compare_eq. by subst.
Qed.

Lemma lex3_refl a : lex3 a a = Eq.
Proof.
  destruct a as [[a1 a2] a3]. unfold lex3; simpl.
  by rewrite !Z.compare_refl.
Qed.

Lemma lex3_antisym a b : lex3 b a = CompOpp (lex3 a b).
Proof.
  destruct a as [[a1 a2] a3], b as [[b1 b2] b3]. unfold lex3; simpl.
  rewrite (Z.compare_antisym a1 b1), (Z.compare_antisym a2 b2),
    (Z.compare_antisym a3 b3).
  destruct (a1 ?= b1); simpl; try done.
  destruct (a2 ?= b2); simpl; done.
Qed.

Lemma flt_not_nan x y : flt x y = true → is_nan x = false ∧ is_nan y = false.
Proof. by destruct x as [| | |[]], y as [| | |[]]. Qed.

Lemma fle_not_nan x y : fle x y = true → is_nan x = false ∧ is_nan y = false.
Proof. by destruct x as [| | |[]], y as [| | |[]]. Qed.

Lemma flt_key x y : flt x y = true ↔
  is_nan x = false ∧ is_nan y = false ∧ lex3 (fkey x) (fkey y) = Lt.
Proof.
  split.
  - intros H. destruct (flt_not_nan _ _ H) as [Hx Hy].
    revert H. unfold flt, SFltb. rewrite (SFcompare_key _ _ Hx Hy).
    by destruct (lex3 _ _).
  - intros (Hx & Hy & H). unfold flt, SFltb.
    by rewrite (SFcompare_key _ _ Hx Hy), H.
Qed.

Lemma fle_key x y : fle x y = true ↔
  is_nan x = false ∧ is_nan y = false ∧ lex3 (fkey x) (fkey y) ≠ Gt.
Proof.
  split.
  - intros H. destruct (fle_not_nan _ _ H) as [Hx Hy].
    revert H. unfold fle, SFleb. rewrite (SFcompare_key _ _ Hx Hy).
    by destruct (lex3 _ _).
  - intros (Hx & Hy & H). unfold fle, SFleb.
    rewrite (SFcompare_key _ _ Hx Hy). by destruct (lex3 _ _).
Qed.

Lemma fle_refl x : is_nan x = false → fle x x = true.
Proof. intros H. apply fle_key. by rewrite lex3_refl. Qed.

Lemma flt_fle x y : flt x y = true → fle x y = true.
Proof.
  rewrite flt_key, fle_key. intros (? & ? & E). by rewrite E.
Qed.

(** Without NaN, [not (x >= y)] is [x < y]. *)
Lemma not_fge_flt x y :
  is_nan x = false → is_nan y = false → negb (fge x y) = flt x y.
Proof.
  intros Hx Hy. unfold fge, fle, flt, SFleb, SFltb.
  rewrite (SFcompare_key _ _ Hx Hy), (SFcompare_key _ _ Hy Hx).
  rewrite (lex3_antisym (fkey x)). by destruct (lex3 (fkey x) (fkey y)).
Qed.

Lemma flt_not_fge x y : flt x y = true → fge x y = false.
Proof.
  intros H. destruct (flt_not_nan _ _ H) as [Hx Hy].
  rewrite <- (not_fge_flt _ _ Hx Hy) in H. by destruct (fge x y).
Qed.

Lemma lex3_le_lt_trans a b c : lex3 a b ≠ Gt → lex3 b c = Lt → lex3 a c = Lt.
Proof.
  intros Hab Hbc. destruct (lex3 a b) eqn:E; [| |done].
  - by apply lex3_eq in E as ->.
  - eauto using lex3_lt_trans.
Qed.

Lemma lex3_lt_le_trans a b c : lex3 a b = Lt → lex3 b c ≠ Gt → lex3 a c = Lt.
Proof.
  intros Hab Hbc. destruct (lex3 b c) eqn:E; [| |done].
  - by apply lex3_eq in E as <-.
  - eauto using lex3_lt_trans.
Qed.

Lemma flt_fle_trans x y z : flt x y = true → fle y z = true → flt x z = true.
Proof.
  rewrite !flt_key, fle_key. intros (? & ? & ?) (? & ? & ?).
  eauto using lex3_lt_le_trans.
Qed.

Lemma fle_flt_trans x y z : fle x y = true → flt y z = true → flt x z = true.
Proof.
  rewrite !flt_key, fle_key. intros (? & ? & ?) (? & ? & ?).
  eauto using lex3_le_lt_trans.
Qed.

Lemma flt_trans x y z : flt x y = true → flt y z = true → flt x z = true.
Proof. eauto using flt_fle_trans, flt_fle. Qed.

Lemma float_same_eq x y : float_same x y = true → x = y.
Proof.
  destruct x as [s|s| |s m e], y as [s'|s'| |s' m' e']; simpl; try done.
  - by intros ->%eqb_prop.
  - by intros ->%eqb_prop.
  - intros [[->%eqb_prop ->%Pos.eqb_eq]%andb_prop ->%Z.eqb_eq]%andb_prop.
    done.
Qed.


(* ===================================================================== *)
(** * Rounding never invents a NaN *)
(* ===================================================================== *)

Section RoundingFacts.

Variables p emx : Z.

Lemma shr_1_nonneg mrs : 0 ≤ shr_m mrs → 0 ≤ shr_m (shr_1 mrs).
Proof. destruct mrs as [[|[q|q|]|q] r s]; simpl; lia. Qed.

Lemma iter_pos_invariant {A} (P : A → Prop) (f : A → A) :
  (∀ x, P x → P (f x)) → ∀ n x, P x → P (SpecFloat.iter_pos f n x).
Proof.
  intros Hf n. induction n as [n IH|n IH|]; intros x Hx; simpl; auto.
Qed.

Lemma shr_fexp_nonneg m e l :
  0 ≤ m → 0 ≤ shr_m (shr_fexp p emx m e l).1.
Proof.
  intros Hm. unfold shr_fexp, shr.
  assert (0 ≤ shr_m (shr_record_of_loc m l)) as H0
    by (by destruct l as [|[]]).
  destruct (fexp p emx (Zdigits2 m + e) - e) as [|n|n]; simpl; try done.
  by apply iter_pos_invariant; [apply shr_1_nonneg|].
Qed.

Lemma round_nearest_even_nonneg m l : 0 ≤ m → 0 ≤ round_nearest_even m l.
Proof.
  intros Hm. destruct l as [|[]]; simpl; try lia.
  destruct (Z.even m); lia.
Qed.

Lemma binary_round_aux_not_nan s m e l :
  0 ≤ m → is_nan (binary_round_aux p emx s m e l) = false.
Proof.
  intros Hm. unfold binary_round_aux.
  pose proof (shr_fexp_nonneg m e l Hm) as H1.
  destruct (shr_fexp p emx m e l) as [mrs' e'].
  pose proof (shr_fexp_nonneg
                (round_nearest_even (shr_m mrs') (loc_of_shr_record mrs'))
                e' loc_Exact
                (round_nearest_even_nonneg _ _ H1)) as H2.
  destruct (shr_fexp p emx _ e' loc_Exact) as [mrs'' e''].
  simpl in H2. destruct (shr_m mrs'') as [|q|q]; try done.
  by destruct (e'' <=? emx - p).
Qed.

Lemma binary_normalize_not_nan m e s :
  is_nan (binary_normalize p emx m e s) = false.
Proof.
  destruct m as [|q|q]; simpl; [done|..]; unfold binary_round;
    destruct (shl_align _ _ _) as [mz ez];
    by apply binary_round_aux_not_nan.
Qed.

End RoundingFacts.

Lemma fsub_finite_not_nan s m e y :
  is_nan y = false → is_nan (fsub (S754_finite s m e) y) = false.
Proof.
  destruct y as [sy|sy| |sy my ey]; try done; intros _.
  apply binary_normalize_not_nan.
Qed.

Lemma fabs_not_nan x : is_nan (fabs x) = is_nan x.
Proof. by destruct x. Qed.


(* ===================================================================== *)
(** * Division by a unit threshold does not overflow *)
(* ===================================================================== *)

Lemma digits2_pos_size q : digits2_pos q = Pos.size q.
Proof. induction q; simpl; congruence. Qed.

Lemma Zdigits2_nonneg z : 0 ≤ Zdigits2 z.
Proof. destruct z; simpl; lia. Qed.

Lemma Zdigits2_upper z : 0 ≤ z → z < 2 ^ Zdigits2 z.
Proof.
  destruct z as [|q|q]; simpl; [lia| |lia]; intros _.
  rewrite digits2_pos_size.
  pose proof (Pos.size_gt q) as H. apply Pos2Z.pos_lt_pos in H.
  by rewrite Pos2Z.inj_pow in H.
Qed.

Lemma Zdigits2_le z k : 0 ≤ z < 2 ^ k → 0 ≤ k → Zdigits2 z ≤ k.
Proof.
  destruct z as [|q|q]; simpl; [lia| |lia]; intros [_ Hz] Hk.
  rewrite digits2_pos_size.
  pose proof (Pos.size_le q) as H. apply Pos2Z.pos_le_pos in H.
  rewrite Pos2Z.inj_pow in H.
  destruct (Z.le_gt_cases (Z.pos (Pos.size q)) k) as [|Hgt]; [done|].
  exfalso.
  assert (2 ^ (k + 1) ≤ 2 ^ Z.pos (Pos.size q)) as Hp
    by (apply Z.pow_le_mono_r; lia).
  rewrite Z.pow_add_r, Z.pow_1_r in Hp by lia. lia.
Qed.

Lemma shr_1_div2 mrs : 0 ≤ shr_m mrs → shr_m (shr_1 mrs) = shr_m mrs / 2.
Proof.
  destruct mrs as [[|[q|q|]|q] r s]; simpl; intros H; try lia; try done.
  - apply Z.div_unique with (r := 1); lia.
  - apply Z.div_unique with (r := 0); lia.
Qed.

Lemma iter_shr_1_div n : ∀ mrs,
  0 ≤ shr_m mrs →
  shr_m (SpecFloat.iter_pos shr_1 n mrs) = shr_m mrs / 2 ^ Z.pos n.
Proof.
  induction n as [n IH|n IH|]; intros mrs Hm; simpl.
  - pose proof (shr_1_nonneg mrs Hm) as H1.
    pose proof (iter_pos_invariant (λ x, 0 ≤ shr_m x) shr_1 shr_1_nonneg
                  n _ H1) as H2.
    rewrite IH, IH, shr_1_div2 by done.
    rewrite !Z.div_div by lia. f_equal.
    replace (Z.pos n~1) with (1 + (Z.pos n + Z.pos n)) by lia.
    by rewrite !Z.pow_add_r, Z.pow_1_r by lia.
  - pose proof (iter_pos_invariant (λ x, 0 ≤ shr_m x) shr_1 shr_1_nonneg
                  n _ Hm) as H2.
    rewrite IH, IH by done.
    rewrite !Z.div_div by lia. f_equal.
    replace (Z.pos n~0) with (Z.pos n + Z.pos n) by lia.
    by rewrite !Z.pow_add_r by lia.
  - by apply shr_1_div2.
Qed.

Lemma fexp_eq e : fexp prec emax e = Z.max (e - 53) (-1074).
Proof. reflexivity. Qed.

Lemma div_pow2_lt m d n : 0 ≤ m < 2 ^ d → 0 ≤ n ≤ d → m / 2 ^ n < 2 ^ (d - n).
Proof.
  intros Hm Hn. apply Z.div_lt_upper_bound; [lia|].
  rewrite <- Z.pow_add_r by lia.
  replace (n + (d - n)) with d by lia. lia.
Qed.

Lemma div_pow2_small m d n : 0 ≤ m < 2 ^ d → 0 ≤ d ≤ n → m / 2 ^ n = 0.
Proof.
  intros Hm Hn. apply Z.div_small.
  assert (2 ^ d ≤ 2 ^ n) by (apply Z.pow_le_mono_r; lia). lia.
Qed.

(** Shifting [m] right by [n] places leaves at most [max (d - n) 0]
    digits when [m] has at most [d]. *)
Lemma Zdigits2_div_pow2 m n :
  0 ≤ m → 0 ≤ n → Zdigits2 (m / 2 ^ n) ≤ Z.max (Zdigits2 m - n) 0.
Proof.
  intros Hm Hn.
  pose proof (Zdigits2_upper m Hm) as Hu.
  pose proof (Zdigits2_nonneg m) as Hd.
  destruct (Z.le_gt_cases n (Zdigits2 m)) as [Hle|Hgt].
  - apply Zdigits2_le; [|lia]. rewrite Z.max_l by lia. split.
    + apply Z.div_pos; lia.
    + apply div_pow2_lt; lia.
  - rewrite (div_pow2_small m (Zdigits2 m) n) by lia. simpl. lia.
Qed.

Lemma Zdigits2_succ m : 0 ≤ m → Zdigits2 (m + 1) ≤ Zdigits2 m + 1.
Proof.
  intros Hm. pose proof (Zdigits2_upper m Hm) as Hu.
  pose proof (Zdigits2_nonneg m) as Hd.
  apply Zdigits2_le; [|lia].
  rewrite Z.pow_add_r, Z.pow_1_r by lia. lia.
Qed.

Lemma Zdigits2_mono a b : 0 ≤ a ≤ b → Zdigits2 a ≤ Zdigits2 b.
Proof.
  intros H. pose proof (Zdigits2_upper b ltac:(lia)).
  apply Zdigits2_le; [lia|apply Zdigits2_nonneg].
Qed.

Lemma round_nearest_even_bounds m l :
  0 ≤ m → m ≤ round_nearest_even m l ≤ m + 1.
Proof.
  intros Hm. destruct l as [|[]]; simpl; try lia.
  destruct (Z.even m); lia.
Qed.

(** The first pass of [binary_round_aux]: exponent and mantissa after the
    shift. *)
Lemma shr_fexp_spec m e l :
  0 ≤ m →
  ∃ mrs e', shr_fexp prec emax m e l = (mrs, e')
    ∧ e' = Z.max e (fexp prec emax (Zdigits2 m + e))
    ∧ shr_m mrs = m / 2 ^ (e' - e).
Proof.
  intros Hm. unfold shr_fexp, shr.
  assert (shr_m (shr_record_of_loc m l) = m) as Hrec
    by (by destruct l as [|[]]).
  destruct (fexp prec emax (Zdigits2 m + e) - e) as [|n|n] eqn:E.
  - eexists _, _. split; [done|]. split; [lia|].
    by rewrite Z.sub_diag, Z.pow_0_r, Z.div_1_r.
  - eexists _, _. split; [done|]. split; [lia|].
    rewrite iter_shr_1_div by lia. rewrite Hrec. f_equal. f_equal. lia.
  - eexists _, _. split; [done|]. split; [lia|].
    by rewrite Z.sub_diag, Z.pow_0_r, Z.div_1_r.
Qed.

(** Rounding a mantissa whose leading digit is below [2^1023] gives a
    finite binary64. *)
Lemma binary_round_aux_finite s m e l :
  0 ≤ m → e ≤ 971 → Zdigits2 m + e ≤ 1023 →
  is_finite (binary_round_aux prec emax s m e l) = true.
Proof.
  intros Hm He Hd. unfold binary_round_aux.
  destruct (shr_fexp_spec m e l Hm) as (mrs1 & e1 & -> & He1 & Hm1).
  pose proof (Zdigits2_nonneg m) as Hdm.
  assert (0 ≤ e1 - e) as Hn by lia.
  assert (0 ≤ shr_m mrs1) as Hm1pos
    by (rewrite Hm1; apply Z.div_pos; lia).
  pose proof (round_nearest_even_bounds (shr_m mrs1)
                (loc_of_shr_record mrs1) Hm1pos) as Hr.
  set (m2 := round_nearest_even (shr_m mrs1) (loc_of_shr_record mrs1)) in *.
  destruct (shr_fexp_spec m2 e1 loc_Exact ltac:(lia))
    as (mrs2 & e2 & -> & He2 & Hm2).
  assert (Zdigits2 m2 + e1 ≤ 1024) as Hd2.
  { pose proof (Zdigits2_mono m2 (shr_m mrs1 + 1) ltac:(lia)) as Ha.
    pose proof (Zdigits2_succ (shr_m mrs1) Hm1pos) as Hb.
    pose proof (Zdigits2_div_pow2 m (e1 - e) Hm Hn) as Hc.
    rewrite <- Hm1 in Hc. rewrite fexp_eq in He1. lia. }
  rewrite !fexp_eq in *.
  destruct (shr_m mrs2) as [|q|q] eqn:Eq; [done| |].
  - assert ((e2 <=? emax - prec) = true) as ->
      by (apply Z.leb_le; unfold emax, prec; lia).
    done.
  - assert (0 ≤ m2 / 2 ^ (e2 - e1)) by (apply Z.div_pos; lia). lia.
Qed.

Lemma bounded_digits m e :
  bounded prec emax m e = true →
  e ≤ 971 ∧ Zdigits2 (Z.pos m) + e ≤ 1024 ∧ -1074 ≤ e.
Proof.
  unfold bounded, canonical_mantissa.
  intros [Hc He]%andb_prop. apply Z.eqb_eq in Hc. apply Z.leb_le in He.
  rewrite fexp_eq in Hc. unfold emax, prec in He. simpl. lia.
Qed.

(** A quotient whose magnitude stays below [2^1023] is finite: the divisor
    has 53 digits and exponent [ey >= -52], that is, it is at least 1. *)
Lemma fdiv_finite sx mx ex sy my ey :
  bounded prec emax mx ex = true →
  Zdigits2 (Z.pos my) = 53 → -52 ≤ ey →
  Zdigits2 (Z.pos mx) + ex - ey ≤ 1075 →
  is_finite (fdiv (S754_finite sx mx ex) (S754_finite sy my ey)) = true.
Proof.
  intros Hb Hdy Hey Hmag.
  destruct (bounded_digits _ _ Hb) as (Hex & Hdx & Hemin).
  pose proof (Zdigits2_nonneg (Z.pos mx)) as Hd1.
  unfold fdiv, SFdiv, SFdiv_core_binary. rewrite Hdy.
  set (d1 := Zdigits2 (Z.pos mx)) in *.
  set (e' := Z.min (fexp prec emax (d1 + ex - (53 + ey))) (ex - ey)).
  assert (e' ≤ ex - ey ∧ e' ≤ 970) as [He1 He2]
    by (unfold e'; rewrite fexp_eq; lia).
  set (s := ex - ey - e').
  assert (0 ≤ s) as Hs by (unfold s; lia).
  set (m' := match s with
             | 0 => Z.pos mx
             | Z.pos _ => Z.shiftl (Z.pos mx) s
             | Z.neg _ => 0
             end).
  assert (m' = Z.pos mx * 2 ^ s) as Hm'.
  { unfold m'. destruct s as [|n|n] eqn:Es; [lia| |lia].
    by rewrite Z.shiftl_mul_pow2. }
  destruct (Z.div_eucl m' (Z.pos my)) as [q r] eqn:E.
  assert (q = m' / Z.pos my) as Hq by (unfold Z.div; by rewrite E).
  assert (0 ≤ m') as Hm'pos by (rewrite Hm'; apply Z.mul_nonneg_nonneg; lia).
  assert (0 ≤ q) as Hqpos by (rewrite Hq; apply Z.div_pos; lia).
  apply binary_round_aux_finite; [done|lia|].
  (* the divisor is at least 2^52 *)
  assert (2 ^ 52 ≤ Z.pos my) as Hmy.
  { destruct (Z.le_gt_cases (2 ^ 52) (Z.pos my)) as [|Hlt]; [done|].
    pose proof (Zdigits2_le (Z.pos my) 52 ltac:(lia) ltac:(lia)). lia. }
  assert (q ≤ m' / 2 ^ 52) as Hq52
    by (rewrite Hq; apply Z.div_le_compat_l; lia).
  assert (m' < 2 ^ (d1 + s)) as Hm'lt.
  { rewrite Hm', Z.pow_add_r by lia.
    pose proof (Zdigits2_upper (Z.pos mx) ltac:(lia)) as Hu. fold d1 in Hu.
    apply Z.mul_lt_mono_pos_r; [lia|done]. }
  pose proof (Zdigits2_mono q (m' / 2 ^ 52)
                ltac:(split; [done|exact Hq52])) as H1.
  pose proof (Zdigits2_div_pow2 m' 52 Hm'pos ltac:(lia)) as H2.
  pose proof (Zdigits2_le m' (d1 + s) ltac:(lia) ltac:(lia)) as H3.
  unfold s in *. lia.
Qed.

(** Division by 1.0 returns a normal number unchanged. *)
Lemma fdiv_one_normal s m e :
  digits2_pos m = 53%positive → -1073 ≤ e ≤ 971 →
  fdiv (S754_finite s m e) (of_int 1) = S754_finite s m e.
Proof.
  intros Hd He.
  change (of_int 1) with (S754_finite false 4503599627370496 (-52)).
  unfold fdiv, SFdiv, SFdiv_core_binary.
  change (Zdigits2 (Z.pos m)) with (Z.pos (digits2_pos m)). rewrite Hd.
  change (Zdigits2 4503599627370496) with 53.
  replace (Z.min (fexp prec emax (53 + e - (53 + -52))) (e - -52))
    with (e - 1) by (rewrite fexp_eq; lia).
  replace (e - -52 - (e - 1)) with 53 by lia.
  rewrite Z.shiftl_mul_pow2 by lia.
  destruct (Z.div_eucl _ _) as [q r] eqn:E.
  assert (q = Z.pos m~0 ∧ r = 0) as [-> ->].
  { pose proof (Z.div_eucl_eq (Z.pos m * 2 ^ 53) 4503599627370496
                  ltac:(lia)) as Heq.
    pose proof (Z.mod_pos_bound (Z.pos m * 2 ^ 53) 4503599627370496
                  ltac:(lia)) as Hmod.
    unfold Z.modulo in Hmod. rewrite E in Heq, Hmod.
    change (2 ^ 53) with (2 * 4503599627370496) in Heq.
    assert (r = 4503599627370496 * (2 * Z.pos m - q)) as Hr by lia.
    assert (2 * Z.pos m - q = 0) by nia. lia. }
  change (new_location 4503599627370496 0) with loc_Exact.
  unfold binary_round_aux, shr_fexp.
  change (Zdigits2 (Z.pos m~0)) with (Z.pos (Pos.succ (digits2_pos m))).
  rewrite Hd. change (Z.pos (Pos.succ 53)) with 54.
  replace (fexp prec emax (54 + (e - 1)) - (e - 1)) with 1
    by (rewrite fexp_eq; lia).
  cbn [shr shr_record_of_loc SpecFloat.iter_pos shr_1 fst snd
       loc_of_shr_record shr_m shr_r shr_s round_nearest_even orb].
  change (Zdigits2 (Z.pos m)) with (Z.pos (digits2_pos m)). rewrite Hd.
  replace (fexp prec emax (53 + (e - 1 + 1)) - (e - 1 + 1)) with 0
    by (rewrite fexp_eq; lia).
  cbn [shr shr_record_of_loc shr_m].
  replace (e - 1 + 1) with e by lia.
  assert ((e <=? emax - prec) = true) as ->
    by (apply Z.leb_le; unfold emax, prec; lia).
  by destruct s.
Qed.

(* ===================================================================== *)
(** * The band decoder *)
(* ===================================================================== *)

Lemma unusable_no_digit c : unusable c → get_digit c = None.
Proof.
  unfold get_digit.
  intros [-> | [-> | ->]]; [by vm_compute | by vm_compute | done].
Qed.

Lemma missing_no_multiplier c :
  COLOR_CODE !! c = None → get_multiplier c = None.
Proof. unfold get_multiplier. by intros ->. Qed.

Lemma get_digit_entry c e : COLOR_CODE !! c = Some e → get_digit c = digit e.
Proof. unfold get_digit. by intros ->. Qed.

Lemma get_multiplier_entry c e :
  COLOR_CODE !! c = Some e → get_multiplier c = Some (multiplier e).
Proof. unfold get_multiplier. by intros ->. Qed.

Lemma value2_none d1 d2 m :
  d1 = None ∨ d2 = None ∨ m = None → value2 d1 d2 m = None.
Proof.
  intros [-> | [-> | ->]]; [done | by destruct d1 | by destruct d1, d2].
Qed.

Lemma value3_none d1 d2 d3 m :
  d1 = None ∨ d2 = None ∨ d3 = None ∨ m = None → value3 d1 d2 d3 m = None.
Proof.
  intros [-> | [-> | [-> | ->]]];
    [done | by destruct d1 | by destruct d1, d2 | by destruct d1, d2, d3].
Qed.

(** The four shapes the decoder distinguishes, as equations. *)
Lemma decode_3 c0 c1 c2 :
  compute_value_from_colors [c0; c1; c2]
  = (value2 (get_digit c0) (get_digit c1) (get_multiplier c2), None).
Proof. reflexivity. Qed.

Lemma decode_4 c0 c1 c2 c3 :
  compute_value_from_colors [c0; c1; c2; c3]
  = (value2 (get_digit c0) (get_digit c1) (get_multiplier c2),
     get_tolerance c3).
Proof. reflexivity. Qed.

Lemma decode_5 c0 c1 c2 c3 c4 :
  compute_value_from_colors [c0; c1; c2; c3; c4]
  = (value3 (get_digit c0) (get_digit c1) (get_digit c2) (get_multiplier c3),
     get_tolerance c4).
Proof. reflexivity. Qed.

Lemma decode_6 c0 c1 c2 c3 c4 c5 rest :
  compute_value_from_colors (c0 :: c1 :: c2 :: c3 :: c4 :: c5 :: rest)
  = (value3 (get_digit c0) (get_digit c1) (get_digit c2) (get_multiplier c3),
     get_tolerance c4).
Proof. reflexivity. Qed.

Lemma decode_short colors :
  (length colors < 3)%nat → compute_value_from_colors colors = (None, None).
Proof.
  destruct colors as [|c0 [|c1 [|c2 rest]]]; simpl; intros; (done || lia).
Qed.

(** C1.  A 4-band sequence whose first two colours have a digit and whose
    third colour is a key of the table decodes to the value
    [(10*d1 + d2) * multiplier] and to the tolerance entry of the fourth
    colour, absent when the table has none; a 5-band sequence whose first
    three colours have a digit and whose fourth is a key decodes to the
    value [(100*d1 + 10*d2 + d3) * multiplier]. *)
Theorem decode_value_formula :
  (∀ c1 c2 c3 c4 e1 e2 e3 d1 d2,
      COLOR_CODE !! c1 = Some e1 → digit e1 = Some d1 →
      COLOR_CODE !! c2 = Some e2 → digit e2 = Some d2 →
      COLOR_CODE !! c3 = Some e3 →
      compute_value_from_colors [c1; c2; c3; c4]
      = (Some (fmul (of_int (10 * d1 + d2)) (multiplier e3)),
         COLOR_CODE !! c4 ≫= tolerance))
  ∧
  (∀ c1 c2 c3 c4 c5 e1 e2 e3 e4 d1 d2 d3,
      COLOR_CODE !! c1 = Some e1 → digit e1 = Some d1 →
      COLOR_CODE !! c2 = Some e2 → digit e2 = Some d2 →
      COLOR_CODE !! c3 = Some e3 → digit e3 = Some d3 →
      COLOR_CODE !! c4 = Some e4 →
      (compute_value_from_colors [c1; c2; c3; c4; c5]).1
      = Some (fmul (of_int (100 * d1 + 10 * d2 + d3)) (multiplier e4))).
Proof.
  split.
  - intros c1 c2 c3 c4 e1 e2 e3 d1 d2 H1 D1 H2 D2 H3.
    rewrite decode_4, (get_digit_entry _ _ H1), (get_digit_entry _ _ H2),
      (get_multiplier_entry _ _ H3), D1, D2. simpl.
    by rewrite (Z.mul_comm d1).
  - intros c1 c2 c3 c4 c5 e1 e2 e3 e4 d1 d2 d3 H1 D1 H2 D2 H3 D3 H4.
    rewrite decode_5, (get_digit_entry _ _ H1), (get_digit_entry _ _ H2),
      (get_digit_entry _ _ H3), (get_multiplier_entry _ _ H4), D1, D2, D3.
    simpl. by rewrite (Z.mul_comm d1), (Z.mul_comm d2).
Qed.

(** Yellow, violet, red, gold is 47 * 100 ohms at 5 percent; brown, black,
    black, red, brown is 100 * 100 ohms. *)
Lemma decode_value_formula_witness :
  compute_value_from_colors ["yellow"; "violet"; "red"; "gold"]
  = (Some (of_int 4700), Some (of_int 5))
  ∧ (compute_value_from_colors ["brown"; "black"; "black"; "red"; "brown"]).1
    = Some (of_int 10000).
Proof.
  split.
  - rewrite (proj1 decode_value_formula "yellow" "violet" "red" "gold"
               (mkEntry (Some 4) (of_int 10000) None)
               (mkEntry (Some 7) (of_int 10000000) (Some (lit 1 10)))
               (mkEntry (Some 2) (of_int 100) (Some (of_int 2))) 4 7);
      by vm_compute.
  - rewrite (proj2 decode_value_formula "brown" "black" "black" "red" "brown"
               (mkEntry (Some 1) (of_int 10) (Some (of_int 1)))
               (mkEntry (Some 0) (of_int 1) None)
               (mkEntry (Some 0) (of_int 1) None)
               (mkEntry (Some 2) (of_int 100) (Some (of_int 2))) 1 0 0);
      by vm_compute.
Defined.

(** With a digit in [0, 999] and a multiplier [10^k], [k <= 9], the
    binary64 product is the integer product itself: no rounding occurs. *)
Lemma integer_product_exact n k :
  0 ≤ n ≤ 999 → 0 ≤ k ≤ 9 →
  fmul (of_int n) (of_int (10 ^ k)) = of_int (n * 10 ^ k)
  ∧ n * 10 ^ k < 2 ^ 53.
Proof.
  intros Hn Hk.
  assert (Hall : forallb (fun n => forallb (fun k =>
            float_same (fmul (of_int n) (of_int (10 ^ k))) (of_int (n * 10 ^ k))
            && (n * 10 ^ k <? 2 ^ 53))
            (Z.of_nat <$> seq 0 10)) (Z.of_nat <$> seq 0 1000) = true)
    by (vm_compute; reflexivity).
  rewrite forallb_forall in Hall.
  specialize (Hall n). rewrite forallb_forall in Hall.
  assert (In n (Z.of_nat <$> seq 0 1000)) as Hin.
  { apply in_map_iff. exists (Z.to_nat n). split; [lia|]. apply in_seq. lia. }
  assert (In k (Z.of_nat <$> seq 0 10)) as Hik.
  { apply in_map_iff. exists (Z.to_nat k). split; [lia|]. apply in_seq. lia. }
  specialize (Hall Hin k Hik).
  apply andb_prop in Hall as [H1 H2].
  apply float_same_eq in H1. apply Z.ltb_lt in H2. done.
Qed.

(** C2, as stated, fails: gold in the multiplier position of a 4-band
    sequence is a key of the table with multiplier 0.1, and the value is
    present: yellow, violet, gold, gold is 47 * 0.1 = 4.7 ohms at 5
    percent. *)
Lemma gold_multiplier_decodes :
  unusable "gold"
  ∧ compute_value_from_colors ["yellow"; "violet"; "gold"; "gold"]
    = (Some (lit 47 10), Some (of_int 5))
  ∧ ¬ (∀ c0 c1 c2 c3,
         unusable c0 ∨ unusable c1 ∨ unusable c2 →
         (compute_value_from_colors [c0; c1; c2; c3]).1 = None).
Proof.
  assert (compute_value_from_colors ["yellow"; "violet"; "gold"; "gold"]
          = (Some (lit 47 10), Some (of_int 5))) as E by (by vm_compute).
  split; [by left|]. split; [exact E|].
  intros H. specialize (H "yellow" "violet" "gold" "gold").
  rewrite E in H. unfold unusable in H.
  by specialize (H ltac:(auto)).
Qed.

(** C2, amended.  The value is absent whenever a colour in a digit position
    is gold, silver or not a key of the table, or the colour in the
    multiplier position is not a key of the table; this holds for the
    lengths 3, 4, 5 and 6 or more, and shorter sequences have no value at
    all. *)
Theorem decode_absent_value :
  (∀ c0 c1 c2,
      unusable c0 ∨ unusable c1 ∨ COLOR_CODE !! c2 = None →
      (compute_value_from_colors [c0; c1; c2]).1 = None)
  ∧ (∀ c0 c1 c2 c3,
      unusable c0 ∨ unusable c1 ∨ COLOR_CODE !! c2 = None →
      (compute_value_from_colors [c0; c1; c2; c3]).1 = None)
  ∧ (∀ c0 c1 c2 c3 c4,
      unusable c0 ∨ unusable c1 ∨ unusable c2 ∨ COLOR_CODE !! c3 = None →
      (compute_value_from_colors [c0; c1; c2; c3; c4]).1 = None)
  ∧ (∀ c0 c1 c2 c3 c4 c5 rest,
      unusable c0 ∨ unusable c1 ∨ unusable c2 ∨ COLOR_CODE !! c3 = None →
      (compute_value_from_colors (c0 :: c1 :: c2 :: c3 :: c4 :: c5 :: rest)).1
      = None)
  ∧ (∀ colors,
      (length colors < 3)%nat → (compute_value_from_colors colors).1 = None).
Proof.
  repeat split.
  - intros c0 c1 c2 H. rewrite decode_3. simpl. apply value2_none.
    destruct H as [H | [H | H]];
      eauto using unusable_no_digit, missing_no_multiplier.
  - intros c0 c1 c2 c3 H. rewrite decode_4. simpl. apply value2_none.
    destruct H as [H | [H | H]];
      eauto using unusable_no_digit, missing_no_multiplier.
  - intros c0 c1 c2 c3 c4 H. rewrite decode_5. simpl. apply value3_none.
    destruct H as [H | [H | [H | H]]];
      eauto 6 using unusable_no_digit, missing_no_multiplier.
  - intros c0 c1 c2 c3 c4 c5 rest H. rewrite decode_6. simpl.
    apply value3_none.
    destruct H as [H | [H | [H | H]]];
      eauto 6 using unusable_no_digit, missing_no_multiplier.
  - intros colors H. by rewrite decode_short.
Qed.

(** Silver as second digit, an unknown word as multiplier, gold as third
    digit of five, a short list. *)
Lemma decode_absent_value_witness :
  (compute_value_from_colors ["red"; "silver"; "red"]).1 = None
  ∧ (compute_value_from_colors ["red"; "red"; "pink"; "gold"]).1 = None
  ∧ (compute_value_from_colors ["red"; "red"; "gold"; "red"; "brown"]).1
    = None
  ∧ (compute_value_from_colors
       ["teal"; "red"; "red"; "red"; "brown"; "red"; "red"]).1 = None
  ∧ (compute_value_from_colors ["red"; "red"]).1 = None.
Proof.
  destruct decode_absent_value as (H3 & H4 & H5 & H6 & Hs).
  split; [|split; [|split; [|split]]].
  - apply H3. right. left. right. by left.
  - apply H4. right. right. by vm_compute.
  - apply H5. right. right. left. by left.
  - apply H6. left. right. right. by vm_compute.
  - apply Hs. simpl. lia.
Defined.

(** C3.  For the lengths 4, 5 and 6 or more: as soon as one digit lookup or
    the multiplier lookup fails the value is absent, and the tolerance is
    the table's entry for the colour in the tolerance position (index 3 of
    four bands, index 4 otherwise) whether or not a value was found. *)
Theorem decode_failed_lookup :
  (∀ c0 c1 c2 c3,
      get_digit c0 = None ∨ get_digit c1 = None ∨ get_multiplier c2 = None →
      compute_value_from_colors [c0; c1; c2; c3]
      = (None, COLOR_CODE !! c3 ≫= tolerance))
  ∧ (∀ c0 c1 c2 c3 c4,
      get_digit c0 = None ∨ get_digit c1 = None ∨ get_digit c2 = None
      ∨ get_multiplier c3 = None →
      compute_value_from_colors [c0; c1; c2; c3; c4]
      = (None, COLOR_CODE !! c4 ≫= tolerance))
  ∧ (∀ c0 c1 c2 c3 c4 c5 rest,
      get_digit c0 = None ∨ get_digit c1 = None ∨ get_digit c2 = None
      ∨ get_multiplier c3 = None →
      compute_value_from_colors (c0 :: c1 :: c2 :: c3 :: c4 :: c5 :: rest)
      = (None, COLOR_CODE !! c4 ≫= tolerance))
  ∧ (∀ c0 c1 c2 c3,
      (compute_value_from_colors [c0; c1; c2; c3]).2
      = COLOR_CODE !! c3 ≫= tolerance)
  ∧ (∀ c0 c1 c2 c3 c4 rest,
      (compute_value_from_colors (c0 :: c1 :: c2 :: c3 :: c4 :: rest)).2
      = COLOR_CODE !! c4 ≫= tolerance).
Proof.
  repeat split.
  - intros c0 c1 c2 c3 H. by rewrite decode_4, value2_none.
  - intros c0 c1 c2 c3 c4 H. by rewrite decode_5, value3_none.
  - intros c0 c1 c2 c3 c4 c5 rest H. by rewrite decode_6, value3_none.
  - by destruct rest.
Qed.

(** A gold first band leaves no value and the gold tolerance of 5 percent
    stays. *)
Lemma decode_failed_lookup_witness :
  compute_value_from_colors ["gold"; "red"; "red"; "gold"]
  = (None, Some (of_int 5))
  ∧ compute_value_from_colors ["red"; "red"; "red"; "mauve"; "brown"]
    = (None, Some (of_int 1))
  ∧ compute_value_from_colors
      ["red"; "silver"; "red"; "red"; "black"; "red"]
    = (None, None).
Proof.
  destruct decode_failed_lookup as (H4 & H5 & H6 & _).
  split; [|split].
  - rewrite H4; [by vm_compute | left; by vm_compute].
  - rewrite H5; [by vm_compute | right; right; right; by vm_compute].
  - rewrite H6; [by vm_compute | right; left; by vm_compute].
Defined.

(** C4.  A sequence of six or more bands decodes as its first five bands
    do; so a 6-band sequence decodes as the 5-band sequence left when its
    last element is dropped. *)
Theorem decode_six_as_five :
  (∀ colors,
      (6 ≤ length colors)%nat →
      compute_value_from_colors colors
      = compute_value_from_colors (take 5 colors))
  ∧ (∀ five final,
      length five = 5%nat →
      compute_value_from_colors (five ++ [final])
      = compute_value_from_colors five).
Proof.
  split.
  - intros colors H.
    destruct colors as [|c0 [|c1 [|c2 [|c3 [|c4 [|c5 rest]]]]]];
      simpl in H; try lia.
    reflexivity.
  - intros five final H.
    destruct five as [|c0 [|c1 [|c2 [|c3 [|c4 [|c5 rest]]]]]];
      simpl in H; try lia.
    reflexivity.
Qed.

Lemma decode_six_as_five_witness :
  compute_value_from_colors
    ["brown"; "black"; "black"; "red"; "brown"; "red"]
  = compute_value_from_colors ["brown"; "black"; "black"; "red"; "brown"]
  ∧ compute_value_from_colors
      (["yellow"; "violet"; "black"; "orange"; "gold"] ++ ["blue"])
    = compute_value_from_colors
        ["yellow"; "violet"; "black"; "orange"; "gold"].
Proof.
  split.
  - apply (proj1 decode_six_as_five
             ["brown"; "black"; "black"; "red"; "brown"; "red"]).
    simpl. lia.
  - apply (proj2 decode_six_as_five). reflexivity.
Defined.

(* ===================================================================== *)
(** * The orientation step *)
(* ===================================================================== *)

Lemma in_tol_colors_spec c :
  in_tol_colors c = true ↔
  c ∈ ["gold"; "silver"; "brown"; "red"; "green"; "blue"; "violet"; "grey"].
Proof.
  unfold in_tol_colors, TOL_COLORS.
  rewrite bool_decide_eq_true. set_unfold. tauto.
Qed.

Lemma in_tol_colors_true c : in_tol_colors c = true ↔ c ∈ TOL_COLORS.
Proof. apply bool_decide_eq_true. Qed.

Lemma in_tol_colors_false c : in_tol_colors c = false ↔ c ∉ TOL_COLORS.
Proof. apply bool_decide_eq_false. Qed.

Lemma orient_cases colors first final :
  head colors = Some first → last colors = Some final →
  orient colors
  = if in_tol_colors first && negb (in_tol_colors final)
    then reverse colors else colors.
Proof. unfold orient. by intros -> ->. Qed.

Lemma last_of_cons (c : string) colors : is_Some (last (c :: colors)).
Proof.
  revert c. induction colors as [|d colors IH]; intros c; [by eexists|].
  apply (IH d).
Qed.

(** C7, as stated, fails on its own example: brown, the last band, is a
    tolerance colour as well, so the sequence is kept. *)
Lemma gold_first_brown_last_kept :
  orient ["gold"; "red"; "violet"; "brown"]
  = ["gold"; "red"; "violet"; "brown"]
  ∧ orient ["gold"; "red"; "violet"; "brown"]
    ≠ reverse ["gold"; "red"; "violet"; "brown"].
Proof. split; by vm_compute. Qed.

(** C7, amended.  The sequence is reversed before decoding whenever its
    first band is one of gold, silver, brown, red, green, blue, violet and
    grey and its last band is none of them; gold, red, violet, yellow is
    reversed, while gold, red, violet, brown is decoded as it stands. *)
Theorem orient_reverses :
  (∀ colors first final,
      head colors = Some first → last colors = Some final →
      first ∈ TOL_COLORS → final ∉ TOL_COLORS →
      orient colors = reverse colors
      ∧ decode_oriented colors = compute_value_from_colors (reverse colors))
  ∧ (∀ c, c ∈ TOL_COLORS ↔
          c ∈ ["gold"; "silver"; "brown"; "red"; "green"; "blue"; "violet";
               "grey"])
  ∧ orient ["gold"; "red"; "violet"; "yellow"]
    = ["yellow"; "violet"; "red"; "gold"]
  ∧ orient ["gold"; "red"; "violet"; "brown"]
    = ["gold"; "red"; "violet"; "brown"].
Proof.
  split; [|split; [|split]].
  - intros colors first final Hh Hl Hf Hn.
    assert (orient colors = reverse colors) as E.
    { rewrite (orient_cases _ _ _ Hh Hl).
      apply in_tol_colors_true in Hf. apply in_tol_colors_false in Hn.
      by rewrite Hf, Hn. }
    split; [done|]. unfold decode_oriented. by rewrite E.
  - intros c. rewrite <- in_tol_colors_true. apply in_tol_colors_spec.
  - by vm_compute.
  - by vm_compute.
Qed.

Lemma orient_reverses_witness :
  orient ["silver"; "orange"; "black"; "white"]
  = reverse ["silver"; "orange"; "black"; "white"]
  ∧ decode_oriented ["silver"; "orange"; "black"; "white"]
    = compute_value_from_colors
        (reverse ["silver"; "orange"; "black"; "white"]).
Proof.
  apply (proj1 orient_reverses _ "silver" "white"); by vm_compute.
Defined.

(** C10.  The step leaves the sequence as it is unless the first colour is
    a tolerance colour and the last is not: a non-empty sequence whose
    first and last colours are both tolerance colours reaches the decoder
    unchanged, and so does a sequence whose first colour is not one. *)
Theorem orient_keeps :
  (∀ colors,
      ¬ (∃ first final, head colors = Some first ∧ last colors = Some final
                        ∧ first ∈ TOL_COLORS ∧ final ∉ TOL_COLORS) →
      orient colors = colors)
  ∧ (∀ colors first final,
      head colors = Some first → last colors = Some final →
      first ∈ TOL_COLORS → final ∈ TOL_COLORS →
      orient colors = colors
      ∧ decode_oriented colors = compute_value_from_colors colors)
  ∧ (∀ colors first,
      head colors = Some first → first ∉ TOL_COLORS →
      orient colors = colors
      ∧ decode_oriented colors = compute_value_from_colors colors).
Proof.
  assert (∀ colors, orient colors = colors →
            decode_oriented colors = compute_value_from_colors colors) as Hd.
  { intros colors E. unfold decode_oriented. by rewrite E. }
  split; [|split].
  - intros colors Hno. unfold orient.
    destruct (head colors) as [first|] eqn:Hh; [|done].
    destruct (last colors) as [final|] eqn:Hl; [|done].
    destruct (in_tol_colors first) eqn:Hf; [|done].
    destruct (in_tol_colors final) eqn:Hn; [done|].
    exfalso. apply Hno. exists first, final.
    by rewrite <- in_tol_colors_true, <- in_tol_colors_false.
  - intros colors first final Hh Hl Hf Hn.
    assert (orient colors = colors) as E; [|by auto].
    rewrite (orient_cases _ _ _ Hh Hl).
    apply in_tol_colors_true in Hn. rewrite Hn.
    by rewrite andb_false_r.
  - intros colors first Hh Hf.
    assert (orient colors = colors) as E; [|by auto].
    destruct colors as [|c colors]; [done|].
    destruct (last_of_cons c colors) as [final Hl].
    rewrite (orient_cases _ _ _ Hh Hl).
    apply in_tol_colors_false in Hf. by rewrite Hf.
Qed.

Lemma orient_keeps_witness :
  orient ["yellow"; "violet"; "red"] = ["yellow"; "violet"; "red"]
  ∧ (orient ["gold"; "red"; "violet"; "brown"]
     = ["gold"; "red"; "violet"; "brown"]
     ∧ decode_oriented ["gold"; "red"; "violet"; "brown"]
       = compute_value_from_colors ["gold"; "red"; "violet"; "brown"])
  ∧ (orient ["yellow"; "violet"; "red"; "gold"]
     = ["yellow"; "violet"; "red"; "gold"]
     ∧ decode_oriented ["yellow"; "violet"; "red"; "gold"]
       = compute_value_from_colors ["yellow"; "violet"; "red"; "gold"]).
Proof.
  destruct orient_keeps as (H1 & H2 & H3).
  split; [|split].
  - apply H1. intros (first & final & Hh & Hl & Hf & Hn).
    simpl in Hh. injection Hh as <-. revert Hf. by vm_compute.
  - apply (H2 _ "gold" "brown"); by vm_compute.
  - apply (H3 _ "yellow"); by vm_compute.
Defined.

(* ===================================================================== *)
(** * The alias normaliser *)
(* ===================================================================== *)

Lemma is_space_lower_char a : is_space (lower_char a) = is_space a.
Proof. by destruct a as [[] [] [] [] [] [] [] []]. Qed.

Lemma lstrip_lower s : lstrip (lower s) = lower (lstrip s).
Proof.
  induction s as [|a s IH]; simpl; [done|].
  rewrite is_space_lower_char. by destruct (is_space a).
Qed.

Lemma rstrip_lower s : rstrip (lower s) = lower (rstrip s).
Proof.
  induction s as [|a s IH]; simpl; [done|].
  rewrite IH, is_space_lower_char.
  destruct (rstrip s) as [|b t]; simpl; [by destruct (is_space a)|done].
Qed.

Lemma strip_lower s : strip (lower s) = lower (strip s).
Proof. unfold strip. by rewrite lstrip_lower, rstrip_lower. Qed.







Lemma is_space_whitespace a : is_space a = bool_decide (a ∈ WHITESPACE).
Proof. destruct a as [[] [] [] [] [] [] [] []]; vm_compute; reflexivity. Qed.



Lemma blank_whitespace s : blank s = true ↔ whitespace_only s.
Proof.
  unfold whitespace_only. induction s as [|a s IH]; simpl.
  - split; [constructor|done].
  - rewrite andb_true_iff, Forall_cons, IH, is_space_whitespace.
    by rewrite bool_decide_eq_true.
Qed.

(** What [lstrip] takes away is whitespace, and what it leaves does not
    begin with whitespace. *)
Lemma lstrip_split s :
  ∃ l, s = l ++ lstrip s ∧ blank l = true
       ∧ ∀ a t, lstrip s = String a t → is_space a = false.
Proof.
  induction s as [|a s (l & Hs & Hl & Hhead)]; simpl.
  - exists "". split; [done|]. split; [done|]. intros a t [=].
  - destruct (is_space a) eqn:Ea.
    + exists (String a l).
      change (String a l ++ lstrip s) with (String a (l ++ lstrip s)).
      rewrite <- Hs. simpl. rewrite Ea. done.
    + exists "". split; [done|]. split; [done|]. by intros b t [= <- <-].
Qed.

(** The same for [rstrip] at the other end; the beginning stays. *)
Lemma rstrip_split s :
  ∃ r, s = rstrip s ++ r ∧ blank r = true
       ∧ (∀ t a, rstrip s = t ++ String a "" → is_space a = false)
       ∧ (∀ a t, rstrip s = String a t → ∃ t', s = String a t').
Proof.
  induction s as [|a s (r & Hs & Hr & Hlast & Hhead)].
  - exists "". split; [done|]. split; [done|].
    split; [|by intros a t [=]].
    intros [|b t] a; simpl; intros [=].
  - cbn [rstrip]. destruct (rstrip s) as [|b u] eqn:E.
    + destruct (is_space a) eqn:Ea.
      * exists (String a r). split; [by rewrite Hs at 1|].
        split; [simpl; by rewrite Ea|].
        split; [|by intros c t [=]].
        intros [|c t] d; simpl; intros [=].
      * exists r. split; [by rewrite Hs at 1|]. split; [done|].
        split; [|intros c t [= <- <-]; eauto].
        intros [|c t] d.
        -- by intros [= <-].
        -- change (String c t ++ String d "")
             with (String c (t ++ String d "")).
           intros [= _ H]. by destruct t.
    + exists r. split.
      { rewrite Hs at 1. done. }
      split; [done|]. split; [|intros c t [= <- <-]; eauto].
      intros [|c t] d.
      * intros [=].
      * change (String c t ++ String d "")
          with (String c (t ++ String d "")).
        intros [= _ H]. by apply (Hlast t d).
Qed.

(** The stripped string with what was taken away on both sides. *)
Lemma strip_split s :
  ∃ l r, s = l ++ strip s ++ r ∧ whitespace_only l ∧ whitespace_only r
         ∧ not_padded (strip s).
Proof.
  destruct (lstrip_split s) as (l & Hs & Hl & Hhead).
  destruct (rstrip_split (lstrip s)) as (r & Ht & Hr & Hlast & Hkeep).
  exists l, r. unfold strip.
  split; [by rewrite <- Ht|].
  split; [by apply blank_whitespace|].
  split; [by apply blank_whitespace|]. split.
  - intros a t E. destruct (Hkeep a t E) as [t' E'].
    specialize (Hhead a t' E'). rewrite is_space_whitespace in Hhead.
    by apply bool_decide_eq_false in Hhead.
  - intros t a E. specialize (Hlast t a E).
    rewrite is_space_whitespace in Hlast.
    by apply bool_decide_eq_false in Hlast.
Qed.

Lemma ALIASES_entries k a :
  ALIASES !! k = Some a ↔
  (k, a) ∈ [ ("gray", "grey"); ("purple", "violet"); ("golden", "gold");
             ("silver color", "silver"); ("orange-brown", "orange");
             ("reddish", "red"); ("brownish", "brown") ].
Proof.
  unfold ALIASES. symmetry. apply elem_of_list_to_map.
  apply (bool_decide_unpack (NoDup _)). by vm_compute.
Qed.



(* ===================================================================== *)
(** * The display formatter *)
(* ===================================================================== *)

(** Case analysis on a membership [Hin : (name, scale) ∈ [...]] in an
    explicit list of pairs: one goal per element. *)
Ltac pair_cases Hin :=
  repeat (apply elem_of_cons in Hin as [Hin | Hin]);
  [..|by apply elem_of_nil in Hin]; injection Hin as -> ->.

Lemma string_of_uint_digits d :
  all_digits (NilEmpty.string_of_uint d) = true.
Proof. induction d; simpl; done. Qed.

Lemma decimal_digits z : all_digits (decimal z) = true ∧ decimal z ≠ "".
Proof.
  unfold decimal, NilZero.string_of_uint.
  destruct (N.to_uint (Z.to_N z)) eqn:E; try done;
    rewrite <- E; (split; [apply string_of_uint_digits|]); by rewrite E.
Qed.

Lemma two_digits_shape z :
  0 ≤ z < 100 → two_digit_string (two_digits z) = true.
Proof.
  intros Hz.
  assert (forallb (fun z => two_digit_string (two_digits z))
            (Z.of_nat <$> seq 0 100) = true) as Hall by (by vm_compute).
  rewrite forallb_forall in Hall. apply Hall.
  apply in_map_iff. exists (Z.to_nat z). split; [lia|]. apply in_seq. lia.
Qed.

(** A finite value is printed as an optional minus sign, at least one
    digit, the point and exactly two digits. *)
Lemma format_2f_shape x :
  is_finite x = true →
  ∃ s ip d1 d2,
    format_2f x = sign_str s ++ ip ++ "." ++ String d1 (String d2 "")
    ∧ ip ≠ "" ∧ all_digits ip = true
    ∧ is_digit d1 = true ∧ is_digit d2 = true.
Proof.
  destruct x as [s|s| |s m e]; try done; intros _.
  - exists s, "0", "0"%char, "0"%char. by destruct s.
  - unfold format_2f.
    pose proof (two_digits_shape (hundredths m e `mod` 100)
                  ltac:(apply Z.mod_pos_bound; lia)) as H2.
    destruct (two_digits _) as [|d1 [|d2 [|]]]; try done.
    apply andb_prop in H2 as [H1 H2].
    destruct (decimal_digits (hundredths m e / 100)) as [Hd Hne].
    by exists s, (decimal (hundredths m e / 100)), d1, d2.
Qed.

Lemma human_units_cons v name scale rest :
  human_units v ((name, scale) :: rest)
  = if fge v scale then format_2f (fdiv v scale) ++ " " ++ name
    else human_units v rest.
Proof. reflexivity. Qed.

Lemma human_units_nil v : human_units v [] = format_2f v ++ " Ω".
Proof. reflexivity. Qed.


(** The thresholds of [human] are normal numbers, and all but 1 are at
    least 2^9. *)
Lemma unit_scale_shape name scale :
  (name, scale) ∈ UNITS →
  ∃ my ey, scale = S754_finite false my ey
           ∧ Zdigits2 (Z.pos my) = 53
           ∧ (-43 ≤ ey ∨ (ey = -52 ∧ scale = of_int 1)).
Proof.
  unfold UNITS. intros Hin.
  pair_cases Hin;
    eexists _, _; (split; [by vm_compute|]); (split; [done|]);
    ((left; lia) || (right; by split)).
Qed.

(** Every binary64 divided by one of the thresholds is finite. *)
Lemma fdiv_unit_finite v name scale :
  valid_binary prec emax v = true → is_finite v = true →
  (name, scale) ∈ UNITS →
  is_finite (fdiv v scale) = true.
Proof.
  intros Hvalid Hfin Hin.
  destruct (unit_scale_shape _ _ Hin) as (my & ey & -> & Hdy & Hey).
  destruct v as [sx|sx| |sx mx ex]; try done.
  simpl in Hvalid.
  destruct (bounded_digits _ _ Hvalid) as (Hex & Hdx & Hemin).
  destruct (Z.le_gt_cases (Zdigits2 (Z.pos mx) + ex - ey) 1075) as [Hle|Hgt].
  - apply fdiv_finite; [done|done|lia|done].
  - destruct Hey as [Hey | [-> Hone]]; [lia|]. rewrite Hone.
    assert (ex = 971 ∧ digits2_pos mx = 53%positive) as [-> Hd].
    { unfold bounded, canonical_mantissa in Hvalid.
      apply andb_prop in Hvalid as [Hc _]. apply Z.eqb_eq in Hc.
      rewrite fexp_eq in Hc. simpl in Hgt, Hdx.
      split; [lia|]. apply Pos2Z.inj. lia. }
    by rewrite fdiv_one_normal.
Qed.

Lemma human_units_finite v units :
  is_finite v = true →
  (∀ name scale, (name, scale) ∈ units → is_finite (fdiv v scale) = true) →
  ∃ q unit, human_units v units = format_2f q ++ " " ++ unit
            ∧ is_finite q = true
            ∧ (unit = "Ω" ∨ unit ∈ units.*1).
Proof.
  intros Hv. induction units as [|[name scale] rest IH]; intros Hall.
  - exists v, "Ω". by repeat split; [|left].
  - rewrite human_units_cons. destruct (fge v scale).
    + exists (fdiv v scale), name. repeat split.
      * apply (Hall name). by left.
      * right. by left.
    + destruct IH as (q & unit & -> & Hq & Hu).
      { intros n s Hin. apply (Hall n). by right. }
      exists q, unit. repeat split; [done|].
      destruct Hu as [-> | Hu]; [by left|right; by right].
Qed.
(** C8.  [human] maps [None] to [None].  A value is shown with the unit of
    the largest threshold among 1e9 (giga), 1e6 (mega), 1e3 (kilo) and 1
    that it reaches ([v >= threshold]), divided by that threshold and
    printed with two decimals before the unit symbol; a value below 1 is
    shown in plain ohms, again with two decimals.  The number printed for
    a finite value is finite, and every finite number is printed with
    exactly two digits after the point.  4700 gives "4.70 kΩ" and 0.5
    gives "0.50 Ω". *)
Theorem human_spec :
  human None = None
  ∧ UNITS = [ ("GΩ", of_int (10 ^ 9)); ("MΩ", of_int (10 ^ 6));
              ("kΩ", of_int (10 ^ 3)); ("Ω", of_int 1) ]
  ∧ (∀ v name scale,
      (name, scale) ∈ UNITS → fge v scale = true →
      (∀ name' scale', (name', scale') ∈ UNITS →
                       flt scale scale' = true → fge v scale' = false) →
      human (Some v) = Some (format_2f (fdiv v scale) ++ " " ++ name))
  ∧ (∀ v, flt v (of_int 1) = true →
      human (Some v) = Some (format_2f v ++ " Ω"))
  ∧ (∀ v, valid_binary prec emax v = true → is_finite v = true →
      ∃ q unit, human (Some v) = Some (format_2f q ++ " " ++ unit)
                ∧ is_finite q = true
                ∧ unit ∈ ["GΩ"; "MΩ"; "kΩ"; "Ω"])
  ∧ (∀ x, is_finite x = true →
      ∃ s ip d1 d2,
        format_2f x = sign_str s ++ ip ++ "." ++ String d1 (String d2 "")
        ∧ ip ≠ "" ∧ all_digits ip = true
        ∧ is_digit d1 = true ∧ is_digit d2 = true)
  ∧ human (Some (of_int 4700)) = Some "4.70 kΩ"
  ∧ human (Some (lit 5 10)) = Some "0.50 Ω".
Proof.
  split; [done|]. split; [done|].
  split; [|split; [|split; [|split; [|split; by vm_compute]]]].
  - intros v name scale Hin Hge Hmax. unfold human. f_equal.
    assert (∀ name' scale', (name', scale') ∈ UNITS →
              flt scale scale' = true → fge v scale' = false) as Hmax'
      by exact Hmax.
    clear Hmax. unfold UNITS in *.
    set (G := of_int 1000000000) in *. set (M := of_int 1000000) in *.
    set (K := of_int 1000) in *. set (U := of_int 1) in *.
    assert (fge v G = false ∨ flt scale G = false) as HG.
    { destruct (flt scale G) eqn:E; [left|by right].
      apply (Hmax' "GΩ"); [set_unfold; tauto|done]. }
    assert (fge v M = false ∨ flt scale M = false) as HM.
    { destruct (flt scale M) eqn:E; [left|by right].
      apply (Hmax' "MΩ"); [set_unfold; tauto|done]. }
    assert (fge v K = false ∨ flt scale K = false) as HK.
    { destruct (flt scale K) eqn:E; [left|by right].
      apply (Hmax' "kΩ"); [set_unfold; tauto|done]. }
    clear Hmax'. rewrite !human_units_cons.
    pair_cases Hin.
    + by rewrite Hge.
    + destruct HG as [-> | HG]; [by rewrite Hge|by vm_compute in HG].
    + destruct HG as [-> | HG]; [|by vm_compute in HG].
      destruct HM as [-> | HM]; [by rewrite Hge|by vm_compute in HM].
    + destruct HG as [-> | HG]; [|by vm_compute in HG].
      destruct HM as [-> | HM]; [|by vm_compute in HM].
      destruct HK as [-> | HK]; [by rewrite Hge|by vm_compute in HK].
  - intros v Hv. unfold human, UNITS. f_equal.
    assert (∀ s, fle (of_int 1) s = true → fge v s = false) as Hs.
    { intros s Hs. apply flt_not_fge. eauto using flt_fle_trans. }
    rewrite !human_units_cons, !Hs by (by vm_compute).
    apply human_units_nil.
  - intros v Hvalid Hfin.
    destruct (human_units_finite v UNITS Hfin) as (q & unit & E & Hq & Hu).
    { intros name scale. by apply fdiv_unit_finite. }
    exists q, unit. unfold human. rewrite E. split; [done|]. split; [done|].
    destruct Hu as [-> | Hu]; [set_unfold; tauto|].
    apply list_elem_of_fmap in Hu as ([n s] & -> & Hin). unfold UNITS in Hin.
    pair_cases Hin;
      set_unfold; tauto.
  - apply format_2f_shape.
Qed.

Lemma human_spec_witness :
  human (Some (of_int 2200000)) = Some "2.20 MΩ"
  ∧ human (Some (lit 47 100)) = Some "0.47 Ω"
  ∧ (∃ q unit, human (Some (of_int 999)) = Some (format_2f q ++ " " ++ unit)
               ∧ is_finite q = true
               ∧ unit ∈ ["GΩ"; "MΩ"; "kΩ"; "Ω"])
  ∧ ∃ s ip d1 d2,
      format_2f (lit 47 10)
      = sign_str s ++ ip ++ "." ++ String d1 (String d2 "")
      ∧ ip ≠ "" ∧ all_digits ip = true
      ∧ is_digit d1 = true ∧ is_digit d2 = true.
Proof.
  destruct human_spec as (_ & _ & Hsel & Hlow & Hval & Hfin & _).
  split; [|split; [|split]].
  - rewrite (Hsel _ "MΩ" (of_int 1000000)).
    + by vm_compute.
    + unfold UNITS. set_unfold. tauto.
    + by vm_compute.
    + intros name' scale' Hin Hlt. unfold UNITS in Hin.
      pair_cases Hin;
        revert Hlt; by vm_compute.
  - rewrite Hlow; by vm_compute.
  - apply Hval; by vm_compute.
  - apply Hfin. by vm_compute.
Defined.
(* ===================================================================== *)
(** * [np.argmin] *)
(* ===================================================================== *)

Lemma argmin_scan_range rest : ∀ mp min_ind i,
  argmin_scan mp min_ind i rest = min_ind
  ∨ (i ≤ argmin_scan mp min_ind i rest < i + length rest)%nat.
Proof.
  induction rest as [|x rest IH]; intros mp min_ind i; simpl; [by left|].
  destruct (negb (fge x mp)).
  - destruct (is_nan x); [right; lia|].
    destruct (IH x i (S i)) as [-> | H]; right; lia.
  - destruct (IH mp min_ind (S i)) as [-> | H]; [by left|right; lia].
Qed.

Lemma np_argmin_lt xs : xs ≠ [] → (np_argmin xs < length xs)%nat.
Proof.
  destruct xs as [|x rest]; [done|]; intros _. simpl.
  destruct (is_nan x); [lia|].
  destruct (argmin_scan_range rest x O 1%nat) as [-> | H]; lia.
Qed.

Lemma argmin_scan_spec rest : ∀ mp min_ind i,
  is_nan mp = false → Forall (λ x, is_nan x = false) rest →
  (argmin_scan mp min_ind i rest = min_ind
   ∧ Forall (λ x, fle mp x = true) rest)
  ∨ (∃ k y,
       argmin_scan mp min_ind i rest = (i + k)%nat
       ∧ rest !! k = Some y ∧ flt y mp = true
       ∧ (∀ j z, rest !! j = Some z → fle y z = true)
       ∧ (∀ j z, (j < k)%nat → rest !! j = Some z → flt y z = true)).
Proof.
  induction rest as [|x rest IH]; intros mp min_ind i Hmp Hall; simpl.
  { left. by split. }
  apply Forall_cons in Hall as [Hx Hall].
  rewrite (not_fge_flt _ _ Hx Hmp), Hx.
  destruct (flt x mp) eqn:Hlt.
  - right. destruct (IH x i (S i) Hx Hall) as [[-> Hge] | (k & y & -> & Hk & Hy & Hmin & Hfirst)].
    + exists O, x. repeat split; [f_equal; lia|done|..].
      * intros [|j] z Hz; simpl in Hz.
        -- injection Hz as <-. by apply fle_refl.
        -- rewrite Forall_forall in Hge. apply Hge.
           by apply list_elem_of_lookup_2 in Hz.
      * intros j z Hj. lia.
    + exists (S k), y. repeat split; [lia|done|..].
      * eauto using flt_trans.
      * intros [|j] z Hz; simpl in Hz; [|by eauto].
        injection Hz as <-. by apply flt_fle.
      * intros [|j] z Hj Hz; simpl in Hz.
        -- by injection Hz as <-.
        -- apply (Hfirst j); [lia|done].
  - assert (fle mp x = true) as Hle.
    { rewrite <- (not_fge_flt _ _ Hx Hmp) in Hlt.
      by apply negb_false_iff in Hlt. }
    destruct (IH mp min_ind (S i) Hmp Hall) as [[-> Hge] | (k & y & -> & Hk & Hy & Hmin & Hfirst)].
    + left. split; [done|]. by constructor.
    + right. exists (S k), y. repeat split; [lia|done|done|..].
      * intros [|j] z Hz; simpl in Hz; [|by eauto].
        injection Hz as <-. apply flt_fle. eauto using flt_fle_trans.
      * intros [|j] z Hj Hz; simpl in Hz.
        -- injection Hz as <-. eauto using flt_fle_trans.
        -- apply (Hfirst j); [lia|done].
Qed.

(** On a vector without NaN, [np.argmin] returns the index of an element
    that no element undercuts and that every earlier element exceeds. *)
Lemma np_argmin_spec xs :
  xs ≠ [] → Forall (λ x, is_nan x = false) xs →
  ∃ y, xs !! np_argmin xs = Some y
       ∧ (∀ j z, xs !! j = Some z → fle y z = true)
       ∧ (∀ j z, (j < np_argmin xs)%nat → xs !! j = Some z →
                 flt y z = true).
Proof.
  destruct xs as [|x rest]; [done|]; intros _ Hall.
  apply Forall_cons in Hall as [Hx Hall]. simpl. rewrite Hx.
  destruct (argmin_scan_spec rest x O 1%nat Hx Hall)
    as [[-> Hge] | (k & y & -> & Hk & Hy & Hmin & Hfirst)].
  - exists x. split; [done|split].
    + intros [|j] z Hz; simpl in Hz.
      * injection Hz as <-. by apply fle_refl.
      * rewrite Forall_forall in Hge. apply Hge.
        by apply list_elem_of_lookup_2 in Hz.
    + intros j z Hj. lia.
  - exists y. split; [done|split].
    + intros [|j] z Hz; simpl in Hz; [|by eauto].
      injection Hz as <-. by apply flt_fle.
    + intros [|j] z Hj Hz; simpl in Hz.
      * by injection Hz as <-.
      * apply (Hfirst j); [lia|done].
Qed.

(* ===================================================================== *)
(** * The E24 snapper *)
(* ===================================================================== *)

Lemma E24_length : length E24 = 24%nat.
Proof. reflexivity. Qed.

Lemma E24_finite e : e ∈ E24 → ∃ s m ex, e = S754_finite s m ex.
Proof.
  assert (Forall (λ e, match e with S754_finite _ _ _ => True | _ => False end)
            E24) as H by (vm_compute; repeat constructor).
  rewrite Forall_forall in H. intros Hin. specialize (H e Hin).
  destruct e; try done. eauto.
Qed.

(** The table is ascending: an earlier entry is a lower value. *)
Lemma E24_ascending i j e e' :
  (i < j)%nat → E24 !! i = Some e → E24 !! j = Some e' → flt e e' = true.
Proof.
  intros Hij Hi Hj.
  assert (forallb (λ i, forallb (λ j,
            if (i <? j)%nat
            then flt (nth i E24 S754_nan) (nth j E24 S754_nan) else true)
            (seq 0 24)) (seq 0 24) = true) as Hall by (by vm_compute).
  pose proof (lookup_lt_Some _ _ _ Hi) as Li.
  pose proof (lookup_lt_Some _ _ _ Hj) as Lj.
  rewrite E24_length in Li, Lj.
  rewrite forallb_forall in Hall.
  specialize (Hall i ltac:(apply in_seq; lia)).
  rewrite forallb_forall in Hall.
  specialize (Hall j ltac:(apply in_seq; lia)).
  apply Nat.ltb_lt in Hij. rewrite Hij in Hall.
  by rewrite (nth_lookup_Some _ _ _ _ Hi), (nth_lookup_Some _ _ _ _ Hj) in Hall.
Qed.

Lemma distances_length norm : length (distances norm) = 24%nat.
Proof. unfold distances. by rewrite length_fmap. Qed.

Lemma distances_nonempty norm : distances norm ≠ [].
Proof.
  intros H. apply (f_equal length) in H. by rewrite distances_length in H.
Qed.

Lemma distances_lookup norm i e :
  E24 !! i = Some e → distances norm !! i = Some (fabs (fsub e norm)).
Proof. intros H. unfold distances. by rewrite list_lookup_fmap, H. Qed.

Lemma distances_not_nan norm :
  is_nan norm = false → Forall (λ x, is_nan x = false) (distances norm).
Proof.
  intros Hn. unfold distances. apply Forall_fmap, Forall_forall.
  intros e (s & m & ex & ->)%E24_finite. simpl.
  rewrite fabs_not_nan. by apply fsub_finite_not_nan.
Qed.

Lemma distances_nan norm :
  is_nan norm = true → np_argmin (distances norm) = O.
Proof.
  by destruct norm.
Qed.

Lemma positive_not_fle_zero v :
  flt (of_int 0) v = true → fle v (of_int 0) = false.
Proof. apply flt_not_fge. Qed.

Section SnapperFacts.

Variable np_log10 : float → float.
Variable np_power : float → float → float.

Local Abbreviation snap := (snap_e24 np_log10 np_power).
Local Abbreviation decade := (decade_of np_log10 np_power).

(** The value returned on a positive argument, with the selected index
    made explicit. *)
Lemma snap_positive v :
  flt (of_int 0) v = true →
  let norm := fmul (fdiv v (decade v)) (of_int 10) in
  let idx := np_argmin (distances norm) in
  ∃ e, E24 !! idx = Some e
       ∧ snap (Some v) = Some (fmul (fdiv e (of_int 10)) (decade v)).
Proof.
  intros Hv norm idx.
  assert (idx < length E24)%nat as Hidx.
  { rewrite E24_length, <- (distances_length norm).
    apply np_argmin_lt, distances_nonempty. }
  destruct (lookup_lt_is_Some_2 _ _ Hidx) as [e He].
  exists e. split; [done|].
  unfold snap_e24. rewrite (positive_not_fle_zero _ Hv).
  fold norm. fold idx. by rewrite (nth_lookup_Some _ _ _ _ He).
Qed.

(** C5.  [snap_e24] returns [None] on [None] and returns [v] itself when
    [v <= 0].  For [v > 0] it takes [decade = 10 ** floor(log10(v))] and
    [norm = v / decade * 10], selects an E24 entry whose distance
    [|entry - norm|] no other entry undercuts and every earlier entry
    exceeds (the table being ascending, the lower of two equally near
    values), and returns [entry / 10 * decade].  With a library where
    [floor(log10(470)) = floor(log10(460)) = 2] and [10 ** 2 = 100],
    470 snaps to 470 and 460 snaps to 470; 0 snaps to 0.  (When [norm]
    is NaN, which needs an infinite [v] or a NaN from the library, the
    scan stops at index 0.) *)
Theorem snap_e24_spec :
  snap None = None
  ∧ (∀ v, fle v (of_int 0) = true → snap (Some v) = Some v)
  ∧ (∀ v, flt (of_int 0) v = true →
      let D := np_power (of_int 10) (np_floor (np_log10 v)) in
      let norm := fmul (fdiv v D) (of_int 10) in
      ∃ idx e,
        E24 !! idx = Some e
        ∧ snap (Some v) = Some (fmul (fdiv e (of_int 10)) D)
        ∧ (is_nan norm = false →
             (∀ j e', E24 !! j = Some e' →
                fle (fabs (fsub e norm)) (fabs (fsub e' norm)) = true)
             ∧ (∀ j e', (j < idx)%nat → E24 !! j = Some e' →
                  flt (fabs (fsub e norm)) (fabs (fsub e' norm)) = true))
        ∧ (is_nan norm = true → idx = O))
  ∧ (∀ i j e e', (i < j)%nat → E24 !! i = Some e → E24 !! j = Some e' →
      flt e e' = true)
  ∧ (np_floor (np_log10 (of_int 470)) = of_int 2 →
     np_power (of_int 10) (of_int 2) = of_int 100 →
     snap (Some (of_int 470)) = Some (of_int 470))
  ∧ (np_floor (np_log10 (of_int 460)) = of_int 2 →
     np_power (of_int 10) (of_int 2) = of_int 100 →
     snap (Some (of_int 460)) = Some (of_int 470))
  ∧ snap (Some (of_int 0)) = Some (of_int 0).
Proof.
  split; [done|]. split; [|split; [|split; [|split; [|split]]]].
  - intros v Hv. unfold snap_e24. by rewrite Hv.
  - intros v Hv D norm.
    destruct (snap_positive v Hv) as (e & He & Hs).
    exists (np_argmin (distances norm)), e.
    split; [done|]. split; [done|]. split; [|apply distances_nan].
    intros Hn.
    destruct (np_argmin_spec (distances norm)) as (y & Hy & Hmin & Hfirst).
    { apply distances_nonempty. }
    { by apply distances_not_nan. }
    rewrite (distances_lookup _ _ _ He) in Hy. injection Hy as <-.
    split.
    + intros j e' Hj. apply (Hmin j). by apply distances_lookup.
    + intros j e' Hlt Hj. apply (Hfirst j); [done|].
      by apply distances_lookup.
  - apply E24_ascending.
  - intros Hlog Hpow. unfold snap_e24, decade_of.
    rewrite Hlog, Hpow. by vm_compute.
  - intros Hlog Hpow. unfold snap_e24, decade_of.
    rewrite Hlog, Hpow. by vm_compute.
  - by vm_compute.
Qed.

End SnapperFacts.

Lemma snap_e24_spec_witness :
  snap_e24 sample_log10 sample_power (Some (of_int (-3))) = Some (of_int (-3))
  ∧ (∃ idx e,
       E24 !! idx = Some e
       ∧ snap_e24 sample_log10 sample_power (Some (of_int 460))
         = Some (fmul (fdiv e (of_int 10)) (of_int 100))
       ∧ (∀ j e', E24 !! j = Some e' →
            fle (fabs (fsub e (of_int 46))) (fabs (fsub e' (of_int 46)))
            = true))
  ∧ flt (of_int 10) (of_int 11) = true
  ∧ snap_e24 sample_log10 sample_power (Some (of_int 470))
    = Some (of_int 470)
  ∧ snap_e24 sample_log10 sample_power (Some (of_int 460))
    = Some (of_int 470).
Proof.
  destruct (snap_e24_spec sample_log10 sample_power)
    as (_ & Hle & Hpos & Hasc & H470 & H460 & _).
  split; [|split; [|split; [|split]]].
  - apply Hle. by vm_compute.
  - destruct (Hpos (of_int 460) ltac:(by vm_compute))
      as (idx & e & He & Hs & Hmin).
    exists idx, e. split; [done|]. split; [exact Hs|].
    apply (proj1 Hmin). by vm_compute.
  - apply (Hasc 0%nat 1%nat); by vm_compute.
  - apply H470; by vm_compute.
  - apply H460; by vm_compute.
Defined.

Lemma feq_refl x : is_nan x = false → feq x x = true.
Proof.
  intros H. unfold feq, SFeqb. by rewrite (SFcompare_key _ _ H H), lex3_refl.
Qed.

Lemma SNAP_ROWS_eq : SNAP_ROWS = snap_rows.
Proof. by vm_compute. Qed.

Lemma snap_rows_lookup i e :
  E24 !! i = Some e →
  (i, e, fdiv e (of_int 10), within_two_ulps e) ∈ snap_rows.
Proof.
  intros He. unfold snap_rows. apply list_elem_of_fmap. exists i.
  rewrite (nth_lookup_Some _ _ _ _ He). split; [done|].
  apply list_elem_of_In, in_seq.
  apply lookup_lt_Some in He. rewrite E24_length in He. lia.
Qed.

(** A normalised value within two units in the last place of [E24[i]]
    selects index [i]. *)
Lemma near_entry_selected i e tenth near x :
  (i, e, tenth, near) ∈ SNAP_ROWS → x ∈ near →
  np_argmin (distances x) = i.
Proof.
  intros Hrow Hx.
  assert (forallb (λ '(i, e, tenth, near),
            forallb (λ x, (np_argmin (distances x) =? i)%nat) near)
            SNAP_ROWS = true) as Hall by (by vm_compute).
  rewrite forallb_forall in Hall.
  apply list_elem_of_In in Hrow, Hx.
  specialize (Hall _ Hrow). cbv beta iota in Hall.
  rewrite forallb_forall in Hall.
  apply Nat.eqb_eq. exact (Hall x Hx).
Qed.

Lemma stable_decade_sound D i e :
  E24 !! i = Some e → stable_decade D = true →
  flt (of_int 0) (fmul (fdiv e (of_int 10)) D) = true
  ∧ np_argmin
      (distances (fmul (fdiv (fmul (fdiv e (of_int 10)) D) D) (of_int 10)))
    = i.
Proof.
  intros He Hst. unfold stable_decade in Hst.
  rewrite forallb_forall in Hst.
  pose proof (snap_rows_lookup i e He) as Hrow.
  rewrite <- SNAP_ROWS_eq in Hrow.
  specialize (Hst _ (proj1 (list_elem_of_In _ _) Hrow)).
  unfold resnap_row in Hst.
  apply andb_prop in Hst as [Hpos Hsel]. split; [exact Hpos|].
  apply orb_prop in Hsel as [Hnear | Hscan]; [|exact (proj1 (Nat.eqb_eq _ _) Hscan)].
  apply existsb_exists in Hnear as (x & Hx & Hsame).
  apply float_same_eq in Hsame. rewrite Hsame.
  apply (near_entry_selected i e (fdiv e (of_int 10)) (within_two_ulps e));
    [exact Hrow|exact (proj2 (list_elem_of_In _ _) Hx)].
Qed.

Lemma walk_up_spec check n : ∀ p j,
  walk_up check n p = true → (j < n)%nat →
  check (p * 10 ^ Z.of_nat j) = true.
Proof.
  induction n as [|n IH]; intros p j H Hj; [lia|].
  change (check p && walk_up check n (10 * p) = true) in H.
  apply andb_prop in H as [H0 H].
  destruct j as [|j].
  - rewrite Z.mul_1_r. exact H0.
  - replace (p * 10 ^ Z.of_nat (S j)) with (10 * p * 10 ^ Z.of_nat j).
    + apply IH; [exact H|lia].
    + rewrite Nat2Z.inj_succ, Z.pow_succ_r by lia. lia.
Qed.

Lemma walk_down_spec check n : ∀ x j,
  walk_down check n x = true → (j < n)%nat →
  check (x / 10 ^ Z.of_nat j) = true.
Proof.
  induction n as [|n IH]; intros x j H Hj; [lia|].
  change (check x && walk_down check n (x / 10) = true) in H.
  apply andb_prop in H as [H0 H].
  destruct j as [|j].
  - rewrite Z.div_1_r. exact H0.
  - replace (x / 10 ^ Z.of_nat (S j)) with (x / 10 / 10 ^ Z.of_nat j).
    + apply IH; [exact H|lia].
    + rewrite Nat2Z.inj_succ, Z.pow_succ_r by lia.
      rewrite Z.div_div by lia. reflexivity.
Qed.

(** Some values of [pow10]: exact powers, the literals [1e-1] and [1e-2],
    and the two subnormal powers used below. *)
Lemma pow10_values :
  pow10 0 = of_int 1 ∧ pow10 2 = of_int 100 ∧ pow10 9 = of_int 1000000000
  ∧ pow10 (-1) = lit 1 10 ∧ pow10 (-2) = lit 1 100
  ∧ pow10 (-321) = dyadic 202 (-1074) ∧ pow10 (-322) = dyadic 20 (-1074).
Proof. repeat split; by vm_compute. Qed.

(** The two walks over the decades 10^0 .. 10^307 and 10^-1 .. 10^-322. *)
Lemma decades_up_checked : walk_up decade_up 308 1 = true.
Proof. vm_cast_no_check (eq_refl true). Qed.

Lemma decades_down_checked : walk_down decade_down 322 (2 ^ 1200 / 10) = true.
Proof. vm_cast_no_check (eq_refl true). Qed.

Lemma decade_up_at k :
  0 ≤ k ≤ 307 → decade_up (10 ^ k) = true.
Proof.
  intros Hk.
  pose proof (walk_up_spec decade_up 308 1 (Z.to_nat k) decades_up_checked
                ltac:(lia)) as H.
  rewrite Z.mul_1_l, Z2Nat.id in H by lia. exact H.
Qed.

Lemma decade_down_at k :
  -322 ≤ k < 0 → decade_down (2 ^ 1200 / 10 ^ (- k)) = true.
Proof.
  intros Hk.
  pose proof (walk_down_spec decade_down 322 _ (Z.to_nat (- k - 1))
                decades_down_checked ltac:(lia)) as H.
  rewrite Z.div_div, <- Z.pow_succ_r, Z2Nat.id in H by lia.
  replace (Z.succ (- k - 1)) with (- k) in H by lia. exact H.
Qed.

(** [pow10 k] is a binary64 [m * 2^e] with
    [(2m - 1) * 2^e <= 2 * 10^k <= (2m + 1) * 2^e]: it lies within half a
    unit in the last place of [10^k].  (The inequality is stated over the
    integers, negative exponents being moved to the other side.) *)
Lemma pow10_nearest k :
  -322 ≤ k ≤ 307 →
  ∃ m e,
    pow10 k = S754_finite false m e
    ∧ bounded prec emax m e = true
    ∧ (2 * Z.pos m - 1) * 2 ^ Z.max e 0 * 10 ^ Z.max (- k) 0
      ≤ 2 * 2 ^ Z.max (- e) 0 * 10 ^ Z.max k 0
    ∧ 2 * 2 ^ Z.max (- e) 0 * 10 ^ Z.max k 0
      ≤ (2 * Z.pos m + 1) * 2 ^ Z.max e 0 * 10 ^ Z.max (- k) 0.
Proof.
  intros Hk. unfold pow10. destruct (0 <=? k) eqn:Hs.
  - apply Z.leb_le in Hs.
    pose proof (decade_up_at k ltac:(lia)) as H. unfold decade_up in H.
    apply andb_prop in H as [_ H]. unfold nearest_int in H.
    destruct (of_int (10 ^ k)) as [| | |[] m e]; try discriminate.
    apply andb_prop in H as [[Hb Hlo%Z.leb_le]%andb_prop Hhi%Z.leb_le].
    exists m, e. split; [reflexivity|]. split; [exact Hb|].
    rewrite (Z.max_r (- k) 0), (Z.max_l k 0), Z.pow_0_r, !Z.mul_1_r by lia.
    split; [exact Hlo|exact Hhi].
  - apply Z.leb_gt in Hs.
    pose proof (decade_down_at k ltac:(lia)) as H. unfold decade_down in H.
    apply andb_prop in H as [_ H]. unfold nearest_frac in H.
    set (n := 10 ^ (- k)) in *.
    assert (0 < n) as Hn by (apply Z.pow_pos_nonneg; lia).
    set (x := 2 ^ 1200 / n) in *.
    destruct (dyadic (2 * x + 1) (- 1201)) as [| | |[] m e]; try discriminate.
    apply andb_prop in H as [H Hhi%Z.leb_le].
    apply andb_prop in H as [H Hlo%Z.leb_le].
    apply andb_prop in H as [H Hemin%Z.leb_le].
    apply andb_prop in H as [Hb Heneg%Z.ltb_lt].
    exists m, e. split; [reflexivity|]. split; [exact Hb|].
    rewrite (Z.max_r e 0), (Z.max_l (- e) 0), (Z.max_l (- k) 0),
      (Z.max_r k 0), !Z.pow_0_r, !Z.mul_1_r by lia.
    fold n.
    set (s := 2 ^ (e + 1199)) in *.
    assert (0 < s) as Hspos by (apply Z.pow_pos_nonneg; lia).
    assert (2 ^ 1200 = s * (2 * 2 ^ (- e))) as Hsplit.
    { unfold s. rewrite <- (Z.pow_succ_r 2 (- e)) by lia.
      rewrite <- Z.pow_add_r by lia. f_equal. lia. }
    assert (x * n ≤ 2 ^ 1200) as Hfloor
      by (unfold x; rewrite Z.mul_comm; apply Z.mul_div_le; lia).
    assert (2 ^ 1200 < (x + 1) * n) as Hceil.
    { unfold x. rewrite Z.mul_comm.
      apply (Z.mul_succ_div_gt (2 ^ 1200) n Hn). }
    rewrite Hsplit in Hfloor, Hceil.
    split.
    + apply (Z.mul_le_mono_pos_l _ _ s Hspos). nia.
    + apply Z.lt_le_incl, (Z.mul_lt_mono_pos_l s _ _ Hspos). nia.
Qed.

(** For every decade from 10^-322 to 10^307, taken to the nearest
    binary64, each of the 24 values [E24[i]/10 * decade] is positive and is
    mapped to index [i] again. *)
Lemma stable_decades k : -322 ≤ k ≤ 307 → stable_decade (pow10 k) = true.
Proof.
  intros Hk. unfold pow10. destruct (0 <=? k) eqn:Hs.
  - apply Z.leb_le in Hs.
    pose proof (decade_up_at k ltac:(lia)) as H. unfold decade_up in H.
    by apply andb_prop in H as [H _].
  - apply Z.leb_gt in Hs.
    pose proof (decade_down_at k ltac:(lia)) as H. unfold decade_down in H.
    by apply andb_prop in H as [H _].
Qed.

Section Idempotence.

Variable np_log10 : float → float.
Variable np_power : float → float → float.

Local Abbreviation snap := (snap_e24 np_log10 np_power).
Local Abbreviation decade := (decade_of np_log10 np_power).

(** C6, amended.  [snap(snap(v)) == snap(v)] for every [v > 0] whose
    decade [10 ** floor(log10(v))] is the binary64 nearest to [10^k] with
    [-322 <= k <= 307], provided the library puts the snapped value in
    the same decade. *)
Theorem snap_e24_idempotent v k :
  flt (of_int 0) v = true →
  -322 ≤ k ≤ 307 →
  decade v = pow10 k →
  (∀ r, snap (Some v) = Some r → decade r = decade v) →
  snap (snap (Some v)) = snap (Some v)
  ∧ py_eq (snap (snap (Some v))) (snap (Some v)) = true.
Proof.
  intros Hv Hk HD Hsame.
  destruct (snap_positive np_log10 np_power v Hv) as (e & He & Hs).
  set (idx := np_argmin (distances (fmul (fdiv v (decade v)) (of_int 10))))
    in He.
  set (r := fmul (fdiv e (of_int 10)) (decade v)) in Hs.
  pose proof (stable_decades k Hk) as Hst. rewrite <- HD in Hst.
  destruct (stable_decade_sound _ _ _ He Hst) as [Hr Hi]. fold r in Hr, Hi.
  destruct (snap_positive np_log10 np_power r Hr) as (e' & He' & Hs').
  rewrite (Hsame r Hs), Hi, He in He'. injection He' as <-.
  rewrite (Hsame r Hs) in Hs'. fold r in Hs'.
  rewrite Hs, Hs'. split; [done|]. simpl.
  apply feq_refl. by apply flt_not_nan in Hr as [_ ?].
Qed.

(** Below the normal range the nearest binary64 to a power of ten is far
    from it: 10^-321 is 202.4 * 2^-1074 and becomes 202 * 2^-1074.  Any
    library that rounds 10^-321 and 10^-322 to nearest and whose
    logarithm has the right integer part at 203 * 2^-1074 and
    202 * 2^-1074 snaps the former to the latter, and the latter, now in
    the decade below, to 182 * 2^-1074. *)
Lemma snap_e24_subnormal_drift :
  np_floor (np_log10 (dyadic 203 (-1074))) = of_int (-321) →
  np_power (of_int 10) (of_int (-321)) = dyadic 202 (-1074) →
  np_floor (np_log10 (dyadic 202 (-1074))) = of_int (-322) →
  np_power (of_int 10) (of_int (-322)) = dyadic 20 (-1074) →
  snap (Some (dyadic 203 (-1074))) = Some (dyadic 202 (-1074))
  ∧ snap (Some (dyadic 202 (-1074))) = Some (dyadic 182 (-1074)).
Proof.
  intros L1 P1 L2 P2. split.
  - unfold snap_e24, decade_of. rewrite L1, P1. by vm_compute.
  - unfold snap_e24, decade_of. rewrite L2, P2. by vm_compute.
Qed.

End Idempotence.

(** C6, as stated, fails: 203 * 2^-1074 is positive, snaps to
    202 * 2^-1074, and that value snaps to 182 * 2^-1074. *)
Lemma snap_e24_not_idempotent :
  flt (of_int 0) (dyadic 203 (-1074)) = true
  ∧ snap_e24 sample_log10 sample_power (Some (dyadic 203 (-1074)))
    = Some (dyadic 202 (-1074))
  ∧ snap_e24 sample_log10 sample_power
      (snap_e24 sample_log10 sample_power (Some (dyadic 203 (-1074))))
    = Some (dyadic 182 (-1074))
  ∧ py_eq (snap_e24 sample_log10 sample_power
             (snap_e24 sample_log10 sample_power (Some (dyadic 203 (-1074)))))
          (snap_e24 sample_log10 sample_power (Some (dyadic 203 (-1074))))
    = false.
Proof. repeat split; by vm_compute. Qed.

Lemma snap_e24_idempotent_witness :
  snap_e24 sample_log10 sample_power
    (snap_e24 sample_log10 sample_power (Some (of_int 460)))
  = snap_e24 sample_log10 sample_power (Some (of_int 460))
  ∧ py_eq (snap_e24 sample_log10 sample_power
             (snap_e24 sample_log10 sample_power (Some (of_int 460))))
          (snap_e24 sample_log10 sample_power (Some (of_int 460)))
    = true.
Proof.
  apply (snap_e24_idempotent sample_log10 sample_power (of_int 460) 2).
  - by vm_compute.
  - lia.
  - by vm_compute.
  - intros r Hr. vm_compute in Hr. injection Hr as <-. by vm_compute.
Defined.

(* ===================================================================== *)
(** * More on the band decoder *)
(* ===================================================================== *)

(** Membership in an explicit list, by position. *)
Ltac in_list :=
  repeat first [ by apply list_elem_of_here | apply list_elem_of_further ].

Lemma COLOR_CODE_entries c e :
  COLOR_CODE !! c = Some e ↔
  (c, e) ∈ [
    ("black",  mkEntry (Some 0) (of_int 1)          None);
    ("brown",  mkEntry (Some 1) (of_int 10)         (Some (of_int 1)));
    ("red",    mkEntry (Some 2) (of_int 100)        (Some (of_int 2)));
    ("orange", mkEntry (Some 3) (of_int 1000)       None);
    ("yellow", mkEntry (Some 4) (of_int 10000)      None);
    ("green",  mkEntry (Some 5) (of_int 100000)     (Some (lit 5 10)));
    ("blue",   mkEntry (Some 6) (of_int 1000000)    (Some (lit 25 100)));
    ("violet", mkEntry (Some 7) (of_int 10000000)   (Some (lit 1 10)));
    ("grey",   mkEntry (Some 8) (of_int 100000000)  (Some (lit 5 100)));
    ("white",  mkEntry (Some 9) (of_int 1000000000) None);
    ("gold",   mkEntry None     (lit 1 10)          (Some (of_int 5)));
    ("silver", mkEntry None     (lit 1 100)         (Some (of_int 10))) ].
Proof.
  unfold COLOR_CODE. symmetry. apply elem_of_list_to_map.
  apply (bool_decide_unpack (NoDup _)). by vm_compute.
Qed.

Lemma get_digit_cases c d :
  get_digit c = Some d ↔
  (c, d) ∈ [ ("black", 0); ("brown", 1); ("red", 2); ("orange", 3);
             ("yellow", 4); ("green", 5); ("blue", 6); ("violet", 7);
             ("grey", 8); ("white", 9) ].
Proof.
  unfold get_digit. split.
  - destruct (COLOR_CODE !! c) as [e|] eqn:E; [|done]. simpl. intros Hd.
    apply COLOR_CODE_entries in E. pair_cases E; simpl in Hd;
      try discriminate; injection Hd as <-; in_list.
  - intros Hin. pair_cases Hin; by vm_compute.
Qed.

Lemma get_multiplier_cases c m :
  get_multiplier c = Some m → m ∈ MULTIPLIERS.
Proof.
  unfold get_multiplier.
  destruct (COLOR_CODE !! c) as [e|] eqn:E; [|done]. simpl. intros [= <-].
  apply COLOR_CODE_entries in E. unfold MULTIPLIERS.
  pair_cases E; simpl; in_list.
Qed.

Lemma get_digit_range c d : get_digit c = Some d → 0 ≤ d ≤ 9.
Proof. intros Hin%get_digit_cases. pair_cases Hin; lia. Qed.

(** A decoded value is the product of a number of at most three digits and
    a multiplier of the table. *)
Lemma decode_some colors v :
  (compute_value_from_colors colors).1 = Some v →
  ∃ n m, 0 ≤ n ≤ 999 ∧ m ∈ MULTIPLIERS ∧ v = fmul (of_int n) m.
Proof.
  assert (∀ d1 d2 m, value2 d1 d2 m = Some v →
            (∀ d, d1 = Some d → 0 ≤ d ≤ 9) → (∀ d, d2 = Some d → 0 ≤ d ≤ 9) →
            (∀ x, m = Some x → x ∈ MULTIPLIERS) →
            ∃ n m, 0 ≤ n ≤ 999 ∧ m ∈ MULTIPLIERS ∧ v = fmul (of_int n) m)
    as H2.
  { intros [d1|] [d2|] [m|] E R1 R2 Rm; try done. injection E as <-.
    specialize (R1 _ eq_refl). specialize (R2 _ eq_refl).
    exists (d1 * 10 + d2), m. split; [lia|]. split; [by apply Rm|done]. }
  assert (∀ d1 d2 d3 m, value3 d1 d2 d3 m = Some v →
            (∀ d, d1 = Some d → 0 ≤ d ≤ 9) → (∀ d, d2 = Some d → 0 ≤ d ≤ 9) →
            (∀ d, d3 = Some d → 0 ≤ d ≤ 9) →
            (∀ x, m = Some x → x ∈ MULTIPLIERS) →
            ∃ n m, 0 ≤ n ≤ 999 ∧ m ∈ MULTIPLIERS ∧ v = fmul (of_int n) m)
    as H3.
  { intros [d1|] [d2|] [d3|] [m|] E R1 R2 R3 Rm; try done. injection E as <-.
    specialize (R1 _ eq_refl). specialize (R2 _ eq_refl).
    specialize (R3 _ eq_refl).
    exists (d1 * 100 + d2 * 10 + d3), m.
    split; [lia|]. split; [by apply Rm|done]. }
  destruct (decide (length colors < 3)%nat) as [Hs|Hs].
  { by rewrite decode_short. }
  destruct colors as [|c0 [|c1 [|c2 [|c3 [|c4 [|c5 rest]]]]]];
    cbn [length] in Hs; try lia;
    rewrite ?decode_3, ?decode_4, ?decode_5, ?decode_6; cbn [fst]; intros E.
  - eapply H2; eauto using get_digit_range, get_multiplier_cases.
  - eapply H2; eauto using get_digit_range, get_multiplier_cases.
  - eapply H3; eauto using get_digit_range, get_multiplier_cases.
  - eapply H3; eauto using get_digit_range, get_multiplier_cases.
Qed.

Lemma products_in_range :
  forallb (λ m, forallb (λ n, in_decoder_range (fmul (of_int n) m))
                  (Z.of_nat <$> seq 0 1000)) MULTIPLIERS = true.
Proof. vm_compute. reflexivity. Qed.

(** X1.  Whatever the bands are, a value that the decoder returns is a finite
    binary64 in canonical form between 0 and 999e9: the decoder never
    returns a NaN, an infinity or a negative number. *)
Theorem decode_value_range colors v :
  (compute_value_from_colors colors).1 = Some v →
  valid_binary prec emax v = true
  ∧ is_finite v = true
  ∧ fle (of_int 0) v = true
  ∧ fle v (of_int 999000000000) = true.
Proof.
  intros (n & m & Hn & Hm & ->)%decode_some.
  pose proof products_in_range as Hall.
  rewrite forallb_forall in Hall.
  specialize (Hall m ltac:(by apply list_elem_of_In)).
  rewrite forallb_forall in Hall.
  assert (In n (Z.of_nat <$> seq 0 1000)) as Hin.
  { apply in_map_iff. exists (Z.to_nat n). split; [lia|]. apply in_seq. lia. }
  specialize (Hall n Hin). unfold in_decoder_range in Hall.
  apply andb_prop in Hall as [Hall H4].
  apply andb_prop in Hall as [Hall H3].
  apply andb_prop in Hall as [H1 H2]. done.
Qed.

Lemma decode_value_range_witness :
  valid_binary prec emax (lit 47 10) = true
  ∧ is_finite (lit 47 10) = true
  ∧ fle (of_int 0) (lit 47 10) = true
  ∧ fle (lit 47 10) (of_int 999000000000) = true.
Proof.
  apply (decode_value_range ["yellow"; "violet"; "gold"; "gold"]).
  by vm_compute.
Defined.

Lemma has_digit c : is_Some (get_digit c) ↔ c ∈ DIGIT_COLORS.
Proof.
  unfold DIGIT_COLORS. split.
  - intros [d Hd]. apply get_digit_cases in Hd.
    pair_cases Hd; in_list.
  - intros Hin. repeat (apply elem_of_cons in Hin as [-> | Hin]);
      [vm_compute; by eexists..|by apply elem_of_nil in Hin].
Qed.

Lemma has_multiplier c : is_Some (get_multiplier c) ↔ c ∈ KEY_COLORS.
Proof.
  unfold get_multiplier, KEY_COLORS, DIGIT_COLORS. split.
  - destruct (COLOR_CODE !! c) as [e|] eqn:E; [intros _|by intros [? ?]].
    apply COLOR_CODE_entries in E. pair_cases E; in_list.
  - intros Hin. simpl in Hin.
    repeat (apply elem_of_cons in Hin as [-> | Hin]);
      [vm_compute; by eexists..|by apply elem_of_nil in Hin].
Qed.

Lemma value2_is_Some d1 d2 m :
  is_Some (value2 d1 d2 m) ↔ is_Some d1 ∧ is_Some d2 ∧ is_Some m.
Proof.
  destruct d1, d2, m; simpl; split;
    try (intros [? ?]; discriminate);
    try (intros ([? ?] & [? ?] & [? ?]); discriminate); eauto.
Qed.

Lemma value3_is_Some d1 d2 d3 m :
  is_Some (value3 d1 d2 d3 m)
  ↔ is_Some d1 ∧ is_Some d2 ∧ is_Some d3 ∧ is_Some m.
Proof.
  destruct d1, d2, d3, m; simpl; split;
    try (intros [? ?]; discriminate);
    try (intros ([? ?] & [? ?] & [? ?] & [? ?]); discriminate); eauto 6.
Qed.

(** X2.  The decoder returns a value exactly when every digit position holds one
    of the ten digit colours black ... white and the multiplier position
    holds one of the twelve colours of the table: two digits and a
    multiplier for three and four bands, three digits and a multiplier for
    five bands and more. *)
Theorem decode_value_present :
  (∀ c0 c1 c2,
      is_Some (compute_value_from_colors [c0; c1; c2]).1
      ↔ c0 ∈ DIGIT_COLORS ∧ c1 ∈ DIGIT_COLORS ∧ c2 ∈ KEY_COLORS)
  ∧ (∀ c0 c1 c2 c3,
      is_Some (compute_value_from_colors [c0; c1; c2; c3]).1
      ↔ c0 ∈ DIGIT_COLORS ∧ c1 ∈ DIGIT_COLORS ∧ c2 ∈ KEY_COLORS)
  ∧ (∀ c0 c1 c2 c3 c4 rest,
      is_Some (compute_value_from_colors (c0 :: c1 :: c2 :: c3 :: c4 :: rest)).1
      ↔ c0 ∈ DIGIT_COLORS ∧ c1 ∈ DIGIT_COLORS ∧ c2 ∈ DIGIT_COLORS
        ∧ c3 ∈ KEY_COLORS)
  ∧ DIGIT_COLORS = ["black"; "brown"; "red"; "orange"; "yellow"; "green";
                    "blue"; "violet"; "grey"; "white"]
  ∧ KEY_COLORS = (DIGIT_COLORS ++ ["gold"; "silver"])%list.
Proof.
  split; [|split; [|split; [|done]]].
  - intros c0 c1 c2. rewrite decode_3. simpl.
    by rewrite value2_is_Some, !has_digit, has_multiplier.
  - intros c0 c1 c2 c3. rewrite decode_4. simpl.
    by rewrite value2_is_Some, !has_digit, has_multiplier.
  - intros c0 c1 c2 c3 c4 rest.
    assert ((compute_value_from_colors (c0 :: c1 :: c2 :: c3 :: c4 :: rest)).1
            = value3 (get_digit c0) (get_digit c1) (get_digit c2)
                (get_multiplier c3)) as -> by (by destruct rest).
    by rewrite value3_is_Some, !has_digit, has_multiplier.
Qed.

Lemma has_tolerance c : is_Some (get_tolerance c) ↔ c ∈ TOL_COLORS.
Proof.
  rewrite <- in_tol_colors_true, in_tol_colors_spec.
  unfold get_tolerance. split.
  - destruct (COLOR_CODE !! c) as [e|] eqn:E; [|by intros [? ?]].
    intros [t Ht]. change (tolerance e = Some t) in Ht.
    apply COLOR_CODE_entries in E.
    pair_cases E; first [ solve [in_list] | discriminate Ht ].
  - intros Hin. repeat (apply elem_of_cons in Hin as [-> | Hin]);
      [vm_compute; by eexists..|by apply elem_of_nil in Hin].
Qed.

(** With four or five bands the tolerance is looked up for the last
    band. *)
Lemma decode_tolerance_last colors final :
  length colors = 4%nat ∨ length colors = 5%nat →
  last colors = Some final →
  (compute_value_from_colors colors).2 = get_tolerance final.
Proof.
  intros Hlen Hl.
  destruct colors as [|c0 [|c1 [|c2 [|c3 [|c4 [|c5 rest]]]]]];
    cbn [length] in Hlen; try lia; cbn [last] in Hl; injection Hl as ->;
    reflexivity.
Qed.

(** X3.  The two tables agree: the tolerance colours of the orientation step
    are the colours to which the colour table gives a tolerance.  So
    a reading of four or five bands leaves [analyze] with a tolerance
    exactly when one of its two end bands is a tolerance colour, whichever
    end it is. *)
Theorem tolerance_of_oriented :
  (∀ c, is_Some (get_tolerance c) ↔ c ∈ TOL_COLORS)
  ∧ (∀ colors first final,
      length colors = 4%nat ∨ length colors = 5%nat →
      head colors = Some first → last colors = Some final →
      (is_Some (decode_oriented colors).2
       ↔ first ∈ TOL_COLORS ∨ final ∈ TOL_COLORS)).
Proof.
  split; [apply has_tolerance|].
  intros colors first final Hlen Hh Hl. unfold decode_oriented.
  rewrite (orient_cases _ _ _ Hh Hl).
  destruct (in_tol_colors first) eqn:Ef, (in_tol_colors final) eqn:El;
    cbn [andb negb].
  - rewrite (decode_tolerance_last _ final), has_tolerance by done.
    apply in_tol_colors_true in El. tauto.
  - rewrite (decode_tolerance_last _ first), has_tolerance;
      [|by rewrite length_reverse|by rewrite last_reverse].
    apply in_tol_colors_true in Ef. tauto.
  - rewrite (decode_tolerance_last _ final), has_tolerance by done.
    apply in_tol_colors_true in El. tauto.
  - rewrite (decode_tolerance_last _ final), has_tolerance by done.
    apply in_tol_colors_false in Ef, El. tauto.
Qed.

Lemma tolerance_of_oriented_witness :
  is_Some (decode_oriented ["gold"; "red"; "violet"; "yellow"]).2
  ↔ "gold" ∈ TOL_COLORS ∨ "yellow" ∈ TOL_COLORS.
Proof.
  apply (proj2 tolerance_of_oriented); [left|..]; reflexivity.
Defined.

Lemma digit_multiplier c k :
  get_digit c = Some k → get_multiplier c = Some (of_int (10 ^ k)).
Proof. intros Hin%get_digit_cases. pair_cases Hin; by vm_compute. Qed.

Lemma integers_round_trip :
  forallb (λ n, forallb (λ k,
      match float_to_int (of_int (n * 10 ^ k)) with
      | Ok z => z =? n * 10 ^ k
      | Raise _ => false
      end) (Z.of_nat <$> seq 0 10)) (Z.of_nat <$> seq 0 1000) = true.
Proof. vm_compute. reflexivity. Qed.

Lemma integer_value_exact n k :
  0 ≤ n ≤ 999 → 0 ≤ k ≤ 9 →
  fmul (of_int n) (of_int (10 ^ k)) = of_int (n * 10 ^ k)
  ∧ float_to_int (of_int (n * 10 ^ k)) = Ok (n * 10 ^ k).
Proof.
  intros Hn Hk. split; [by apply integer_product_exact|].
  pose proof integers_round_trip as Hall.
  rewrite forallb_forall in Hall.
  assert (In n (Z.of_nat <$> seq 0 1000)) as Hin.
  { apply in_map_iff. exists (Z.to_nat n). split; [lia|]. apply in_seq. lia. }
  specialize (Hall n Hin). rewrite forallb_forall in Hall.
  assert (In k (Z.of_nat <$> seq 0 10)) as Hik.
  { apply in_map_iff. exists (Z.to_nat k). split; [lia|]. apply in_seq. lia. }
  specialize (Hall k Hik).
  destruct (float_to_int _) as [z|]; [|done].
  apply Z.eqb_eq in Hall. by subst.
Qed.

(** X4.  In the table the multiplier of a digit colour is ten to the power of
    its digit.  With such a multiplier the decoded value is the integer
    [(10*d0 + d1) * 10^k], resp. [(100*d0 + 10*d1 + d2) * 10^k], itself:
    the binary64 product is not rounded, and [int] of the value gives the
    integer back. *)
Theorem decode_integer_exact :
  (∀ c k, get_digit c = Some k →
      get_multiplier c = Some (of_int (10 ^ k)) ∧ 0 ≤ k ≤ 9)
  ∧ (∀ c0 c1 c2 c3 d0 d1 k,
      get_digit c0 = Some d0 → get_digit c1 = Some d1 →
      get_digit c2 = Some k →
      let n := (10 * d0 + d1) * 10 ^ k in
      (compute_value_from_colors [c0; c1; c2; c3]).1 = Some (of_int n)
      ∧ float_to_int (of_int n) = Ok n)
  ∧ (∀ c0 c1 c2 c3 c4 d0 d1 d2 k,
      get_digit c0 = Some d0 → get_digit c1 = Some d1 →
      get_digit c2 = Some d2 → get_digit c3 = Some k →
      let n := (100 * d0 + 10 * d1 + d2) * 10 ^ k in
      (compute_value_from_colors [c0; c1; c2; c3; c4]).1 = Some (of_int n)
      ∧ float_to_int (of_int n) = Ok n).
Proof.
  split; [|split].
  - intros c k Hk. split; [by apply digit_multiplier|].
    by apply (get_digit_range c).
  - intros c0 c1 c2 c3 d0 d1 k H0 H1 Hk n.
    pose proof (get_digit_range _ _ H0). pose proof (get_digit_range _ _ H1).
    pose proof (get_digit_range _ _ Hk).
    rewrite decode_4, H0, H1, (digit_multiplier _ _ Hk). simpl.
    destruct (integer_value_exact (d0 * 10 + d1) k) as [E1 E2]; [lia|lia|].
    subst n. rewrite E1. by rewrite (Z.mul_comm 10 d0).
  - intros c0 c1 c2 c3 c4 d0 d1 d2 k H0 H1 H2 Hk n.
    pose proof (get_digit_range _ _ H0). pose proof (get_digit_range _ _ H1).
    pose proof (get_digit_range _ _ H2). pose proof (get_digit_range _ _ Hk).
    rewrite decode_5, H0, H1, H2, (digit_multiplier _ _ Hk). simpl.
    destruct (integer_value_exact (d0 * 100 + d1 * 10 + d2) k) as [E1 E2];
      [lia|lia|].
    subst n. rewrite E1.
    by rewrite (Z.mul_comm 100 d0), (Z.mul_comm 10 d1).
Qed.

(** Yellow, violet, orange: 47 * 10^3. *)
Lemma decode_integer_exact_witness :
  (get_multiplier "orange" = Some (of_int (10 ^ 3)) ∧ 0 ≤ 3 ≤ 9)
  ∧ ((compute_value_from_colors ["yellow"; "violet"; "orange"; "gold"]).1
     = Some (of_int ((10 * 4 + 7) * 10 ^ 3))
     ∧ float_to_int (of_int ((10 * 4 + 7) * 10 ^ 3))
       = Ok ((10 * 4 + 7) * 10 ^ 3))
  ∧ ((compute_value_from_colors
        ["brown"; "black"; "black"; "red"; "brown"]).1
     = Some (of_int ((100 * 1 + 10 * 0 + 0) * 10 ^ 2))
     ∧ float_to_int (of_int ((100 * 1 + 10 * 0 + 0) * 10 ^ 2))
       = Ok ((100 * 1 + 10 * 0 + 0) * 10 ^ 2)).
Proof.
  destruct decode_integer_exact as (Hm & H4 & H5).
  split; [|split].
  - apply Hm. reflexivity.
  - apply H4; reflexivity.
  - apply H5; reflexivity.
Defined.

(* ===================================================================== *)
(** * More on the orientation step *)
(* ===================================================================== *)

Lemma orient_choice colors :
  orient colors = colors ∨ orient colors = reverse colors.
Proof.
  unfold orient. destruct (head colors), (last colors); auto.
  destruct (_ && _); auto.
Qed.

Lemma orient_settled colors first final :
  head (orient colors) = Some first →
  last (orient colors) = Some final →
  in_tol_colors first && negb (in_tol_colors final) = false.
Proof.
  unfold orient.
  destruct (head colors) as [a|] eqn:Hh; [|by rewrite Hh].
  destruct (last colors) as [b|] eqn:Hl; [|by rewrite Hl].
  destruct (in_tol_colors a && negb (in_tol_colors b)) eqn:E.
  - rewrite head_reverse, last_reverse, Hh, Hl. intros [= <-] [= <-].
    apply andb_prop in E as [_ E]. apply negb_true_iff in E.
    by rewrite E.
  - rewrite Hh, Hl. by intros [= <-] [= <-].
Qed.

Lemma orient_twice colors : orient (orient colors) = orient colors.
Proof.
  destruct (head (orient colors)) as [first|] eqn:Hh;
    [|unfold orient at 1; by rewrite Hh].
  destruct (last (orient colors)) as [final|] eqn:Hl;
    [|unfold orient at 1; by rewrite Hh, Hl].
  by rewrite (orient_cases _ _ _ Hh Hl), (orient_settled _ _ _ Hh Hl).
Qed.

Lemma orient_length colors : length (orient colors) = length colors.
Proof.
  destruct (orient_choice colors) as [-> | ->]; [done|apply length_reverse].
Qed.

Lemma orient_perm colors : orient colors ≡ₚ colors.
Proof.
  destruct (orient_choice colors) as [-> | ->];
    [done|apply reverse_Permutation].
Qed.

(** X5.  The step is a correction: once applied, a second application changes
    nothing, and a sequence that has passed it never shows a tolerance
    colour at its left end and another colour at its right end. *)
Theorem orient_idempotent :
  (∀ colors, orient (orient colors) = orient colors)
  ∧ (∀ colors first final,
      head (orient colors) = Some first →
      last (orient colors) = Some final →
      first ∈ TOL_COLORS → final ∈ TOL_COLORS).
Proof.
  split; [apply orient_twice|].
  intros colors first final Hh Hl Hf.
  pose proof (orient_settled _ _ _ Hh Hl) as H.
  apply in_tol_colors_true in Hf.
  rewrite Hf in H. apply in_tol_colors_true.
  by destruct (in_tol_colors final).
Qed.

Lemma orient_idempotent_witness :
  "gold" ∈ TOL_COLORS.
Proof.
  apply (proj2 orient_idempotent ["brown"; "black"; "red"; "gold"]
           "brown" "gold"); by vm_compute.
Defined.

(** X6.  The step only ever turns the sequence round: the result is the
    sequence or its mirror image, with the same bands and the same length;
    the empty sequence and a single band are left alone. *)
Theorem orient_permutes :
  (∀ colors, orient colors = colors ∨ orient colors = reverse colors)
  ∧ (∀ colors, orient colors ≡ₚ colors)
  ∧ (∀ colors, length (orient colors) = length colors)
  ∧ (∀ colors, (length colors ≤ 1)%nat → orient colors = colors).
Proof.
  split; [apply orient_choice|]. split; [|split].
  - apply orient_perm.
  - apply orient_length.
  - intros [|c [|d rest]] Hlen; [done| |simpl in Hlen; lia].
    unfold orient. simpl. by destruct (in_tol_colors c).
Qed.

Lemma orient_permutes_witness :
  orient ["gold"] = ["gold"].
Proof.
  apply (proj2 (proj2 (proj2 orient_permutes))). simpl. lia.
Defined.

(** X7.  When exactly one end band is a tolerance colour the direction in
    which the bands were read is immaterial: a sequence and its mirror
    image leave the orientation step as the same sequence and decode to
    the same result.  When both or none of the end bands are tolerance
    colours the step does nothing, and the mirror image stays the mirror
    image. *)
Theorem orient_mirror colors first final :
  head colors = Some first → last colors = Some final →
  ((first ∈ TOL_COLORS ↔ final ∉ TOL_COLORS) →
     orient (reverse colors) = orient colors
     ∧ decode_oriented (reverse colors) = decode_oriented colors)
  ∧ ((first ∈ TOL_COLORS ↔ final ∈ TOL_COLORS) →
     orient colors = colors ∧ orient (reverse colors) = reverse colors).
Proof.
  intros Hh Hl.
  assert (head (reverse colors) = Some final) as Hh'
    by (by rewrite head_reverse).
  assert (last (reverse colors) = Some first) as Hl'
    by (by rewrite last_reverse).
  unfold decode_oriented.
  rewrite (orient_cases _ _ _ Hh Hl), (orient_cases _ _ _ Hh' Hl').
  rewrite <- !in_tol_colors_false, <- !in_tol_colors_true, reverse_involutive.
  destruct (in_tol_colors first), (in_tol_colors final); cbn [andb negb];
    split; intros H; try done; exfalso; intuition congruence.
Qed.

(** Yellow, violet, red, gold read from the right. *)
Lemma orient_mirror_witness :
  (("yellow" ∈ TOL_COLORS ↔ "gold" ∉ TOL_COLORS) →
     orient (reverse ["yellow"; "violet"; "red"; "gold"])
     = orient ["yellow"; "violet"; "red"; "gold"]
     ∧ decode_oriented (reverse ["yellow"; "violet"; "red"; "gold"])
       = decode_oriented ["yellow"; "violet"; "red"; "gold"])
  ∧ (("yellow" ∈ TOL_COLORS ↔ "gold" ∈ TOL_COLORS) →
     orient ["yellow"; "violet"; "red"; "gold"]
     = ["yellow"; "violet"; "red"; "gold"]
     ∧ orient (reverse ["yellow"; "violet"; "red"; "gold"])
       = reverse ["yellow"; "violet"; "red"; "gold"]).
Proof. apply orient_mirror; reflexivity. Defined.

(* ===================================================================== *)
(** * More on the alias normaliser *)
(* ===================================================================== *)

Lemma lower_char_idem a : lower_char (lower_char a) = lower_char a.
Proof. by destruct a as [[] [] [] [] [] [] [] []]. Qed.

Lemma lower_idem s : lower (lower s) = lower s.
Proof.
  induction s as [|a s IH]; simpl; [done|]. by rewrite lower_char_idem, IH.
Qed.

Lemma rstrip_idem s : rstrip (rstrip s) = rstrip s.
Proof.
  induction s as [|a s IH]; simpl; [done|].
  destruct (rstrip s) as [|b t] eqn:E.
  - destruct (is_space a) eqn:Ea; simpl; [done|]. by rewrite Ea.
  - cbn [rstrip]. cbn [rstrip] in IH. by rewrite IH.
Qed.

(** After [lstrip] the string is empty or begins with a character that is
    not whitespace, and [rstrip] keeps such a beginning. *)
Lemma lstrip_rstrip_lstrip s : lstrip (rstrip (lstrip s)) = rstrip (lstrip s).
Proof.
  induction s as [|a s IH]; simpl; [done|].
  destruct (is_space a) eqn:Ea; [done|].
  cbn [rstrip]. destruct (rstrip s) as [|b t]; rewrite ?Ea; simpl;
    by rewrite Ea.
Qed.

Lemma strip_idem s : strip (strip s) = strip s.
Proof. unfold strip. by rewrite lstrip_rstrip_lstrip, rstrip_idem. Qed.

Lemma norm_color_hit name a :
  ALIASES !! lower (strip (default "" name)) = Some a → norm_color name = a.
Proof. unfold norm_color. by intros ->. Qed.

Lemma norm_color_miss name :
  ALIASES !! lower (strip (default "" name)) = None →
  norm_color name = lower (strip (default "" name)).
Proof. unfold norm_color. by intros ->. Qed.

Lemma ALIASES_targets k a :
  ALIASES !! k = Some a →
  a ∈ ["grey"; "violet"; "gold"; "silver"; "orange"; "red"; "brown"].
Proof. intros Hin%ALIASES_entries. pair_cases Hin; in_list. Qed.

Lemma norm_color_clean name :
  lower (strip (norm_color name)) = norm_color name.
Proof.
  destruct (ALIASES !! lower (strip (default "" name))) as [a|] eqn:E.
  - rewrite (norm_color_hit _ _ E). apply ALIASES_targets in E.
    repeat (apply elem_of_cons in E as [-> | E]);
      [by vm_compute..|by apply elem_of_nil in E].
  - rewrite (norm_color_miss _ E).
    by rewrite <- strip_lower, lower_idem, strip_lower, strip_idem.
Qed.

Lemma norm_color_fixed name :
  norm_color (Some (norm_color name)) = norm_color name.
Proof.
  destruct (ALIASES !! lower (strip (default "" name))) as [a|] eqn:E.
  - rewrite (norm_color_hit _ _ E). apply ALIASES_targets in E.
    repeat (apply elem_of_cons in E as [-> | E]);
      [by vm_compute..|by apply elem_of_nil in E].
  - rewrite norm_color_miss; simpl; rewrite norm_color_clean; [done|].
    by rewrite (norm_color_miss _ E).
Qed.

Lemma norm_color_stripped name : strip (norm_color name) = norm_color name.
Proof.
  rewrite <- (norm_color_clean name) at 2. rewrite <- strip_lower.
  assert (lower (norm_color name) = norm_color name) as ->; [|done].
  rewrite <- (norm_color_clean name). apply lower_idem.
Qed.

Lemma norm_color_lowered name : lower (norm_color name) = norm_color name.
Proof. rewrite <- (norm_color_clean name). apply lower_idem. Qed.

Lemma ascii_only_lower_char a :
  (nat_of_ascii (lower_char a) <? 128)%nat = (nat_of_ascii a <? 128)%nat.
Proof. destruct a as [[] [] [] [] [] [] [] []]; vm_compute; reflexivity. Qed.

Lemma ascii_only_lower s : ascii_only (lower s) = ascii_only s.
Proof.
  induction s as [|a s IH]; simpl; [done|].
  by rewrite ascii_only_lower_char, IH.
Qed.

Lemma ascii_only_lstrip s : ascii_only s = true → ascii_only (lstrip s) = true.
Proof.
  induction s as [|a s IH]; simpl; [done|].
  intros [Ha Hs]%andb_true_iff.
  destruct (is_space a); [auto|]. simpl. by rewrite Ha, Hs.
Qed.

Lemma ascii_only_rstrip s : ascii_only s = true → ascii_only (rstrip s) = true.
Proof.
  induction s as [|a s IH]; [done|]. cbn [rstrip ascii_only].
  intros [Ha Hs]%andb_true_iff. specialize (IH Hs).
  destruct (rstrip s) as [|b t].
  - destruct (is_space a); simpl; [done|]. by rewrite Ha.
  - cbn [ascii_only]. cbn [ascii_only] in IH. by rewrite Ha, IH.
Qed.

Lemma ascii_only_norm_color name :
  ascii_only (default "" name) = true → ascii_only (norm_color name) = true.
Proof.
  intros Hs.
  destruct (ALIASES !! lower (strip (default "" name))) as [a|] eqn:E.
  - rewrite (norm_color_hit _ _ E). apply ALIASES_targets in E.
    repeat (apply elem_of_cons in E as [-> | E]);
      [vm_compute; reflexivity..|by apply elem_of_nil in E].
  - rewrite (norm_color_miss _ E), ascii_only_lower.
    by apply ascii_only_rstrip, ascii_only_lstrip.
Qed.

Lemma lower_char_fixed a : lower_char a = a → a ∉ CAPITALS.
Proof.
  destruct a as [[] [] [] [] [] [] [] []]; intros H;
    first [discriminate H
          | apply (bool_decide_unpack _); vm_compute; reflexivity].
Qed.

Lemma lower_fixed s : lower s = s → no_capital s.
Proof.
  unfold no_capital. induction s as [|a s IH]; simpl; [constructor|].
  intros [= Ha Hs]. constructor; [by apply lower_char_fixed|auto].
Qed.

(** X8.  On names of ASCII characters the normaliser is idempotent: the
    normalised name is again such a string, and it is normalised to
    itself.  It has no whitespace at either end and no capital letter in
    it. *)
Theorem norm_color_idempotent name :
  ascii_only (default "" name) = true →
  ascii_only (norm_color name) = true
  ∧ norm_color (Some (norm_color name)) = norm_color name
  ∧ not_padded (norm_color name)
  ∧ no_capital (norm_color name).
Proof.
  intros Hs. split; [by apply ascii_only_norm_color|].
  split; [apply norm_color_fixed|]. split.
  - rewrite <- norm_color_stripped.
    by destruct (strip_split (norm_color name)) as (l & r & _ & _ & _ & H).
  - apply lower_fixed, norm_color_lowered.
Qed.

Lemma norm_color_idempotent_witness :
  ascii_only (norm_color (Some "  GoLdEn ")) = true
  ∧ norm_color (Some (norm_color (Some "  GoLdEn ")))
    = norm_color (Some "  GoLdEn ")
  ∧ not_padded (norm_color (Some "  GoLdEn "))
  ∧ no_capital (norm_color (Some "  GoLdEn ")).
Proof. apply (norm_color_idempotent (Some "  GoLdEn ")). reflexivity. Defined.

(** X9.  The names of the colour table are fixed points of the normaliser, and
    every synonym is replaced by a name of the colour table; no synonym is
    itself a name of the table. *)
Theorem norm_color_table_names :
  (∀ c, is_Some (COLOR_CODE !! c) → norm_color (Some c) = c)
  ∧ (∀ k a, ALIASES !! k = Some a →
      is_Some (COLOR_CODE !! a) ∧ COLOR_CODE !! k = None
      ∧ norm_color (Some k) = a).
Proof.
  split.
  - intros c [e He]. apply COLOR_CODE_entries in He.
    pair_cases He; by vm_compute.
  - intros k a Hin%ALIASES_entries.
    pair_cases Hin; (split; [vm_compute; by eexists|]); by vm_compute.
Qed.

Lemma norm_color_table_names_witness :
  norm_color (Some "violet") = "violet"
  ∧ (is_Some (COLOR_CODE !! "violet") ∧ COLOR_CODE !! "purple" = None
     ∧ norm_color (Some "purple") = "violet").
Proof.
  destruct norm_color_table_names as [H1 H2]. split.
  - apply H1. vm_compute. by eexists.
  - apply H2. by vm_compute.
Defined.

(* ===================================================================== *)
(** * More on the display formatter *)
(* ===================================================================== *)

Lemma hundredths_near_1000 m :
  8796049041742889 ≤ Z.pos m < 8796093022208000 →
  hundredths m (-43) = 100000.
Proof.
  intros Hm. unfold hundredths.
  change (0 <=? -43) with false. cbv iota.
  change (2 ^ (- -43)) with 8796093022208.
  unfold round_half_even.
  pose proof (Z.div_mod (Z.pos m * 100) 8796093022208 ltac:(lia)) as Hdm.
  pose proof (Z.mod_pos_bound (Z.pos m * 100) 8796093022208 ltac:(lia)) as Hr.
  assert (Z.pos m * 100 / 8796093022208 = 99999) as Hq by lia.
  rewrite Hq in *.
  destruct (Z.compare_spec (2 * ((Z.pos m * 100) `mod` 8796093022208))
              8796093022208); lia.
Qed.

Lemma digits_53 m :
  4503599627370496 ≤ Z.pos m < 9007199254740992 → digits2_pos m = 53%positive.
Proof.
  intros Hm. apply Pos2Z.inj.
  change (Z.pos (digits2_pos m)) with (Zdigits2 (Z.pos m)).
  pose proof (Zdigits2_le (Z.pos m) 53 ltac:(lia) ltac:(lia)) as Hle.
  pose proof (Zdigits2_upper (Z.pos m) ltac:(lia)) as Hup.
  pose proof (Zdigits2_nonneg (Z.pos m)) as H0.
  destruct (Z.le_gt_cases (Zdigits2 (Z.pos m)) 52) as [H52|H52]; [|lia].
  exfalso.
  pose proof (Z.pow_le_mono_r 2 _ 52 ltac:(lia) H52) as Hp. lia.
Qed.

(** X10.  The unit is chosen before the number is rounded, so a value just below
    a threshold is printed as 1000.00 of the smaller unit: every binary64
    from the literal 999.995 up to, but not including, 1000 is displayed
    as "1000.00 Ω". *)
Theorem human_rounds_up_to_1000 v :
  fle (lit 999995 1000) v = true → flt v (of_int 1000) = true →
  human (Some v) = Some "1000.00 Ω".
Proof.
  intros Hlo Hhi.
  assert (lit 999995 1000 = S754_finite false 8796049041742889 (-43)) as Elo
    by (vm_compute; reflexivity).
  assert (of_int 1000 = S754_finite false 8796093022208000 (-43)) as Ehi
    by (vm_compute; reflexivity).
  rewrite Elo in Hlo. rewrite Ehi in Hhi.
  apply fle_key in Hlo as (_ & _ & Hlo). apply flt_key in Hhi as (_ & _ & Hhi).
  assert (∃ m, v = S754_finite false m (-43)
               ∧ 8796049041742889 ≤ Z.pos m < 8796093022208000)
    as (m & -> & Hm).
  { destruct v as [s|[]| |[] m e];
      try (exfalso; apply Hlo; reflexivity); try discriminate Hhi.
    exists m.
    unfold lex3, fkey in Hlo, Hhi. cbn [fst snd] in Hlo, Hhi.
    change (1 ?= 1) with Eq in *. cbv iota in Hlo, Hhi.
    destruct (Z.compare_spec (-43) e) as [Heq|Hlt|Hgt]; [|exfalso..].
    - subst e. rewrite Z.compare_refl in Hhi.
      rewrite Z.compare_lt_iff in Hhi. rewrite Z.compare_le_iff in Hlo.
      split; [done|lia].
    - rewrite (proj2 (Z.compare_gt_iff e (-43))) in Hhi by lia.
      discriminate Hhi.
    - apply Hlo. reflexivity. }
  unfold human, UNITS. f_equal.
  rewrite !human_units_cons.
  assert (of_int 1000000000 = S754_finite false 8388608000000000 (-23)) as ->
    by (vm_compute; reflexivity).
  assert (of_int 1000000 = S754_finite false 8589934592000000 (-33)) as ->
    by (vm_compute; reflexivity).
  rewrite Ehi.
  assert (of_int 1 = S754_finite false 4503599627370496 (-52)) as E1
    by (vm_compute; reflexivity).
  rewrite E1.
  change (fge (S754_finite false m (-43))
            (S754_finite false 8388608000000000 (-23))) with false.
  change (fge (S754_finite false m (-43))
            (S754_finite false 8589934592000000 (-33))) with false.
  change (fge (S754_finite false m (-43))
            (S754_finite false 4503599627370496 (-52))) with true.
  assert (fge (S754_finite false m (-43))
            (S754_finite false 8796093022208000 (-43)) = false) as ->.
  { unfold fge, SFleb, SFcompare. rewrite Z.compare_refl.
    change (Pcompare 8796093022208000 m Eq)
      with (8796093022208000 ?= m)%positive.
    destruct (Pos.compare_spec 8796093022208000 m) as [H|H|H];
      [lia|lia|reflexivity]. }
  cbv iota. rewrite <- E1, fdiv_one_normal; [|apply digits_53; lia|lia].
  unfold format_2f. rewrite (hundredths_near_1000 m Hm). by vm_compute.
Qed.

Lemma human_rounds_up_to_1000_witness :
  human (Some (lit 999999 1000)) = Some "1000.00 Ω".
Proof. apply human_rounds_up_to_1000; by vm_compute. Defined.

(* ===================================================================== *)
(** * Snapping a value of the E24 series *)
(* ===================================================================== *)

Lemma snap_at_decade np_log10 np_power D v :
  fle v (of_int 0) = false → decade_of np_log10 np_power v = D →
  snap_e24 np_log10 np_power (Some v) = Some (snap_at D v).
Proof. intros Hv <-. unfold snap_e24. by rewrite Hv. Qed.

Lemma snaps_close_checked :
  forallb (λ e, forallb (λ mk, snaps_close e mk.1 (mk.2 + 1)
                               && snaps_close (10 * e) mk.1 (mk.2 + 2))
                  DECADES) E24_INTS = true.
Proof. vm_compute. reflexivity. Qed.

Lemma snaps_close_spec np_log10 np_power n m j :
  snaps_close n m j = true →
  decade_of np_log10 np_power (fmul (of_int n) m) = pow10 j →
  ∃ r, snap_e24 np_log10 np_power (Some (fmul (of_int n) m)) = Some r
       ∧ r ∈ neighbours (fmul (of_int n) m)
       ∧ human (Some r) = human (Some (fmul (of_int n) m)).
Proof.
  unfold snaps_close. cbv zeta.
  intros [[Hpos Hnear]%andb_prop Hshow]%andb_prop HD.
  apply negb_true_iff in Hpos.
  exists (snap_at (pow10 j) (fmul (of_int n) m)).
  split; [by apply snap_at_decade|]. split.
  - apply existsb_exists in Hnear as (x & Hin & Hx).
    apply float_same_eq in Hx. rewrite Hx. by apply list_elem_of_In.
  - unfold human. f_equal. by apply String.eqb_eq.
Qed.

(** X11.  The decoder's value for two digits that form a number [e] of the E24
    series and a multiplier [m] of the colour table is the product
    [e * m]; for three such digits it is [(10 * e) * m].  When the library
    functions give the decade of that value as the binary64 nearest to
    its power of ten, the snapper returns the value itself or one of its
    two neighbours among the binary64 numbers, and the snapped value is
    displayed exactly like the value.  It need not be equal to it: in
    the decade 100 the value 110 is snapped to the next larger binary64
    number. *)
Theorem snap_keeps_display np_log10 np_power :
  (∀ e m k,
      e ∈ E24_INTS → (m, k) ∈ DECADES →
      let v := fmul (of_int e) m in
      decade_of np_log10 np_power v = pow10 (k + 1) →
      ∃ r, snap_e24 np_log10 np_power (Some v) = Some r
           ∧ r ∈ neighbours v
           ∧ human (Some r) = human (Some v))
  ∧ (∀ e m k,
      e ∈ E24_INTS → (m, k) ∈ DECADES →
      let v := fmul (of_int (10 * e)) m in
      decade_of np_log10 np_power v = pow10 (k + 2) →
      ∃ r, snap_e24 np_log10 np_power (Some v) = Some r
           ∧ r ∈ neighbours v
           ∧ human (Some r) = human (Some v))
  ∧ (decade_of np_log10 np_power (of_int 110) = of_int 100 →
     snap_e24 np_log10 np_power (Some (of_int 110))
     = Some (SFsucc prec emax (of_int 110)))
  ∧ E24 = of_int <$> E24_INTS
  ∧ DECADES.*1 = MULTIPLIERS.
Proof.
  assert (∀ e m k, e ∈ E24_INTS → (m, k) ∈ DECADES →
            snaps_close e m (k + 1) = true
            ∧ snaps_close (10 * e) m (k + 2) = true) as Hall.
  { intros e m k He Hm. pose proof snaps_close_checked as H.
    rewrite forallb_forall in H.
    specialize (H e ltac:(by apply list_elem_of_In)).
    rewrite forallb_forall in H.
    specialize (H (m, k) ltac:(by apply list_elem_of_In)).
    by apply andb_prop in H. }
  split; [|split; [|split; [|split]]].
  - intros e m k He Hm v HD.
    apply (snaps_close_spec _ _ _ _ _ (proj1 (Hall e m k He Hm)) HD).
  - intros e m k He Hm v HD.
    apply (snaps_close_spec _ _ _ _ _ (proj2 (Hall e m k He Hm)) HD).
  - intros HD. rewrite (snap_at_decade _ _ (of_int 100));
      [|vm_compute; reflexivity|exact HD].
    vm_compute. reflexivity.
  - reflexivity.
  - vm_compute. reflexivity.
Qed.

(** 470 with the sample library: 47 * 10 in the decade 10^2. *)
Lemma snap_keeps_display_witness :
  ∃ r, snap_e24 sample_log10 sample_power
         (Some (fmul (of_int 47) (of_int 10))) = Some r
       ∧ r ∈ neighbours (fmul (of_int 47) (of_int 10))
       ∧ human (Some r) = human (Some (fmul (of_int 47) (of_int 10))).
Proof.
  apply (proj1 (snap_keeps_display sample_log10 sample_power) 47 (of_int 10) 1).
  - unfold E24_INTS. in_list.
  - unfold DECADES. in_list.
  - vm_compute. reflexivity.
Defined.

(* ===================================================================== *)
(** * Rounding brackets *)
(* ===================================================================== *)

Lemma Zdigits2_lower z : 0 < z → 2 ^ (Zdigits2 z - 1) ≤ z.
Proof.
  destruct z as [|p|p]; try lia. intros _.
  change (Zdigits2 (Z.pos p)) with (Z.pos (digits2_pos p)).
  rewrite digits2_pos_size.
  pose proof (Pos.size_le p) as H.
  assert (2 ^ Z.pos (Pos.size p) ≤ 2 * Z.pos p) as H'.
  { change (2 * Z.pos p) with (Z.pos p~0).
    rewrite <- Pos2Z.inj_pow. by apply Pos2Z.pos_le_pos. }
  replace (Z.pos (Pos.size p)) with (1 + (Z.pos (Pos.size p) - 1)) in H'
    by lia.
  rewrite Z.pow_add_r, Z.pow_1_r in H' by lia. lia.
Qed.

Lemma Zdigits2_eq z k : 0 < k → 2 ^ (k - 1) ≤ z < 2 ^ k → Zdigits2 z = k.
Proof.
  intros Hk Hz.
  assert (0 < z) as Hpos by (pose proof (Z.pow_pos_nonneg 2 (k - 1)); lia).
  pose proof (Zdigits2_le z k ltac:(lia) ltac:(lia)) as Hle.
  pose proof (Zdigits2_upper z ltac:(lia)) as Hup.
  pose proof (Zdigits2_nonneg z) as H0.
  destruct (Z.le_gt_cases k (Zdigits2 z)) as [|Hlt]; [lia|]. exfalso.
  pose proof (Z.pow_le_mono_r 2 (Zdigits2 z) (k - 1) ltac:(lia) ltac:(lia)).
  lia.
Qed.

Lemma pos_iter_xO m d : Z.pos (Pos.iter xO m d) = Z.pos m * 2 ^ Z.pos d.
Proof.
  induction d as [|d IH] using Pos.peano_ind.
  - simpl. lia.
  - rewrite Pos.iter_succ, Pos2Z.inj_xO, IH, Pos2Z.inj_succ, Z.pow_succ_r
      by lia. lia.
Qed.

(** A mantissa of at most 53 digits with an exponent in range is not
    touched by the rounding. *)
Lemma round_aux_exact m e :
  Zdigits2 (Z.pos m) ≤ 53 → -1074 ≤ e ≤ 971 →
  binary_round_aux prec emax false (Z.pos m) e loc_Exact
  = S754_finite false m e.
Proof.
  intros Hd He.
  assert (shr_fexp prec emax (Z.pos m) e loc_Exact
          = (shr_record_of_loc (Z.pos m) loc_Exact, e)) as Hs.
  { unfold shr_fexp, shr.
    assert (fexp prec emax (Zdigits2 (Z.pos m) + e) - e ≤ 0) as Hn
      by (rewrite fexp_eq; lia).
    destruct (fexp prec emax (Zdigits2 (Z.pos m) + e) - e); [done|lia|done]. }
  unfold binary_round_aux. rewrite Hs.
  change (round_nearest_even _ _) with (Z.pos m). rewrite Hs.
  change (shr_m (shr_record_of_loc (Z.pos m) loc_Exact)) with (Z.pos m).
  by assert ((e <=? emax - prec) = true) as ->
    by (apply Z.leb_le; unfold emax, prec; lia).
Qed.

(** [float(z)] for a positive integer below 2^53 is exact: a mantissa of
    53 digits times a power of two between 2^-52 and 1. *)
Lemma of_int_exact z :
  1 ≤ z < 2 ^ 53 →
  ∃ m t, of_int z = S754_finite false m (- t)
         ∧ 0 ≤ t ≤ 52 ∧ Z.pos m = z * 2 ^ t
         ∧ 2 ^ 52 ≤ Z.pos m < 2 ^ 53.
Proof.
  intros Hz. destruct z as [|p|p]; try lia.
  unfold of_int, binary_normalize, binary_round, shl_align.
  pose proof (Zdigits2_upper (Z.pos p) ltac:(lia)) as Hup.
  pose proof (Zdigits2_lower (Z.pos p) ltac:(lia)) as Hlo.
  pose proof (Zdigits2_le (Z.pos p) 53 ltac:(lia) ltac:(lia)) as Hle.
  change (Zdigits2 (Z.pos p)) with (Z.pos (digits2_pos p)) in *.
  set (d := Z.pos (digits2_pos p)) in *.
  assert (1 ≤ d) as Hd1 by (unfold d; lia).
  rewrite fexp_eq. replace (Z.max (d + 0 - 53) (-1074)) with (d - 53) by lia.
  destruct (d - 53 - 0) as [|k|k] eqn:Ek; try lia.
  - exists p, 0. assert (d = 53) as Hd by lia.
    rewrite round_aux_exact;
      [|change (Zdigits2 (Z.pos p)) with d; lia|lia].
    replace (d - 53) with 0 by lia. rewrite Hd in Hlo.
    split; [done|]. split; [lia|]. split; [lia|]. simpl in *. lia.
  - exists (Pos.iter xO p k), (Z.pos k).
    assert (Z.pos k = 53 - d) as Hk by lia.
    assert (2 ^ 52 ≤ Z.pos p * 2 ^ Z.pos k < 2 ^ 53) as Hb.
    { rewrite Hk.
      assert (2 ^ 52 = 2 ^ (d - 1) * 2 ^ (53 - d)) as E52
        by (rewrite <- Z.pow_add_r by lia; f_equal; lia).
      assert (2 ^ 53 = 2 ^ d * 2 ^ (53 - d)) as E53
        by (rewrite <- Z.pow_add_r by lia; f_equal; lia).
      pose proof (Z.pow_pos_nonneg 2 (53 - d) ltac:(lia) ltac:(lia)).
      rewrite E52, E53. split; [apply Z.mul_le_mono_nonneg_r; lia|].
      apply Z.mul_lt_mono_pos_r; lia. }
    rewrite round_aux_exact.
    + replace (d - 53) with (- Z.pos k) by lia.
      rewrite pos_iter_xO. split; [done|]. split; [lia|]. split; [done|].
      exact Hb.
    + rewrite pos_iter_xO. rewrite (Zdigits2_eq _ 53); [lia|lia|exact Hb].
    + lia.
Qed.

(** The general bracket: a positive mantissa [m] with exponent [e] is
    rounded to a binary64 whose value, counted in units of [2^e], lies
    within [2^n] of [m], where [n] is the number of digits of [m] beyond
    53. *)
Lemma round_aux_value m e l :
  0 < m → -1074 ≤ e ≤ 971 → Zdigits2 m + e ≤ 1023 →
  let n := Z.max 0 (Zdigits2 m - 53) in
  ∃ mr j, binary_round_aux prec emax false m e l
          = S754_finite false mr (e + j)
          ∧ 0 ≤ j ≤ n + 1
          ∧ Z.pos mr < 2 ^ 53
          ∧ m - 2 ^ n < Z.pos mr * 2 ^ j ≤ m + 2 ^ n.
Proof.
  intros Hm He Hd n. unfold binary_round_aux.
  pose proof (Zdigits2_nonneg m) as Hdm.
  destruct (shr_fexp_spec m e l ltac:(lia)) as (mrs1 & e1 & -> & He1 & Hm1).
  rewrite fexp_eq in He1.
  assert (e1 = e + n) as -> by (unfold n; lia).
  replace (e + n - e) with n in Hm1 by lia.
  assert (0 ≤ n) as Hn by (unfold n; lia).
  pose proof (Z.pow_pos_nonneg 2 n ltac:(lia) Hn) as Hpn.
  assert (0 ≤ shr_m mrs1) as Hm1pos by (rewrite Hm1; apply Z.div_pos; lia).
  pose proof (Z.div_mod m (2 ^ n) ltac:(lia)) as Hdiv.
  pose proof (Z.mod_pos_bound m (2 ^ n) ltac:(lia)) as Hmod.
  rewrite <- Hm1 in Hdiv.
  assert (shr_m mrs1 < 2 ^ 53) as Hm1lt.
  { pose proof (Zdigits2_div_pow2 m n ltac:(lia) Hn) as Hc.
    rewrite <- Hm1 in Hc.
    pose proof (Zdigits2_upper (shr_m mrs1) Hm1pos) as Hu.
    pose proof (Z.pow_le_mono_r 2 (Zdigits2 (shr_m mrs1)) 53 ltac:(lia)
                  ltac:(unfold n in Hc; lia)). lia. }
  assert (1 ≤ shr_m mrs1) as Hm1ge.
  { destruct (Z.le_gt_cases 1 (shr_m mrs1)) as [|Hlt]; [done|].
    assert (shr_m mrs1 = 0) as H0 by lia. rewrite H0 in Hdiv.
    pose proof (Zdigits2_lower m Hm) as Hlo.
    destruct (Z.le_gt_cases (Zdigits2 m) 53) as [Hs|Hs].
    - assert (n = 0) as Hn0 by (unfold n; lia). rewrite Hn0 in *.
      simpl in *. lia.
    - assert (n = Zdigits2 m - 53) as Hn0 by (unfold n; lia).
      pose proof (Z.pow_le_mono_r 2 n (Zdigits2 m - 1) ltac:(lia)
                    ltac:(lia)). lia. }
  pose proof (round_nearest_even_bounds (shr_m mrs1)
                (loc_of_shr_record mrs1) Hm1pos) as Hr.
  set (m2 := round_nearest_even (shr_m mrs1) (loc_of_shr_record mrs1)) in *.
  destruct (shr_fexp_spec m2 (e + n) loc_Exact ltac:(lia))
    as (mrs2 & e2 & -> & He2 & Hm2).
  rewrite fexp_eq in He2.
  destruct (Z.eq_dec m2 (2 ^ 53)) as [Heq|Hne].
  - (* the carry: one more shift, which is exact *)
    rewrite Heq in He2, Hm2.
    change (Zdigits2 (2 ^ 53)) with 54 in He2.
    assert (e2 = e + n + 1) as -> by lia.
    replace (e + n + 1 - (e + n)) with 1 in Hm2 by lia.
    change (2 ^ 53 / 2 ^ 1) with (2 ^ 52) in Hm2. rewrite Hm2.
    change (2 ^ 52) with (Z.pos 4503599627370496).
    assert ((e + n + 1 <=? emax - prec) = true) as ->.
    { apply Z.leb_le. unfold emax, prec.
      assert (53 ≤ Zdigits2 m); [|unfold n; lia].
      destruct (Z.le_gt_cases 53 (Zdigits2 m)) as [|Hlt]; [done|]. exfalso.
      pose proof (Zdigits2_upper m ltac:(lia)) as Hu.
      pose proof (Z.pow_le_mono_r 2 (Zdigits2 m) 52 ltac:(lia) ltac:(lia)).
      assert (2 ^ 52 < 2 ^ 53 - 1) by (simpl; lia). nia. }
    exists 4503599627370496%positive, (n + 1).
    split; [f_equal; lia|]. split; [lia|]. split; [done|].
    rewrite Z.pow_add_r, Z.pow_1_r by lia.
    change (Z.pos 4503599627370496) with (2 ^ 52).
    assert (2 ^ 52 * (2 ^ n * 2) = m2 * 2 ^ n) as -> by (rewrite Heq; lia).
    nia.
  - assert (m2 < 2 ^ 53) as Hlt by lia.
    pose proof (Zdigits2_le m2 53 ltac:(lia) ltac:(lia)) as Hd2.
    pose proof (Zdigits2_nonneg m2) as Hd20.
    assert (e2 = e + n) as -> by lia.
    rewrite Z.sub_diag, Z.pow_0_r, Z.div_1_r in Hm2. rewrite Hm2.
    destruct m2 as [|q|q] eqn:Eq; try lia.
    assert ((e + n <=? emax - prec) = true) as ->.
    { apply Z.leb_le. unfold emax, prec. unfold n. lia. }
    exists q, n. split; [done|]. split; [lia|]. split; [lia|]. nia.
Qed.

(* ===================================================================== *)
(** * The size of the resized image *)
(* ===================================================================== *)

(** [int] of a positive binary64 is the floor of its value; here with
    both sides scaled by [2^c]. *)
Lemma float_to_int_floor m e c :
  0 ≤ c → 0 ≤ c + e →
  ∃ k, float_to_int (S754_finite false m e) = Ok k
       ∧ k * 2 ^ c ≤ Z.pos m * 2 ^ (c + e) < (k + 1) * 2 ^ c.
Proof.
  intros Hc Hce. unfold float_to_int, cond_Zopp.
  destruct (Z.leb_spec 0 e) as [He|He].
  - exists (Z.pos m * 2 ^ e). split; [done|].
    rewrite Z.pow_add_r by lia.
    pose proof (Z.pow_pos_nonneg 2 c ltac:(lia) Hc).
    pose proof (Z.pow_pos_nonneg 2 e ltac:(lia) He). nia.
  - exists (Z.pos m / 2 ^ (- e)). split; [done|].
    pose proof (Z.pow_pos_nonneg 2 (- e) ltac:(lia) ltac:(lia)) as HD.
    pose proof (Z.pow_pos_nonneg 2 (c + e) ltac:(lia) Hce) as HF.
    assert (2 ^ c = 2 ^ (c + e) * 2 ^ (- e)) as ->
      by (rewrite <- Z.pow_add_r by lia; f_equal; lia).
    pose proof (Z.div_mod (Z.pos m) (2 ^ (- e)) ltac:(lia)) as Hdiv.
    pose proof (Z.mod_pos_bound (Z.pos m) (2 ^ (- e)) ltac:(lia)) as Hmod.
    nia.
Qed.

(** The quotient [1024 / float(s)]: its mantissa [mr], counted in units
    of [2^(t - 95)], times the mantissa of [float(s)] is [2^105] up to
    three units of the divisor. *)
Lemma fdiv_1024 ms t :
  2 ^ 52 ≤ Z.pos ms < 2 ^ 53 → 0 ≤ t ≤ 52 →
  ∃ mr j, fdiv (of_int 1024) (S754_finite false ms (- t))
          = S754_finite false mr (t - 95 + j)
          ∧ 0 ≤ j ≤ 2 ∧ Z.pos mr < 2 ^ 53
          ∧ 2 ^ 105 - 2 ^ 55 < Z.pos ms * (Z.pos mr * 2 ^ j)
            ≤ 2 ^ 105 + 2 ^ 54.
Proof.
  intros Hms Ht.
  assert (of_int 1024 = S754_finite false 4503599627370496 (-42)) as ->
    by (vm_compute; reflexivity).
  unfold fdiv, SFdiv, SFdiv_core_binary.
  rewrite (Zdigits2_eq (Z.pos ms) 53) by (done || lia).
  change (Zdigits2 4503599627370496) with 53.
  replace (Z.min (fexp prec emax (53 + -42 - (53 + - t))) (-42 - - t))
    with (t - 95) by (rewrite fexp_eq; lia).
  replace (-42 - - t - (t - 95)) with 53 by lia.
  change (Z.shiftl 4503599627370496 53) with (2 ^ 105).
  destruct (Z.div_eucl (2 ^ 105) (Z.pos ms)) as [q r] eqn:E.
  pose proof (Z.div_eucl_eq (2 ^ 105) (Z.pos ms) ltac:(lia)) as Heq.
  pose proof (Z.mod_pos_bound (2 ^ 105) (Z.pos ms) ltac:(lia)) as Hmod.
  unfold Z.modulo in Hmod. rewrite E in Heq, Hmod.
  assert (2 ^ 52 ≤ q ≤ 2 ^ 53) as Hq.
  { change (2 ^ 105) with (2 ^ 52 * 2 ^ 53) in Heq. nia. }
  assert (Zdigits2 q ≤ 54) as Hdq by (apply Zdigits2_le; lia).
  pose proof (Zdigits2_nonneg q) as Hdq0.
  cbv beta iota zeta. change (xorb false false) with false.
  destruct (round_aux_value q (t - 95) (new_location (Z.pos ms) r)
              ltac:(lia) ltac:(lia) ltac:(lia))
    as (mr & j & -> & Hj & Hmr & Hv).
  exists mr, j. split; [done|]. split; [lia|]. split; [done|].
  assert (1 ≤ 2 ^ Z.max 0 (Zdigits2 q - 53) ≤ 2) as Hn.
  { destruct (Z.max_spec 0 (Zdigits2 q - 53)) as [[H ->] | [H ->]].
    - assert (Zdigits2 q - 53 = 1) as -> by lia. done.
    - done. }
  nia.
Qed.

(** One side [w] of an image whose longer side [s] exceeds 1024: the
    side as computed by [int(w * (1024 / float(s)))] brackets the exact
    quotient. *)
Lemma scaled_side w s :
  1 ≤ w ≤ s → 1025 ≤ s < 2 ^ 31 →
  ∃ fw fs k,
    py_float w = Ok fw ∧ py_float s = Ok fs
    ∧ py_div (of_int 1024) fs = Ok (fdiv (of_int 1024) fs)
    ∧ float_to_int (fmul fw (fdiv (of_int 1024) fs)) = Ok k
    ∧ 0 ≤ k ∧ s * k ≤ 1024 * w ≤ s * (k + 1).
Proof.
  intros Hw Hs.
  assert (2 ^ 31 < 2 ^ 53) as H31 by done.
  destruct (of_int_exact w ltac:(lia)) as (mw & tw & Ew & Htw & Hmw & Hmwb).
  destruct (of_int_exact s ltac:(lia)) as (ms & ts & Es & Hts & Hms & Hmsb).
  exists (of_int w), (of_int s).
  destruct (fdiv_1024 ms ts Hmsb Hts) as (mr & j & Er & Hj & Hmr & HM).
  set (M := Z.pos ms * (Z.pos mr * 2 ^ j)) in *.
  (* the product *)
  assert (1 ≤ Z.pos mr) as Hmr1 by lia.
  set (P := Z.pos (mw * mr)).
  assert (P = Z.pos mw * Z.pos mr) as HP by (unfold P; lia).
  assert (2 ^ 52 ≤ P < 2 ^ 106) as HPb.
  { change (2 ^ 106) with (2 ^ 53 * 2 ^ 53). nia. }
  pose proof (Zdigits2_le P 106 ltac:(lia) ltac:(lia)) as HdP.
  assert (53 ≤ Zdigits2 P) as HdP53.
  { destruct (Z.le_gt_cases 53 (Zdigits2 P)) as [|Hlt]; [done|]. exfalso.
    pose proof (Zdigits2_upper P ltac:(lia)) as Hu.
    pose proof (Zdigits2_nonneg P).
    pose proof (Z.pow_le_mono_r 2 (Zdigits2 P) 52 ltac:(lia) ltac:(lia)).
    lia. }
  set (n := Z.max 0 (Zdigits2 P - 53)).
  assert (n = Zdigits2 P - 53) as Hn by (unfold n; lia).
  assert (2 ^ n * 2 ^ 52 ≤ P) as HN.
  { rewrite <- Z.pow_add_r by lia.
    replace (n + 52) with (Zdigits2 P - 1) by lia.
    apply Zdigits2_lower. lia. }
  destruct (round_aux_value P (- tw + (ts - 95 + j)) loc_Exact
              ltac:(lia) ltac:(lia) ltac:(lia))
    as (mp & i & Ep & Hi & _ & Hv).
  fold n in Hv, Hi.
  destruct (float_to_int_floor mp (- tw + (ts - 95 + j) + i) 200
              ltac:(lia) ltac:(lia)) as (k & Ek & Hk).
  exists k.
  assert (is_finite (of_int w) = true) as Hfw by (by rewrite Ew).
  assert (is_finite (of_int s) = true) as Hfs by (by rewrite Es).
  unfold py_float, py_div. rewrite Hfw, Hfs.
  assert (feq (of_int s) (of_int 0) = false) as -> by (by rewrite Es).
  split; [done|]. split; [done|]. split; [done|].
  assert (fmul (of_int w) (fdiv (of_int 1024) (of_int s))
          = S754_finite false mp (- tw + (ts - 95 + j) + i)) as ->.
  { rewrite Es, Er, Ew. exact Ep. }
  split; [exact Ek|].
  (* powers of two *)
  pose proof (Z.pow_pos_nonneg 2 tw ltac:(lia) ltac:(lia)) as HA.
  pose proof (Z.pow_pos_nonneg 2 ts ltac:(lia) ltac:(lia)) as HB.
  pose proof (Z.pow_pos_nonneg 2 j ltac:(lia) ltac:(lia)) as HJ.
  pose proof (Z.pow_pos_nonneg 2 i ltac:(lia) ltac:(lia)) as HI.
  pose proof (Z.pow_pos_nonneg 2 n ltac:(lia) ltac:(lia)) as HNpos.
  set (G := 2 ^ (105 - tw + ts)).
  assert (0 < G) as HG by (apply Z.pow_pos_nonneg; lia).
  assert (G * 2 ^ tw = 2 ^ 105 * 2 ^ ts) as HGA.
  { unfold G. rewrite <- !Z.pow_add_r by lia. f_equal. lia. }
  set (X := Z.pos mp * 2 ^ (200 + (- tw + (ts - 95 + j) + i))) in *.
  assert (X = Z.pos mp * 2 ^ i * (2 ^ j * G)) as HX.
  { unfold X, G. rewrite <- Z.mul_assoc. f_equal.
    rewrite <- !Z.pow_add_r by lia. f_equal. lia. }
  set (Vp := Z.pos mp * 2 ^ i) in *.
  set (Q := P * (2 ^ j * G)).
  assert (0 < 2 ^ j * G) as HJG by lia.
  assert (s * Q = 2 ^ 105 * (w * M)) as HsQ.
  { unfold Q, M. rewrite HP, Hms, Hmw.
    replace (w * 2 ^ tw * Z.pos mr * (2 ^ j * G))
      with (w * (Z.pos mr * 2 ^ j) * (G * 2 ^ tw)) by ring.
    rewrite HGA. ring. }
  assert (2 ^ 52 * X ≤ (2 ^ 52 + 1) * Q) as HXhi.
  { rewrite HX. unfold Q.
    assert (2 ^ 52 * Vp ≤ (2 ^ 52 + 1) * P) by lia.
    replace (2 ^ 52 * (Vp * (2 ^ j * G)))
      with (2 ^ 52 * Vp * (2 ^ j * G)) by ring.
    replace ((2 ^ 52 + 1) * (P * (2 ^ j * G)))
      with ((2 ^ 52 + 1) * P * (2 ^ j * G)) by ring.
    apply Z.mul_le_mono_nonneg_r; lia. }
  assert ((2 ^ 52 - 1) * Q < 2 ^ 52 * X) as HXlo.
  { rewrite HX. unfold Q.
    assert ((2 ^ 52 - 1) * P < 2 ^ 52 * Vp) by lia.
    replace (2 ^ 52 * (Vp * (2 ^ j * G)))
      with (2 ^ 52 * Vp * (2 ^ j * G)) by ring.
    replace ((2 ^ 52 - 1) * (P * (2 ^ j * G)))
      with ((2 ^ 52 - 1) * P * (2 ^ j * G)) by ring.
    apply Z.mul_lt_mono_pos_r; lia. }
  assert (0 < Q) as HQ by (unfold Q; apply Z.mul_pos_pos; lia).
  assert (0 < M) as HMpos by (simpl in HM; lia).
  (* the product against the exact quotient, both times [s * 2^252] *)
  assert (s * (2 ^ 52 * X) ≤ (2 ^ 52 + 1) * (2 ^ 105 * (w * M))) as H1.
  { rewrite <- HsQ.
    replace ((2 ^ 52 + 1) * (s * Q)) with (s * ((2 ^ 52 + 1) * Q)) by ring.
    apply Z.mul_le_mono_nonneg_l; lia. }
  assert ((2 ^ 52 - 1) * (2 ^ 105 * (w * M)) < s * (2 ^ 52 * X)) as H1'.
  { rewrite <- HsQ.
    replace ((2 ^ 52 - 1) * (s * Q)) with (s * ((2 ^ 52 - 1) * Q)) by ring.
    apply Z.mul_lt_mono_pos_l; lia. }
  assert (w * M ≤ w * (2 ^ 105 + 2 ^ 54)) as H2
    by (apply Z.mul_le_mono_nonneg_l; lia).
  assert (w * (2 ^ 105 - 2 ^ 55) ≤ w * M) as H2'
    by (apply Z.mul_le_mono_nonneg_l; lia).
  cbv beta in Hk. fold X in Hk.
  assert (0 ≤ X) as HX0
    by (unfold X; apply Z.mul_nonneg_nonneg; [lia|apply Z.pow_nonneg; lia]).
  assert (0 ≤ k) as Hk0.
  { destruct (Z.le_gt_cases 0 k) as [|Hneg]; [done|]. exfalso.
    assert ((k + 1) * 2 ^ 200 ≤ 0)
      by (apply Z.mul_nonpos_nonneg; [lia|done]).
    lia. }
  split; [done|].
  assert (s * (k * 2 ^ 200) ≤ s * X) as H3
    by (apply Z.mul_le_mono_nonneg_l; lia).
  assert (s * X < s * ((k + 1) * 2 ^ 200)) as H4
    by (apply Z.mul_lt_mono_pos_l; lia).
  split.
  - destruct (Z.le_gt_cases (s * k) (1024 * w)) as [|Hgt]; [done|]. exfalso.
    simpl in *. lia.
  - destruct (Z.le_gt_cases (1024 * w) (s * (k + 1))) as [|Hgt]; [done|].
    exfalso. simpl in *. lia.
Qed.

(** The bracket as a statement on the quotient: the computed side is the
    floor of the exact quotient, or one less when the quotient is an
    integer. *)
Lemma scaled_quotient w s k :
  1 ≤ w ≤ s → 1025 ≤ s → 0 ≤ k → s * k ≤ 1024 * w ≤ s * (k + 1) →
  1024 * w / s - 1 ≤ k ≤ 1024 * w / s
  ∧ ((1024 * w) mod s ≠ 0 → k = 1024 * w / s)
  ∧ k < w ∧ k ≤ 1024 ∧ (w = s → 1023 ≤ k).
Proof.
  intros Hw Hs Hk0 [Hlo Hhi].
  pose proof (Z.div_mod (1024 * w) s ltac:(lia)) as Hdiv.
  pose proof (Z.mod_pos_bound (1024 * w) s ltac:(lia)) as Hmod.
  set (q := 1024 * w / s) in *. set (r := (1024 * w) mod s) in *.
  assert (k ≤ q) as Hkq by nia.
  assert (q - 1 ≤ k) as Hqk by nia.
  split; [lia|]. split; [intros Hr; nia|].
  split; [nia|]. split; [nia|]. intros ->. nia.
Qed.

Section ImageFacts.

Context {Image : Type}.
Variable img_size : Image → Z * Z.
Variable img_resize : Image → Z * Z → result Image.

Local Abbreviation resized := (resize_max img_size img_resize).

(** The call of [img.resize] that [resize_max] ends with. *)
Lemma resize_max_call img w h :
  img_size img = (w, h) → 1 ≤ w < 2 ^ 31 → 1 ≤ h < 2 ^ 31 →
  1024 < Z.max w h →
  ∃ w' h',
    resized img 1024 = img_resize img (w', h')
    ∧ 0 ≤ w' ∧ Z.max w h * w' ≤ 1024 * w ≤ Z.max w h * (w' + 1)
    ∧ 0 ≤ h' ∧ Z.max w h * h' ≤ 1024 * h ≤ Z.max w h * (h' + 1).
Proof.
  intros Hsize Hw Hh Hgt. unfold resize_max. rewrite Hsize.
  destruct (Z.leb_spec (Z.max w h) 1024) as [Hle|_]; [lia|].
  destruct (scaled_side w (Z.max w h) ltac:(lia) ltac:(lia))
    as (fw & fs & kw & Efw & Efs & Ediv & Ekw & Hkw0 & Hkw).
  destruct (scaled_side h (Z.max w h) ltac:(lia) ltac:(lia))
    as (fh & fs' & kh & Efh & Efs' & _ & Ekh & Hkh0 & Hkh).
  assert (fs' = fs) as -> by congruence.
  exists kw, kh. rewrite Efs. cbn [mbind result_bind].
  assert (py_float 1024 = Ok (of_int 1024)) as ->
    by (vm_compute; reflexivity).
  cbn [mbind result_bind]. rewrite Ediv. cbn [mbind result_bind].
  rewrite Efw. cbn [mbind result_bind]. rewrite Ekw.
  cbn [mbind result_bind]. rewrite Efh. cbn [mbind result_bind].
  rewrite Ekh. cbn [mbind result_bind]. done.
Qed.

(** An image more than 1024 times as long as wide: the shorter side
    becomes 0, which [img.resize] refuses. *)
Lemma resize_max_refused img w h :
  img_size img = (w, h) → 1 ≤ w < 2 ^ 31 → 1 ≤ h < 2 ^ 31 →
  1024 * Z.min w h < Z.max w h →
  rejects_empty_size img_resize →
  resized img 1024 = Raise ValueError.
Proof.
  intros Hsize Hw Hh Hmin Hrej.
  destruct (resize_max_call img w h Hsize Hw Hh ltac:(lia))
    as (w' & h' & -> & Hw0 & Hwb & Hh0 & Hhb).
  apply Hrej.
  destruct (Z.min_spec w h) as [[H Hm] | [H Hm]].
  - assert (w' = 0) by nia. lia.
  - assert (h' = 0) by nia. lia.
Qed.

(** X12.  For an image of at least one pixel each way (and sides below 2^31)
    the arithmetic of [resize_max] with the bound 1024 never raises.  An
    image whose longer side [s] is at most 1024 is returned as it is.
    Otherwise [img.resize] is called, for each side with the floor of
    the exact quotient [1024 * side / s] or, when the quotient is an
    integer, possibly with one less: both sides shrink and none exceeds
    1024, but the longer side becomes 1023 or 1024, not always 1024
    (1122 by 1000 is resized to 1023 by 912).  The shorter side is at
    least 1 when the image is at most 512 times as long as wide, and it
    is 0 when the image is more than 1024 times as long as wide; where
    [img.resize] refuses a side below 1 with a [ValueError], as Pillow
    does, [resize_max] raises it.  A side that is exactly a 1024th of
    the longer can become 0 as well (49 by 50176 is resized to 0 by
    1023). *)
Theorem resize_max_size :
  (∀ img w h,
      img_size img = (w, h) → 1 ≤ w < 2 ^ 31 → 1 ≤ h < 2 ^ 31 →
      let s := Z.max w h in
      (s ≤ 1024 → resized img 1024 = Ok img)
      ∧ (1024 < s →
         ∃ w' h',
           resized img 1024 = img_resize img (w', h')
           ∧ 1024 * w / s - 1 ≤ w' ≤ 1024 * w / s
           ∧ 1024 * h / s - 1 ≤ h' ≤ 1024 * h / s
           ∧ ((1024 * w) mod s ≠ 0 → w' = 1024 * w / s)
           ∧ ((1024 * h) mod s ≠ 0 → h' = 1024 * h / s)
           ∧ 0 ≤ w' < w ∧ 0 ≤ h' < h
           ∧ 1023 ≤ Z.max w' h' ≤ 1024
           ∧ (2 * s ≤ 1024 * Z.min w h → 1 ≤ Z.min w' h')
           ∧ (1024 * Z.min w h < s →
              Z.min w' h' = 0
              ∧ (rejects_empty_size img_resize →
                 resized img 1024 = Raise ValueError))))
  ∧ (∀ img, img_size img = (1122, 1000) →
      resized img 1024 = img_resize img (1023, 912))
  ∧ (∀ img, img_size img = (49, 50176) →
      resized img 1024 = img_resize img (0, 1023)).
Proof.
  split; [|split; intros img Hsize; unfold resize_max; rewrite Hsize;
           vm_compute; reflexivity].
  intros img w h Hsize Hw Hh s. split.
  - intros Hle. unfold resize_max. rewrite Hsize. fold s.
    by destruct (Z.leb_spec s 1024) as [_|?]; [|lia].
  - intros Hgt.
    destruct (resize_max_call img w h Hsize Hw Hh Hgt)
      as (w' & h' & E & Hw0 & Hwb & Hh0 & Hhb). fold s in Hwb, Hhb.
    destruct (scaled_quotient w s w' ltac:(lia) ltac:(lia) Hw0 Hwb)
      as (Hwq & Hwr & Hwlt & Hw1024 & Hws).
    destruct (scaled_quotient h s h' ltac:(lia) ltac:(lia) Hh0 Hhb)
      as (Hhq & Hhr & Hhlt & Hh1024 & Hhs).
    exists w', h'. split; [exact E|].
    split; [exact Hwq|]. split; [exact Hhq|].
    split; [exact Hwr|]. split; [exact Hhr|].
    split; [lia|]. split; [lia|]. split.
    { destruct (Z.max_spec w h) as [[H Hm] | [H Hm]]; fold s in Hm.
      - specialize (Hhs ltac:(lia)). lia.
      - specialize (Hws ltac:(lia)). lia. }
    split.
    { intros Hmin. assert (2 ≤ w' + 1 ∧ 2 ≤ h' + 1); [|lia]. split.
      - destruct (Z.le_gt_cases 2 (w' + 1)) as [|Hlt]; [done|]. exfalso.
        assert (w' = 0) as -> by lia. lia.
      - destruct (Z.le_gt_cases 2 (h' + 1)) as [|Hlt]; [done|]. exfalso.
        assert (h' = 0) as -> by lia. lia. }
    intros Hmin.
    assert (Z.min w' h' = 0) as Hz.
    { destruct (Z.min_spec w h) as [[H Hm] | [H Hm]].
      - assert (w' = 0) by nia. lia.
      - assert (h' = 0) by nia. lia. }
    split; [exact Hz|].
    intros Hrej. by apply (resize_max_refused img w h).
Qed.

End ImageFacts.

Lemma sample_resize_rejects : rejects_empty_size sample_resize.
Proof.
  intros img w h H. unfold sample_resize. cbn [fst snd].
  destruct (Z.ltb_spec w 1), (Z.ltb_spec h 1); try done. lia.
Qed.

(** A photograph of 4032 by 3024 pixels is resized to at most 1024 by
    768, and a strip of 1 by 2000 pixels is refused. *)
Lemma resize_max_size_witness :
  (∃ w' h',
      resize_max sample_size sample_resize (4032, 3024) 1024
      = sample_resize (4032, 3024) (w', h')
      ∧ 1024 * 4032 / 4032 - 1 ≤ w' ≤ 1024 * 4032 / 4032
      ∧ 1024 * 3024 / 4032 - 1 ≤ h' ≤ 1024 * 3024 / 4032)
  ∧ resize_max sample_size sample_resize (1, 2000) 1024 = Raise ValueError.
Proof.
  pose proof (proj1 (resize_max_size sample_size sample_resize)) as H.
  split.
  - destruct (proj2 (H (4032, 3024) 4032 3024 eq_refl
                       ltac:(done) ltac:(done)) ltac:(done))
      as (w' & h' & E & Hw & Hh & _).
    exists w', h'. split; [exact E|]. split; [exact Hw|exact Hh].
  - destruct (proj2 (H (1, 2000) 1 2000 eq_refl
                       ltac:(done) ltac:(done)) ltac:(done))
      as (w' & h' & _ & _ & _ & _ & _ & _ & _ & _ & _ & Hstrip).
    apply Hstrip; [done|]. apply sample_resize_rejects.
Defined.

(* ===================================================================== *)
(** * The text between the braces *)
(* ===================================================================== *)

Lemma str_find_none c s : has_char c s = false → str_find c s = -1.
Proof.
  induction s as [|a s IH]; simpl; [done|].
  intros [Ha Hs]%orb_false_elim. by rewrite Ha, IH.
Qed.

Lemma str_rfind_none c s : has_char c s = false → str_rfind c s = -1.
Proof.
  induction s as [|a s IH]; simpl; [done|].
  intros [Ha Hs]%orb_false_elim. by rewrite Ha, IH.
Qed.

Lemma str_find_nonneg c s : -1 ≤ str_find c s.
Proof.
  induction s as [|a s IH]; simpl; [done|].
  destruct (Ascii.eqb a c); [done|].
  destruct (Z.eqb_spec (str_find c s) (-1)); lia.
Qed.

Lemma str_rfind_nonneg c s : -1 ≤ str_rfind c s.
Proof.
  induction s as [|a s IH]; simpl; [done|].
  destruct (Z.eqb_spec (str_rfind c s) (-1)); [|lia].
  by destruct (Ascii.eqb a c).
Qed.

(** The first occurrence. *)
Lemma str_find_first c pre rest :
  has_char c pre = false →
  str_find c (pre ++ String c rest) = Z.of_nat (String.length pre).
Proof.
  induction pre as [|a pre IH]; simpl.
  - by rewrite Ascii.eqb_refl.
  - intros [Ha Hs]%orb_false_elim. rewrite Ha, IH by done.
    destruct (Z.eqb_spec (Z.of_nat (String.length pre)) (-1)); lia.
Qed.

(** The last occurrence. *)
Lemma str_rfind_last c pre post :
  has_char c post = false →
  str_rfind c (pre ++ String c post) = Z.of_nat (String.length pre).
Proof.
  intros Hp. induction pre as [|a pre IH]; simpl.
  - by rewrite (str_rfind_none _ _ Hp), Ascii.eqb_refl.
  - rewrite IH.
    destruct (Z.eqb_spec (Z.of_nat (String.length pre)) (-1)); lia.
Qed.

Lemma substring_skip pre s n :
  substring (String.length pre) n (pre ++ s) = substring 0 n s.
Proof. induction pre as [|a pre IH]; simpl; [done|]. apply IH. Qed.

Lemma substring_prefix s t :
  substring 0 (String.length s) (s ++ t) = s.
Proof.
  induction s as [|a s IH]; simpl; [by destruct t|]. by f_equal.
Qed.

Lemma length_append s t :
  String.length (s ++ t) = (String.length s + String.length t)%nat.
Proof.
  induction s as [|a s IH]; [done|].
  change (String a s ++ t) with (String a (s ++ t)). simpl. by f_equal.
Qed.

Lemma append_assoc (s t u : string) : (s ++ t) ++ u = s ++ t ++ u.
Proof.
  induction s as [|a s IH]; [done|].
  change ((String a s ++ t) ++ u) with (String a ((s ++ t) ++ u)).
  change (String a s ++ t ++ u) with (String a (s ++ t ++ u)).
  by f_equal.
Qed.

Lemma has_char_app c s t :
  has_char c (s ++ t) = has_char c s || has_char c t.
Proof.
  induction s as [|a s IH]; [done|].
  change (String a s ++ t) with (String a (s ++ t)). simpl.
  by rewrite IH, orb_assoc.
Qed.

Lemma substring_none s n : substring n 0 s = "".
Proof. revert s. induction n as [|n IH]; intros [|a s]; simpl; auto. Qed.

(** X13.  A text without an opening or without a closing brace is passed on as
    it is.  Otherwise whatever stands before the first opening brace and
    after the last closing brace is dropped, so that prose or a code fence
    around the object is harmless; and when the last closing brace stands
    before the first opening brace nothing is left. *)
Theorem extract_payload_spec :
  (∀ txt, has_char "{" txt = false ∨ has_char "}" txt = false →
     extract_payload txt = txt)
  ∧ (∀ pre mid post,
     has_char "{" pre = false → has_char "}" post = false →
     extract_payload (pre ++ "{" ++ mid ++ "}" ++ post) = "{" ++ mid ++ "}")
  ∧ (∀ pre mid post,
     has_char "{" pre = false → has_char "{" mid = false →
     has_char "}" mid = false → has_char "}" post = false →
     extract_payload (pre ++ "}" ++ mid ++ "{" ++ post) = "").
Proof.
  split; [|split].
  - intros txt [H|H]; unfold extract_payload.
    + by rewrite (str_find_none _ _ H).
    + rewrite (str_rfind_none _ _ H). by rewrite andb_false_r.
  - intros pre mid post Hpre Hpost. unfold extract_payload.
    assert (str_find "{" (pre ++ "{" ++ mid ++ "}" ++ post)
            = Z.of_nat (String.length pre)) as ->
      by (by apply str_find_first).
    assert (str_rfind "}" (pre ++ "{" ++ mid ++ "}" ++ post)
            = Z.of_nat (String.length (pre ++ "{" ++ mid))) as ->.
    { rewrite <- (str_rfind_last "}" (pre ++ "{" ++ mid) post Hpost).
      by rewrite !append_assoc. }
    destruct (Z.eqb_spec (Z.of_nat (String.length pre)) (-1)); [lia|].
    destruct (Z.eqb_spec (Z.of_nat (String.length (pre ++ "{" ++ mid))) (-1));
      [lia|].
    cbn [negb andb]. unfold str_slice.
    rewrite Nat2Z.id, substring_skip.
    replace (Z.to_nat _) with (String.length ("{" ++ mid ++ "}"))
      by (rewrite !length_append; cbn [String.length]; lia).
    rewrite <- (substring_prefix ("{" ++ mid ++ "}") post) at 2.
    by rewrite !append_assoc.
  - intros pre mid post Hpre Hmid Hmid' Hpost. unfold extract_payload.
    assert (str_find "{" (pre ++ "}" ++ mid ++ "{" ++ post)
            = Z.of_nat (String.length (pre ++ "}" ++ mid))) as ->.
    { rewrite <- (str_find_first "{" (pre ++ "}" ++ mid) post).
      - by rewrite !append_assoc.
      - rewrite !has_char_app, Hpre, Hmid. reflexivity. }
    assert (str_rfind "}" (pre ++ "}" ++ mid ++ "{" ++ post)
            = Z.of_nat (String.length pre)) as ->.
    { apply str_rfind_last.
      rewrite !has_char_app, Hmid', Hpost. reflexivity. }
    destruct (Z.eqb_spec (Z.of_nat (String.length (pre ++ "}" ++ mid))) (-1));
      [lia|].
    destruct (Z.eqb_spec (Z.of_nat (String.length pre)) (-1)); [lia|].
    cbn [negb andb]. unfold str_slice.
    replace (Z.to_nat (_ - _)) with O
      by (rewrite !length_append; cbn [String.length]; lia).
    apply substring_none.
Qed.

(** Prose around the object; a text without braces; braces the wrong way
    round. *)
Lemma extract_payload_spec_witness :
  extract_payload "no answer" = "no answer"
  ∧ extract_payload ("Here it is: " ++ "{" ++ "{}, {}" ++ "}" ++ " Done.")
    = "{" ++ "{}, {}" ++ "}"
  ∧ extract_payload ("a" ++ "}" ++ "b" ++ "{" ++ "c") = "".
Proof.
  destruct extract_payload_spec as (H1 & H2 & H3).
  split; [|split].
  - apply H1. left. reflexivity.
  - apply H2; reflexivity.
  - apply H3; reflexivity.
Defined.

(* ===================================================================== *)
(** * The stable sort *)
(* ===================================================================== *)

Section Sorting.

Context {A : Type}.
Implicit Types l : list (Z * A).

Lemma insert_by_key_perm k x l : insert_by_key k x l ≡ₚ (k, x) :: l.
Proof.
  induction l as [|[k' y] l IH]; simpl; [done|].
  destruct (k <=? k'); [done|]. rewrite IH. apply Permutation_swap.
Qed.

Lemma insert_by_key_sorted k x l :
  StronglySorted key_le l → StronglySorted key_le (insert_by_key k x l).
Proof.
  induction 1 as [|[k' y] l Hs IH Hall]; simpl.
  { repeat constructor. }
  destruct (Z.leb_spec k k') as [Hle|Hgt].
  - constructor; [by constructor|]. constructor; [done|].
    eapply Forall_impl; [done|]. intros [k'' z]. unfold key_le. simpl. lia.
  - constructor; [done|]. rewrite insert_by_key_perm.
    constructor; [unfold key_le; simpl; lia|done].
Qed.

Lemma insert_by_key_filter kk k x l :
  filter (λ p, p.1 = kk) (insert_by_key k x l)
  = filter (λ p, p.1 = kk) ((k, x) :: l).
Proof.
  induction l as [|[k' y] l IH]; simpl; [done|].
  destruct (Z.leb_spec k k') as [Hle|Hgt]; [done|].
  rewrite (filter_cons _ (k', y)), IH, !filter_cons. simpl.
  destruct (decide (k' = kk)), (decide (k = kk)); (done || lia).
Qed.

Lemma sort_by_key_perm l : sort_by_key l ≡ₚ l.
Proof.
  induction l as [|[k x] l IH]; simpl; [done|].
  by rewrite insert_by_key_perm, IH.
Qed.

Lemma sort_by_key_sorted l : StronglySorted key_le (sort_by_key l).
Proof.
  induction l as [|[k x] l IH]; simpl; [constructor|].
  by apply insert_by_key_sorted.
Qed.

Lemma sort_by_key_stable kk l :
  filter (λ p, p.1 = kk) (sort_by_key l) = filter (λ p, p.1 = kk) l.
Proof.
  induction l as [|[k x] l IH]; simpl; [done|].
  by rewrite insert_by_key_filter, !filter_cons, IH.
Qed.

Lemma sort_by_key_sorted_id l : StronglySorted key_le l → sort_by_key l = l.
Proof.
  induction 1 as [|[k x] l Hs IH Hall]; simpl; [done|]. rewrite IH.
  destruct l as [|[k' y] l]; simpl; [done|].
  apply Forall_cons in Hall as [Hle _]. unfold key_le in Hle. simpl in Hle.
  by destruct (Z.leb_spec k k'); [|lia].
Qed.

Lemma sort_by_key_perm_eq l l' :
  l ≡ₚ l' → NoDup l.*1 → sort_by_key l = sort_by_key l'.
Proof.
  intros Hp Hnd.
  apply (StronglySorted_unique_strong key_le);
    [|apply sort_by_key_sorted..|by rewrite !sort_by_key_perm].
  intros [k x] [k' y]. rewrite !sort_by_key_perm, <- Hp.
  unfold key_le. simpl. intros H1 H2 Hle Hge.
  assert (k = k') as <- by lia. f_equal.
  apply list_elem_of_lookup in H1 as [i Hi], H2 as [j Hj].
  assert (i = j) as <-.
  { eapply NoDup_lookup; [done|..]; rewrite list_lookup_fmap.
    - by rewrite Hi.
    - by rewrite Hj. }
  congruence.
Qed.

End Sorting.

(* ===================================================================== *)
(** * From the parsed answer to the colour names *)
(* ===================================================================== *)

Lemma mapM_ok {A B} (f : A → result B) (g : A → B) l :
  Forall (λ x, f x = Ok (g x)) l → mapM f l = Ok (g <$> l).
Proof.
  induction 1 as [|x l Hx _ IH]; [done|].
  cbn [mapM]. rewrite Hx. cbn. rewrite IH. reflexivity.
Qed.

Lemma mapM_ok_inv {A B} (f : A → result B) l k :
  mapM f l = Ok k → Forall2 (λ x y, f x = Ok y) l k.
Proof.
  revert k. induction l as [|x l IH]; intros k; cbn [mapM].
  { intros [= <-]. constructor. }
  destruct (f x) as [y|e] eqn:Ex; cbn; [|done].
  destruct (mapM f l) as [k'|e] eqn:El; cbn; [|done].
  intros [= <-]. constructor; [done|]. by apply IH.
Qed.

Lemma keep_roles_ok bands :
  Forall is_dict bands → keep_roles bands = Ok (filter band_kept bands).
Proof.
  induction 1 as [|b bands Hb _ IH]; [done|].
  destruct b as [| | | | | |fields]; try done.
  cbn [keep_roles dict_get]. rewrite filter_cons, IH. cbn.
  change (band_kept (JObj fields))
    with (role_kept (default JNull (assoc "role" fields))).
  by destruct (role_kept _).
Qed.

Lemma keep_roles_dicts bands kept :
  keep_roles bands = Ok kept → Forall is_dict bands.
Proof.
  revert kept. induction bands as [|b bands IH]; intros kept; [done|].
  cbn [keep_roles]. destruct b as [| | | | | |fields]; try done.
  cbn. destruct (keep_roles bands) as [k|e]; [|done]. intros _.
  constructor; [done|]. by eapply IH.
Qed.

Lemma zip_keyed l : zip (band_index <$> l) l = keyed <$> l.
Proof. induction l as [|b l IH]; [done|]. simpl. by f_equal. Qed.

Lemma index_of_band int_of_str b :
  well_typed_band b →
  dict_get "index" (JInt 0) b ≫= py_int int_of_str = Ok (band_index b).
Proof.
  destruct b as [| | | | | |fields]; try done.
  unfold well_typed_band, band_index. cbn [is_dict band_fields dict_get].
  by destruct (assoc "index" fields) as [[]|].
Qed.

Lemma color_of_band b :
  well_typed_band b →
  dict_get "color_name" (JStr "") b ≫= norm_color_obj = Ok (band_color b).
Proof.
  destruct b as [| | | | | |fields]; try done.
  unfold well_typed_band, band_color. cbn [is_dict band_fields dict_get].
  destruct (assoc "index" fields) as [[]|]; try done;
    destruct (assoc "color_name" fields) as [[| | | |s| |]|]; try done;
    cbn; unfold norm_color_obj; cbn [py_bool];
    by destruct (String.eqb s "") eqn:E; [apply String.eqb_eq in E as ->|].
Qed.

Lemma sorted_keyed l :
  sort_by_key (keyed <$> l) = keyed <$> (sort_by_key (keyed <$> l)).*2.
Proof.
  assert (Forall (λ p, p = keyed p.2) (sort_by_key (keyed <$> l))) as H.
  { rewrite sort_by_key_perm. apply Forall_fmap, Forall_true. done. }
  induction H as [|p ps Hp _ IH]; [done|].
  rewrite !fmap_cons, <- IH, <- Hp. done.
Qed.

Lemma sorted_of_keyed l :
  StronglySorted key_le (keyed <$> l) ↔ StronglySorted index_le l.
Proof.
  induction l as [|b l IH]; [split; constructor|].
  rewrite fmap_cons. split; intros H; inversion_clear H as [|?? Hs Hall].
  - constructor; [by apply IH|]. rewrite Forall_fmap in Hall. exact Hall.
  - constructor; [by apply IH|]. rewrite Forall_fmap. exact Hall.
Qed.

Lemma filter_keyed k l :
  (filter (λ p, p.1 = k) (keyed <$> l)).*2
  = filter (λ b, band_index b = k) l.
Proof.
  induction l as [|b l IH]; [done|].
  rewrite fmap_cons, !filter_cons. simpl.
  destruct (decide (band_index b = k));
    [rewrite fmap_cons; simpl; f_equal|]; exact IH.
Qed.

(** The colours of a well-typed list of bands: the bands are sorted on
    their keys and the colour of each is normalised. *)
Lemma read_colors_form int_of_str items bands :
  default (JArr []) (assoc "bands" items) = JArr bands →
  Forall is_dict bands →
  Forall well_typed_band (filter band_kept bands) →
  read_colors int_of_str (JObj items)
  = Ok (band_color
          <$> (sort_by_key (keyed <$> filter band_kept bands)).*2).
Proof.
  intros Hb Hd Hw. unfold read_colors. cbn [dict_get]. rewrite Hb. cbn.
  rewrite (keep_roles_ok _ Hd). cbn.
  rewrite (mapM_ok _ band_index).
  2:{ eapply Forall_impl; [exact Hw|].
      intros b. apply index_of_band. }
  cbn. rewrite zip_keyed. apply mapM_ok.
  assert (Forall well_typed_band
            (sort_by_key (keyed <$> filter band_kept bands)).*2) as Hw'.
  { rewrite sort_by_key_perm, <- list_fmap_compose.
    by rewrite list_fmap_id. }
  eapply Forall_impl; [exact Hw'|]. intros b. apply color_of_band.
Qed.

(** X14.  On an answer whose bands are dicts, those with one of the roles
    digit, multiplier and tolerance being well typed, [read_colors] does
    not raise.  It returns the normalised colours of exactly the bands with
    one of the three roles (a tempco band is dropped), in ascending order
    of their index; bands with the same index keep the order of the
    answer, and bands that are already in order are not moved. *)
Theorem read_colors_well_typed int_of_str items bands :
  default (JArr []) (assoc "bands" items) = JArr bands →
  Forall is_dict bands →
  Forall well_typed_band (filter band_kept bands) →
  ∃ kept,
    read_colors int_of_str (JObj items) = Ok (band_color <$> kept)
    ∧ kept ≡ₚ filter band_kept bands
    ∧ StronglySorted index_le kept
    ∧ (∀ k, filter (λ b, band_index b = k) kept
            = filter (λ b, band_index b = k) (filter band_kept bands))
    ∧ (StronglySorted index_le (filter band_kept bands) →
       kept = filter band_kept bands).
Proof.
  intros Hb Hd Hw.
  exists (sort_by_key (keyed <$> filter band_kept bands)).*2.
  split; [by apply read_colors_form|]. split; [|split; [|split]].
  - rewrite sort_by_key_perm, <- list_fmap_compose. by rewrite list_fmap_id.
  - apply sorted_of_keyed. rewrite <- sorted_keyed. apply sort_by_key_sorted.
  - intros k. rewrite <- !filter_keyed, <- sorted_keyed.
    by rewrite sort_by_key_stable.
  - intros Hs. rewrite sort_by_key_sorted_id by (by apply sorted_of_keyed).
    rewrite <- list_fmap_compose. by rewrite list_fmap_id.
Qed.

(** The sample answer gives yellow, violet, red, gold. *)
Lemma read_colors_well_typed_witness :
  ∃ kept,
    read_colors unused_int_of_str (JObj SAMPLE_ANSWER)
    = Ok (band_color <$> kept)
    ∧ kept ≡ₚ filter band_kept SAMPLE_BANDS
    ∧ StronglySorted index_le kept
    ∧ (∀ k, filter (λ b, band_index b = k) kept
            = filter (λ b, band_index b = k) (filter band_kept SAMPLE_BANDS))
    ∧ (StronglySorted index_le (filter band_kept SAMPLE_BANDS) →
       kept = filter band_kept SAMPLE_BANDS).
Proof.
  apply read_colors_well_typed; [reflexivity|..];
    vm_compute; repeat constructor.
Defined.

(** X15.  When the indices of the kept bands are distinct, the order in which
    the answer lists its bands is irrelevant: two answers with the
    same bands in any order give the same colours. *)
Theorem read_colors_order_free int_of_str items items' bands bands' :
  default (JArr []) (assoc "bands" items) = JArr bands →
  default (JArr []) (assoc "bands" items') = JArr bands' →
  bands ≡ₚ bands' →
  Forall is_dict bands →
  Forall well_typed_band (filter band_kept bands) →
  NoDup (band_index <$> filter band_kept bands) →
  read_colors int_of_str (JObj items) = read_colors int_of_str (JObj items').
Proof.
  intros Hb Hb' Hp Hd Hw Hnd.
  rewrite (read_colors_form _ _ _ Hb Hd Hw).
  rewrite (read_colors_form _ _ _ Hb'); [|by rewrite <- Hp..].
  do 3 f_equal. apply sort_by_key_perm_eq.
  - by rewrite Hp.
  - rewrite <- list_fmap_compose. exact Hnd.
Qed.

Lemma read_colors_order_free_witness :
  read_colors unused_int_of_str (JObj SAMPLE_ANSWER)
  = read_colors unused_int_of_str
      (JObj [("band_scheme", JStr "4-band");
             ("bands", JArr (reverse SAMPLE_BANDS))]).
Proof.
  apply (read_colors_order_free _ _ _ SAMPLE_BANDS (reverse SAMPLE_BANDS));
    [reflexivity|reflexivity|by rewrite reverse_Permutation|..];
    vm_compute; repeat constructor;
    rewrite ?elem_of_cons, elem_of_nil; intros H;
    repeat destruct H as [H|H]; done.
Defined.

Lemma name_of_band b c :
  dict_get "color_name" (JStr "") b ≫= norm_color_obj = Ok c →
  c = norm_color (Some (band_name b)).
Proof.
  destruct b as [| | | | | |fields]; try done.
  unfold band_name. cbn [band_fields dict_get]. cbn.
  destruct (assoc "color_name" fields) as [v|]; cbn [default from_option id].
  - unfold norm_color_obj. destruct (py_bool v) eqn:Ev.
    + destruct v; try done. by intros [= <-].
    + intros [= <-]. destruct v as [| | | |s| |]; try done.
      cbn [py_bool] in Ev. apply negb_false_iff, String.eqb_eq in Ev.
      by subst s.
  - unfold norm_color_obj. cbn [py_bool]. by intros [= <-].
Qed.

(** The bands in the order of their keys are the bands. *)
Lemma sorted_bands (keys : list Z) (bands : list json) :
  length keys = length bands →
  (sort_by_key (zip keys bands)).*2 ≡ₚ bands.
Proof.
  intros Hlen. rewrite sort_by_key_perm. rewrite snd_zip; [done|lia].
Qed.

(** X16.  When [read_colors] returns colours for an answer whose bands
    are a list, there is one colour for each band with one of the three
    roles, and every band of the answer, kept or not, is a dict.  When
    the colour names of the kept bands are strings of ASCII characters,
    the colours are such strings as well and are normalised: each is a
    fixed point of [norm_color]. *)
Theorem read_colors_normalised int_of_str items bands colors :
  default (JArr []) (assoc "bands" items) = JArr bands →
  read_colors int_of_str (JObj items) = Ok colors →
  length colors = length (filter band_kept bands)
  ∧ Forall is_dict bands
  ∧ (Forall (λ b, ascii_only (band_name b) = true)
       (filter band_kept bands) →
     Forall (λ c, ascii_only c = true ∧ norm_color (Some c) = c) colors).
Proof.
  intros Hb. unfold read_colors. cbn [dict_get].
  rewrite Hb. cbn.
  destruct (keep_roles bands) as [kept|e] eqn:Ek; cbn; [|done].
  pose proof (keep_roles_dicts _ _ Ek) as Hd.
  rewrite (keep_roles_ok _ Hd) in Ek. injection Ek as <-.
  destruct (mapM _ (filter band_kept bands)) as [keys|e] eqn:Ei; cbn; [|done].
  intros Hc%mapM_ok_inv.
  apply mapM_ok_inv in Ei.
  pose proof (Forall2_length _ _ _ Ei) as Hlen.
  pose proof (sorted_bands keys _ (eq_sym Hlen)) as Hperm.
  split; [|split; [done|]].
  - apply Forall2_length in Hc. rewrite <- Hc. by rewrite Hperm.
  - intros Hascii. rewrite <- Hperm in Hascii. clear Hperm.
    revert Hc Hascii.
    generalize ((sort_by_key (zip keys (filter band_kept bands))).*2).
    intros sorted Hc. induction Hc as [|b c bs cs Hbc _ IH]; [constructor|].
    intros [Hb1 Hbs]%Forall_cons.
    constructor; [|by apply IH].
    apply name_of_band in Hbc as ->.
    split; [by apply ascii_only_norm_color|apply norm_color_fixed].
Qed.

(** On the sample answer. *)
Lemma read_colors_normalised_witness :
  length ["yellow"; "violet"; "brown"; "gold"]
  = length (filter band_kept SAMPLE_BANDS)
  ∧ Forall is_dict SAMPLE_BANDS
  ∧ (Forall (λ b, ascii_only (band_name b) = true)
       (filter band_kept SAMPLE_BANDS) →
     Forall (λ c, ascii_only c = true ∧ norm_color (Some c) = c)
       ["yellow"; "violet"; "brown"; "gold"]).
Proof.
  apply (read_colors_normalised unused_int_of_str SAMPLE_ANSWER);
    vm_compute; reflexivity.
Defined.

Lemma keep_roles_raises bands :
  Exists (λ b, is_dict b = false) bands →
  keep_roles bands = Raise AttributeError.
Proof.
  induction 1 as [b bands Hb|b bands _ IH]; cbn [keep_roles].
  - by destruct b.
  - destruct b; try done. cbn. by rewrite IH.
Qed.

(** X17.  The edges of [read_colors].  An answer without the key ["bands"] is
    not an error: it has no colours.  An answer that is not a dict, and an
    answer one of whose bands is not a dict (whatever its role would be),
    raise [AttributeError]; bands that are null, a number or a bool raise
    [TypeError]. *)
Theorem read_colors_edges int_of_str :
  (∀ items, assoc "bands" items = None →
     read_colors int_of_str (JObj items) = Ok [])
  ∧ (∀ js, is_dict js = false →
     read_colors int_of_str js = Raise AttributeError)
  ∧ (∀ items v, assoc "bands" items = Some v → iterable v = false →
     read_colors int_of_str (JObj items) = Raise TypeError)
  ∧ (∀ items bands, assoc "bands" items = Some (JArr bands) →
     Exists (λ b, is_dict b = false) bands →
     read_colors int_of_str (JObj items) = Raise AttributeError).
Proof.
  split; [|split; [|split]].
  - intros items Hb. unfold read_colors. cbn [dict_get]. by rewrite Hb.
  - intros js Hjs. by destruct js.
  - intros items v Hb Hv. unfold read_colors. cbn [dict_get]. rewrite Hb.
    by destruct v.
  - intros items bands Hb Hex. unfold read_colors. cbn [dict_get].
    rewrite Hb. cbn. by rewrite keep_roles_raises.
Qed.

Lemma read_colors_edges_witness :
  read_colors unused_int_of_str (JObj [("band_scheme", JStr "4-band")])
  = Ok []
  ∧ read_colors unused_int_of_str (JArr SAMPLE_BANDS) = Raise AttributeError
  ∧ read_colors unused_int_of_str (JObj [("bands", JNull)]) = Raise TypeError
  ∧ read_colors unused_int_of_str
      (JObj [("bands", JArr [sample_band 0 "red" "digit"; JStr "red"])])
    = Raise AttributeError.
Proof.
  destruct (read_colors_edges unused_int_of_str) as (H1 & H2 & H3 & H4).
  split; [|split; [|split]].
  - apply H1. reflexivity.
  - apply H2. reflexivity.
  - apply (H3 _ JNull); reflexivity.
  - apply (H4 _ [sample_band 0 "red" "digit"; JStr "red"]); [reflexivity|].
    right. left. reflexivity.
Defined.

(* ===================================================================== *)
(** * The two back ends and the response *)
(* ===================================================================== *)

Lemma no_text_false txt : no_text txt = false → ∃ s, txt = Some s ∧ s ≠ "".
Proof.
  destruct txt as [s|]; [|done]. simpl.
  intros E%String.eqb_neq. eauto.
Qed.

Section ServiceFacts.

Variables Bytes Image : Type.
Variable image_open : Bytes → result Image.
Variable img_size : Image → Z * Z.
Variable img_resize : Image → Z * Z → result Image.
Variable save_jpeg : Image → result Bytes.
Variable sdk_generate : list (part Bytes) → option string.
Variable rest_generate : list (part Bytes) → option string.
Variable json_loads : string → result json.
Variable int_of_str : string → result Z.
Variable np_log10 : float → float.
Variable np_power : float → float → float.

Local Abbreviation read_bands :=
  (gemini_read_bands img_size img_resize save_jpeg sdk_generate
     rest_generate json_loads int_of_str).
Local Abbreviation respond :=
  (analyze image_open img_size img_resize save_jpeg sdk_generate
     rest_generate json_loads int_of_str np_log10 np_power).
Local Abbreviation parts_of := (request_parts img_size img_resize save_jpeg).
Local Abbreviation text_of := (answer_text sdk_generate rest_generate).

(** The parts, then the text that is parsed and the name of the back end
    it came from. *)
Lemma read_bands_cases img :
  read_bands img
  = parts ← parts_of img;
    let txt := text_of parts in
    let used := if no_text (sdk_generate parts) then "rest" else "sdk" in
    if no_text txt then Ok (None, None, None)
    else match json_loads (extract_payload (default "" txt)) with
         | Ok js => colors ← read_colors int_of_str js;
                    mret (Some colors, Some js, Some used)
         | Raise _ => Ok (None, None, Some used)
         end.
Proof.
  unfold gemini_read_bands, request_parts, answer_text.
  destruct (resize_max img_size img_resize img 1024) as [small|e];
    cbn [mbind result_bind]; [|done].
  destruct (pil_to_part save_jpeg small) as [p|e];
    cbn [mbind result_bind mret result_ret]; [|done].
  set (parts := [Text sys; Text user; p]).
  destruct (no_text (sdk_generate parts)); cbv zeta.
  - destruct (rest_generate parts) as [s|]; [|done]. simpl.
    by destruct (String.eqb s "").
  - destruct (sdk_generate parts) as [s|]; [|done]. simpl.
    by destruct (String.eqb s "").
Qed.

Lemma parts_of_cases img e :
  parts_of img = Raise e ↔
  resize_max img_size img_resize img 1024 = Raise e
  ∨ ∃ small, resize_max img_size img_resize img 1024 = Ok small
             ∧ save_jpeg small = Raise e.
Proof.
  unfold request_parts, pil_to_part.
  destruct (resize_max img_size img_resize img 1024) as [small|e'];
    cbn [mbind result_bind].
  - destruct (save_jpeg small) as [d|e'] eqn:Es;
      cbn [mbind result_bind mret result_ret].
    + split; [done|]. intros [[=] | (s' & [= <-] & H)]. congruence.
    + split.
      * intros [= ->]. right. eauto.
      * intros [[=] | (s' & [= <-] & H)]. congruence.
  - split; [intros [= ->]; by left|].
    intros [[= ->] | (s' & [=] & _)]. done.
Qed.

Lemma read_bands_colors img colors raw used :
  read_bands img = Ok (Some colors, raw, used) →
  ∃ parts,
    parts_of img = Ok parts
    ∧ (∃ txt js, text_of parts = Some txt
                 ∧ json_loads (extract_payload txt) = Ok js
                 ∧ raw = Some js ∧ read_colors int_of_str js = Ok colors)
    ∧ (used = Some "sdk" ∨ used = Some "rest")
    ∧ (used = Some "sdk" ↔ no_text (sdk_generate parts) = false).
Proof.
  rewrite read_bands_cases.
  destruct (parts_of img) as [parts|e]; cbn [mbind result_bind]; [|done].
  cbv zeta. intros H. exists parts. split; [done|]. revert H.
  set (txt := text_of parts).
  set (u := if no_text (sdk_generate parts) then "rest" else "sdk").
  assert ((u = "sdk" ∨ u = "rest")
          ∧ (u = "sdk" ↔ no_text (sdk_generate parts) = false)) as [Hu Hiff].
  { subst u. destruct (no_text (sdk_generate parts)); split; auto; done. }
  clearbody txt u.
  destruct (no_text txt) eqn:Et; [done|].
  apply no_text_false in Et as (s & -> & _). cbn [default from_option id].
  destruct (json_loads _) as [js|e] eqn:Ej; [|done].
  destruct (read_colors int_of_str js) as [cs|e] eqn:Er; [|done].
  cbn. intros [= <- <- <-]. split; [by eauto 10|]. split.
  - destruct Hu as [-> | ->]; auto.
  - rewrite <- Hiff. split; [by intros [= ->]|by intros ->].
Qed.

Lemma read_bands_no_colors img raw used :
  read_bands img = Ok (None, raw, used) →
  ∃ parts,
    parts_of img = Ok parts
    ∧ raw = None
    ∧ (used = None ↔
       no_text (sdk_generate parts) = true
       ∧ no_text (rest_generate parts) = true).
Proof.
  rewrite read_bands_cases.
  destruct (parts_of img) as [parts|e]; cbn [mbind result_bind]; [|done].
  cbv zeta. intros H. exists parts. split; [done|]. revert H.
  unfold answer_text.
  set (txt := if no_text (sdk_generate parts) then rest_generate parts
              else sdk_generate parts).
  set (u := if no_text (sdk_generate parts) then "rest" else "sdk").
  assert (no_text txt = true ↔
          no_text (sdk_generate parts) = true
          ∧ no_text (rest_generate parts) = true) as Hiff.
  { subst txt. destruct (no_text (sdk_generate parts)) eqn:E.
    - tauto.
    - rewrite E. split; [done|]. by intros [? ?]. }
  clearbody txt u.
  destruct (no_text txt).
  - intros [= <- <-]. split; [done|]. split; [intros _; by apply Hiff|done].
  - destruct (json_loads _) as [js|e];
      [by destruct (read_colors int_of_str js)|].
    intros [= <- <-]. split; [done|]. split; [done|].
    intros H. by apply Hiff in H.
Qed.

(** When reading the bands raises. *)
Lemma read_bands_raises img e :
  read_bands img = Raise e ↔
  parts_of img = Raise e
  ∨ ∃ parts txt js,
      parts_of img = Ok parts
      ∧ text_of parts = Some txt ∧ txt ≠ ""
      ∧ json_loads (extract_payload txt) = Ok js
      ∧ read_colors int_of_str js = Raise e.
Proof.
  rewrite read_bands_cases.
  destruct (parts_of img) as [parts|e']; cbn [mbind result_bind].
  2:{ split; [intros [= ->]; by left|].
      intros [[= ->] | (? & ? & ? & [=] & _)]. done. }
  cbv zeta. destruct (no_text (text_of parts)) eqn:Et.
  - split; [done|]. intros [[=] | (p & txt & js & [= <-] & Ht & Hne & _)].
    rewrite Ht in Et. simpl in Et. by apply String.eqb_eq in Et.
  - apply no_text_false in Et as (s & Es & Hne). rewrite Es.
    cbn [default from_option id].
    destruct (json_loads (extract_payload s)) as [js|e'] eqn:Ej.
    + destruct (read_colors int_of_str js) as [cs|e'] eqn:Er; cbn.
      * split; [done|].
        intros [[=] | (p & txt & js' & [= <-] & Ht & _ & Hj & Hr)].
        congruence.
      * split.
        -- intros [= ->]. right. exists parts, s, js. done.
        -- intros [[=] | (p & txt & js' & [= <-] & Ht & _ & Hj & Hr)].
           congruence.
    + split; [done|].
      intros [[=] | (p & txt & js' & [= <-] & Ht & _ & Hj & Hr)].
      congruence.
Qed.

(** X18.  Before anything is sent the image is resized and encoded, and what
    these two raise is raised; [pil_to_part] and the two texts make the
    parts.  [gemini_read_bands] then asks the REST back end only when the
    SDK gave no text, [None] or the empty string, and what the REST back
    end would have said is without effect otherwise.  Colours are
    returned together with the parsed answer they were read from and with
    the name of the back end, which is "sdk" exactly when the SDK gave a
    text; without colours there is no parsed answer either, and no back
    end is named when both gave no text. *)
Theorem gemini_read_bands_outcomes :
  (∀ img colors raw used,
      read_bands img = Ok (Some colors, raw, used) →
      ∃ parts,
        parts_of img = Ok parts
        ∧ (∃ txt js, text_of parts = Some txt
                     ∧ json_loads (extract_payload txt) = Ok js
                     ∧ raw = Some js
                     ∧ read_colors int_of_str js = Ok colors)
        ∧ (used = Some "sdk" ∨ used = Some "rest")
        ∧ (used = Some "sdk" ↔ no_text (sdk_generate parts) = false))
  ∧ (∀ img raw used,
      read_bands img = Ok (None, raw, used) →
      ∃ parts,
        parts_of img = Ok parts
        ∧ raw = None
        ∧ (used = None ↔
           no_text (sdk_generate parts) = true
           ∧ no_text (rest_generate parts) = true))
  ∧ (∀ img parts other,
      parts_of img = Ok parts →
      no_text (sdk_generate parts) = false →
      read_bands img
      = gemini_read_bands img_size img_resize save_jpeg sdk_generate other
          json_loads int_of_str img)
  ∧ (∀ img e,
      parts_of img = Raise e ↔
      resize_max img_size img_resize img 1024 = Raise e
      ∨ ∃ small, resize_max img_size img_resize img 1024 = Ok small
                 ∧ save_jpeg small = Raise e)
  ∧ (∀ img parts,
      parts_of img = Ok parts →
      ∃ small data,
        resize_max img_size img_resize img 1024 = Ok small
        ∧ save_jpeg small = Ok data
        ∧ parts = [Text sys; Text user; Blob "image/jpeg" data])
  ∧ (∀ img e, parts_of img = Raise e → read_bands img = Raise e).
Proof.
  split; [apply read_bands_colors|split; [apply read_bands_no_colors|]].
  split; [|split; [apply parts_of_cases|split]].
  - intros img parts other Hp Hs. unfold gemini_read_bands.
    unfold request_parts in Hp.
    destruct (resize_max img_size img_resize img 1024) as [small|e];
      cbn [mbind result_bind] in *; [|done].
    destruct (pil_to_part save_jpeg small) as [p|e];
      cbn [mbind result_bind mret result_ret] in *; [|done].
    injection Hp as <-. by rewrite Hs.
  - intros img parts. unfold request_parts, pil_to_part.
    destruct (resize_max img_size img_resize img 1024) as [small|e];
      cbn [mbind result_bind]; [|done].
    destruct (save_jpeg small) as [d|e] eqn:Es;
      cbn [mbind result_bind mret result_ret]; [|done].
    intros [= <-]. by exists small, d.
  - intros img e Hp. apply read_bands_raises. by left.
Qed.

Lemma snapped_value (value : option float) :
  match value with
  | Some _ => snap_e24 np_log10 np_power value
  | None => None
  end = snap_e24 np_log10 np_power value.
Proof. by destruct value. Qed.

Lemma snap_is_Some value :
  is_Some (snap_e24 np_log10 np_power value) ↔ is_Some value.
Proof.
  destruct value as [v|]; [|done]. unfold snap_e24.
  destruct (fle v (of_int 0)); split; intros _; eexists; reflexivity.
Qed.

Lemma human_is_Some value : is_Some (human value) ↔ is_Some value.
Proof. destruct value; simpl; split; intros [? ?]; eauto; done. Qed.

(** The response, when [analyze] returns one: the three cases. *)
Lemma respond_cases data r :
  respond data = Ok r →
  r = AnalyzeResponse.failure "Invalid image"
  ∨ r = AnalyzeResponse.failure
          "Gemini could not read bands (model/key access issue?)"
  ∨ ∃ img read raw used,
      image_open data = Ok img
      ∧ read_bands img = Ok (Some read, raw, used)
      ∧ read ≠ []
      ∧ r = AnalyzeResponse.mk true None (Some (orient read))
              (compute_value_from_colors (orient read)).1
              (human (compute_value_from_colors (orient read)).1)
              (compute_value_from_colors (orient read)).2
              (snap_e24 np_log10 np_power
                 (compute_value_from_colors (orient read)).1)
              (human (snap_e24 np_log10 np_power
                        (compute_value_from_colors (orient read)).1))
              (Some ("gemini_only/" ++ or_else used "unknown"))
              raw.
Proof.
  unfold analyze.
  destruct (image_open data) as [img|e]; [|intros [= <-]; by left].
  destruct (read_bands img) as [[[colors raw] used]|e] eqn:Er; cbn; [|done].
  destruct colors as [[|c read]|]; try (intros [= <-]; right; by left).
  destruct (compute_value_from_colors (orient (c :: read))) as [value tol]
    eqn:Ed.
  rewrite snapped_value. intros [= <-]. right. right.
  exists img, (c :: read), raw, used. by rewrite Ed.
Qed.

(** When [analyze] raises: the upload is an image and reading its bands
    raises. *)
Lemma respond_raises data e :
  respond data = Raise e ↔
  ∃ img, image_open data = Ok img ∧ read_bands img = Raise e.
Proof.
  unfold analyze. split.
  - destruct (image_open data) as [img|e']; [|done].
    destruct (read_bands img) as [[[colors raw] used]|e''] eqn:Er; cbn.
    + destruct colors as [[|c read]|]; try done.
      by destruct (compute_value_from_colors _).
    + intros [= ->]. eauto.
  - intros (img & -> & ->). done.
Qed.

(** X19.  A response with [ok = True] carries a non-empty list of colours in
    its final orientation, the parsed answer, and as [used] one of
    "gemini_only/sdk" and "gemini_only/rest": the fallback "unknown" never
    shows.  Value and tolerance are what the decoder makes of the colours,
    the snapped value is the snapper's image of the value, and the two
    displays are [human] of the two; so the four fields value, display,
    snapped value and snapped display are present together or absent
    together, and with fewer than three colours all of them and the
    tolerance are absent although [ok] is true. *)
Theorem analyze_ok_response data r :
  respond data = Ok r → AnalyzeResponse.ok r = true →
  AnalyzeResponse.message r = None
  ∧ (AnalyzeResponse.used r = Some "gemini_only/sdk"
     ∨ AnalyzeResponse.used r = Some "gemini_only/rest")
  ∧ is_Some (AnalyzeResponse.gemini r)
  ∧ (∃ colors,
       AnalyzeResponse.colors r = Some colors
       ∧ colors ≠ [] ∧ orient colors = colors
       ∧ (AnalyzeResponse.value_ohms r, AnalyzeResponse.tolerance_pct r)
         = compute_value_from_colors colors
       ∧ ((length colors < 3)%nat →
          AnalyzeResponse.value_ohms r = None
          ∧ AnalyzeResponse.tolerance_pct r = None))
  ∧ AnalyzeResponse.value_display r = human (AnalyzeResponse.value_ohms r)
  ∧ AnalyzeResponse.snapped_ohms r
    = snap_e24 np_log10 np_power (AnalyzeResponse.value_ohms r)
  ∧ AnalyzeResponse.snapped_display r
    = human (AnalyzeResponse.snapped_ohms r)
  ∧ (is_Some (AnalyzeResponse.value_display r)
     ↔ is_Some (AnalyzeResponse.value_ohms r))
  ∧ (is_Some (AnalyzeResponse.snapped_ohms r)
     ↔ is_Some (AnalyzeResponse.value_ohms r))
  ∧ (is_Some (AnalyzeResponse.snapped_display r)
     ↔ is_Some (AnalyzeResponse.value_ohms r)).
Proof.
  intros [-> | [-> | (img & read & raw & used & Hi & Hr & Hne & ->)]]%respond_cases;
    [done..|]. intros _. cbn.
  destruct (read_bands_colors _ _ _ _ Hr)
    as (parts & _ & (txt & js & _ & _ & -> & Hjs) & Hu & _).
  split; [done|]. split; [by destruct Hu as [-> | ->]; [left|right]|].
  split; [by eexists|]. split.
  - exists (orient read). split; [done|]. split.
    { intros E. apply Hne. apply (f_equal length) in E.
      rewrite orient_length in E.
      by destruct read. }
    split; [apply orient_twice|].
    split; [by destruct (compute_value_from_colors _)|].
    intros Hlen. by rewrite decode_short.
  - split; [done|]. split; [done|]. split; [done|].
    rewrite !human_is_Some, snap_is_Some. done.
Qed.

(** X20.  A response with [ok = False] carries one of the two messages and
    nothing else.  An upload that cannot be opened is answered with
    "Invalid image" whatever the back ends would say.  A reading without
    colours, be it that both back ends gave no text, that the text could
    not be parsed, that the answer has no key ["bands"] or that none of
    its bands has one of the three roles, is answered with the other
    message.  [analyze] raises in three cases, all of them for an upload
    that is an image: when the resizing raises, when the encoding of the
    resized image raises, and when reading the bands of a parsed answer
    raises.  The first happens for an image more than 1024 times as long
    as wide, where [img.resize] refuses a side below 1 with a
    [ValueError], as Pillow does. *)
Theorem analyze_failure_response :
  (∀ data r,
      respond data = Ok r → AnalyzeResponse.ok r = false →
      r = AnalyzeResponse.failure "Invalid image"
      ∨ r = AnalyzeResponse.failure
              "Gemini could not read bands (model/key access issue?)")
  ∧ (∀ data e,
      image_open data = Raise e →
      respond data = Ok (AnalyzeResponse.failure "Invalid image"))
  ∧ (∀ data img raw used,
      image_open data = Ok img →
      read_bands img = Ok (None, raw, used)
      ∨ read_bands img = Ok (Some [], raw, used) →
      respond data
      = Ok (AnalyzeResponse.failure
              "Gemini could not read bands (model/key access issue?)"))
  ∧ (∀ data img parts items,
      image_open data = Ok img →
      parts_of img = Ok parts →
      no_text (sdk_generate parts) = false →
      json_loads (extract_payload (default "" (sdk_generate parts)))
      = Ok (JObj items) →
      assoc "bands" items = None →
      respond data
      = Ok (AnalyzeResponse.failure
              "Gemini could not read bands (model/key access issue?)"))
  ∧ (∀ data e,
      respond data = Raise e ↔
      ∃ img,
        image_open data = Ok img
        ∧ (resize_max img_size img_resize img 1024 = Raise e
           ∨ (∃ small,
                resize_max img_size img_resize img 1024 = Ok small
                ∧ save_jpeg small = Raise e)
           ∨ (∃ parts txt js,
                parts_of img = Ok parts
                ∧ text_of parts = Some txt ∧ txt ≠ ""
                ∧ json_loads (extract_payload txt) = Ok js
                ∧ read_colors int_of_str js = Raise e)))
  ∧ (∀ data img w h,
      rejects_empty_size img_resize →
      image_open data = Ok img →
      img_size img = (w, h) → 1 ≤ w < 2 ^ 31 → 1 ≤ h < 2 ^ 31 →
      1024 * Z.min w h < Z.max w h →
      respond data = Raise ValueError).
Proof.
  split; [|split; [|split; [|split; [|split]]]].
  - intros data r
      [-> | [-> | (img & read & raw & used & Hi & Hr & Hne & ->)]]%respond_cases;
      auto. done.
  - intros data e Hi. unfold analyze. by rewrite Hi.
  - intros data img raw used Hi [Hr | Hr]; unfold analyze;
      by rewrite Hi, Hr.
  - intros data img parts items Hi Hp Hs Hj Hb. unfold analyze. rewrite Hi.
    rewrite read_bands_cases, Hp. cbn [mbind result_bind]. cbv zeta.
    unfold answer_text. rewrite Hs, Hs, Hj.
    unfold read_colors. cbn [dict_get]. by rewrite Hb.
  - intros data e. rewrite respond_raises. split.
    + intros (img & Hi & Hr). exists img. split; [done|].
      apply read_bands_raises in Hr as [Hp | Hr]; [|by right; right].
      apply parts_of_cases in Hp as [Hp | Hp]; [by left|by right; left].
    + intros (img & Hi & H). exists img. split; [done|].
      apply read_bands_raises.
      destruct H as [H | [H | H]]; [left|left|by right];
        apply parts_of_cases; [by left|by right].
  - intros data img w h Hrej Hi Hsize Hw Hh Hmin.
    apply respond_raises. exists img. split; [done|].
    apply read_bands_raises. left. apply parts_of_cases. left.
    by apply (resize_max_refused img_size img_resize img w h).
Qed.

End ServiceFacts.

(** On the sample the SDK gives nothing and the REST answer is read; two
    silent back ends; an SDK that gives the sample text itself. *)
Lemma gemini_read_bands_outcomes_witness :
  (∃ parts,
      request_parts sample_size sample_resize sample_save (4032, 3024)
      = Ok parts
      ∧ (∃ txt js, answer_text sample_sdk sample_rest parts = Some txt
                   ∧ sample_json_loads (extract_payload txt) = Ok js
                   ∧ Some (JObj SAMPLE_ANSWER) = Some js
                   ∧ read_colors unused_int_of_str js
                     = Ok ["yellow"; "violet"; "brown"; "gold"])
      ∧ (Some "rest" = Some "sdk" ∨ Some "rest" = Some "rest")
      ∧ (Some "rest" = Some "sdk" ↔ no_text (sample_sdk parts) = false))
  ∧ (∃ parts,
      request_parts sample_size sample_resize sample_save (4032, 3024)
      = Ok parts
      ∧ (None : option json) = None
      ∧ ((None : option string) = None ↔
         no_text (silent parts) = true ∧ no_text (silent parts) = true))
  ∧ gemini_read_bands sample_size sample_resize sample_save sample_rest
      silent sample_json_loads unused_int_of_str (4032, 3024)
    = gemini_read_bands sample_size sample_resize sample_save sample_rest
        sample_sdk sample_json_loads unused_int_of_str (4032, 3024).
Proof.
  split; [|split].
  - apply (proj1 (gemini_read_bands_outcomes string (Z * Z) sample_size
                    sample_resize sample_save sample_sdk sample_rest
                    sample_json_loads unused_int_of_str) (4032, 3024)).
    vm_compute. reflexivity.
  - apply (proj1 (proj2 (gemini_read_bands_outcomes string (Z * Z)
                           sample_size sample_resize sample_save silent
                           silent sample_json_loads unused_int_of_str))
             (4032, 3024)).
    vm_compute. reflexivity.
  - apply (proj1 (proj2 (proj2 (gemini_read_bands_outcomes string (Z * Z)
                           sample_size sample_resize sample_save
                           sample_rest silent sample_json_loads
                           unused_int_of_str)))
             (4032, 3024)
             [Text sys; Text user; Blob "image/jpeg" "JFIF"]);
      vm_compute; reflexivity.
Defined.

(** The response to the sample upload: 470 Ω at 5 %. *)
Lemma analyze_ok_response_witness :
  AnalyzeResponse.message SAMPLE_RESPONSE = None
  ∧ (AnalyzeResponse.used SAMPLE_RESPONSE = Some "gemini_only/sdk"
     ∨ AnalyzeResponse.used SAMPLE_RESPONSE = Some "gemini_only/rest")
  ∧ is_Some (AnalyzeResponse.gemini SAMPLE_RESPONSE)
  ∧ (∃ colors,
       AnalyzeResponse.colors SAMPLE_RESPONSE = Some colors
       ∧ colors ≠ [] ∧ orient colors = colors
       ∧ (AnalyzeResponse.value_ohms SAMPLE_RESPONSE,
          AnalyzeResponse.tolerance_pct SAMPLE_RESPONSE)
         = compute_value_from_colors colors
       ∧ ((length colors < 3)%nat →
          AnalyzeResponse.value_ohms SAMPLE_RESPONSE = None
          ∧ AnalyzeResponse.tolerance_pct SAMPLE_RESPONSE = None))
  ∧ AnalyzeResponse.value_display SAMPLE_RESPONSE
    = human (AnalyzeResponse.value_ohms SAMPLE_RESPONSE)
  ∧ AnalyzeResponse.snapped_ohms SAMPLE_RESPONSE
    = snap_e24 sample_log10 sample_power
        (AnalyzeResponse.value_ohms SAMPLE_RESPONSE)
  ∧ AnalyzeResponse.snapped_display SAMPLE_RESPONSE
    = human (AnalyzeResponse.snapped_ohms SAMPLE_RESPONSE)
  ∧ (is_Some (AnalyzeResponse.value_display SAMPLE_RESPONSE)
     ↔ is_Some (AnalyzeResponse.value_ohms SAMPLE_RESPONSE))
  ∧ (is_Some (AnalyzeResponse.snapped_ohms SAMPLE_RESPONSE)
     ↔ is_Some (AnalyzeResponse.value_ohms SAMPLE_RESPONSE))
  ∧ (is_Some (AnalyzeResponse.snapped_display SAMPLE_RESPONSE)
     ↔ is_Some (AnalyzeResponse.value_ohms SAMPLE_RESPONSE)).
Proof.
  apply (analyze_ok_response string (Z * Z) sample_image_open sample_size
           sample_resize sample_save sample_sdk sample_rest
           sample_json_loads unused_int_of_str sample_log10 sample_power
           "jpeg");
    vm_compute; reflexivity.
Defined.

(** An empty upload; two silent back ends; an answer that is the empty
    object; a strip of 1 by 2000 pixels. *)
Lemma analyze_failure_response_witness :
  (AnalyzeResponse.failure "Invalid image"
   = AnalyzeResponse.failure "Invalid image"
   ∨ AnalyzeResponse.failure "Invalid image"
     = AnalyzeResponse.failure
         "Gemini could not read bands (model/key access issue?)")
  ∧ sample_analyze ""
    = Ok (AnalyzeResponse.failure "Invalid image")
  ∧ analyze sample_image_open sample_size sample_resize sample_save
      silent silent sample_json_loads unused_int_of_str sample_log10
      sample_power "jpeg"
    = Ok (AnalyzeResponse.failure
            "Gemini could not read bands (model/key access issue?)")
  ∧ analyze sample_image_open sample_size sample_resize sample_save
      empty_object silent sample_json_loads unused_int_of_str sample_log10
      sample_power "jpeg"
    = Ok (AnalyzeResponse.failure
            "Gemini could not read bands (model/key access issue?)")
  ∧ sample_analyze "strip" = Raise ValueError.
Proof.
  split; [|split; [|split; [|split]]].
  - apply (proj1 (analyze_failure_response string (Z * Z) sample_image_open
                    sample_size sample_resize sample_save sample_sdk
                    sample_rest sample_json_loads unused_int_of_str
                    sample_log10 sample_power) "");
      vm_compute; reflexivity.
  - apply (proj1 (proj2 (analyze_failure_response string (Z * Z)
                           sample_image_open sample_size sample_resize
                           sample_save sample_sdk sample_rest
                           sample_json_loads unused_int_of_str sample_log10
                           sample_power)) "" OSError).
    vm_compute. reflexivity.
  - apply (proj1 (proj2 (proj2 (analyze_failure_response string (Z * Z)
                                  sample_image_open sample_size
                                  sample_resize sample_save silent silent
                                  sample_json_loads unused_int_of_str
                                  sample_log10 sample_power)))
             "jpeg" (4032, 3024) None None).
    + vm_compute. reflexivity.
    + left. vm_compute. reflexivity.
  - apply (proj1 (proj2 (proj2 (proj2 (analyze_failure_response string
                                  (Z * Z) sample_image_open sample_size
                                  sample_resize sample_save empty_object
                                  silent sample_json_loads
                                  unused_int_of_str sample_log10
                                  sample_power))))
             "jpeg" (4032, 3024)
             [Text sys; Text user; Blob "image/jpeg" "JFIF"] []);
      vm_compute; reflexivity.
  - apply (proj2 (proj2 (proj2 (proj2 (proj2 (analyze_failure_response
                                  string (Z * Z) sample_image_open
                                  sample_size sample_resize sample_save
                                  sample_sdk sample_rest sample_json_loads
                                  unused_int_of_str sample_log10
                                  sample_power)))))
             "strip" (1, 2000) 1 2000);
      [apply sample_resize_rejects|vm_compute; reflexivity..|done|done|done].
Defined.
